(** * Rank-based evaluation of PyKEEN: metric keys, weighted statistics,
      rank accumulators and sampled negatives.

    The development embeds [pykeen/evaluation/metrics.py] and
    [pykeen/evaluation/rank_based_evaluator.py].

    Conventions of the embedding.
    - Python [str] values are Rocq strings, read as ASCII text: the classes
      [\w] and [\d] and [str.lower] are the ones of ASCII, and a byte above
      127 is in none of them.  What is stated of a text with such bytes is
      stated of the model only.
    - [int] values are unbounded integers.  [int] of a text refuses more
      than 4300 digits, the default limit of the interpreter.
    - [float] values (ranks, weights, metric values) are exact rationals
      [Q]; equalities between them are stated with [==].  Rounding is
      modelled where the source truncates a float to an integer, and not
      elsewhere; [nan] and the infinities are modelled where a division by
      zero gives them.
    - An exception is a value of an error type, carried in a [sum]. *)

From Stdlib Require Import QArith Qabs Qround Ascii String DecimalString DecimalPos.
From stdpp Require Import base gmap strings list sorting.

Local Open Scope string_scope.

(** ** Small Python idioms *)

(** [d.get(key, default)] on a dictionary given by its items. *)
Fixpoint dict_get {V : Type} (d : list (string * V)) (key : string) : option V :=
  match d with
  | [] => None
  | (k, v) :: d' => if String.eqb k key then Some v else dict_get d' key
  end.

Definition dict_get_default (d : list (string * string)) (key default : string) : string :=
  match dict_get d key with
  | Some v => v
  | None => default
  end.

(** [x in xs] for a collection of strings. *)
Definition str_in (x : string) (xs : list string) : bool :=
  existsb (String.eqb x) xs.

(** [".".join(components)]. *)
Fixpoint str_join (sep : string) (components : list string) : string :=
  match components with
  | [] => ""
  | [c] => c
  | c :: cs => c ++ sep ++ str_join sep cs
  end.

(** [str.lower] and [str.replace] of one character on ASCII text. *)
Definition ascii_lower (c : ascii) : ascii :=
  let n := nat_of_ascii c in
  if ((65 <=? n) && (n <=? 90))%nat then ascii_of_nat (n + 32) else c.

Fixpoint str_lower (s : string) : string :=
  match s with
  | EmptyString => EmptyString
  | String c s' => String (ascii_lower c) (str_lower s')
  end.

Fixpoint str_replace_char (a b : ascii) (s : string) : string :=
  match s with
  | EmptyString => EmptyString
  | String c s' => String (if Ascii.eqb c a then b else c) (str_replace_char a b s')
  end.

(** ** The regular expressions of [metrics.py] *)

Definition is_digit (c : ascii) : bool :=
  let n := nat_of_ascii c in ((48 <=? n) && (n <=? 57))%nat.

(** [\w] on ASCII: letters, digits and the underscore. *)
Definition is_word (c : ascii) : bool :=
  let n := nat_of_ascii c in
  (is_digit c
   || ((65 <=? n) && (n <=? 90)) || ((97 <=? n) && (n <=? 122))
   || (n =? 95))%nat.

(** The character class [[\w@]]. *)
Definition is_name_char (c : ascii) : bool :=
  is_word c || Ascii.eqb c "@".

(** A greedy run [c+] / [c*]: the longest prefix whose characters satisfy
    [p], and what follows it. *)
Fixpoint take_while (p : ascii -> bool) (s : string) : string * string :=
  match s with
  | EmptyString => (EmptyString, EmptyString)
  | String c s' =>
      if p c then let '(run, rest) := take_while p s' in (String c run, rest)
      else (EmptyString, s)
  end.

(** A literal: [strip_prefix lit s] is what follows [lit] in [s]. *)
Fixpoint strip_prefix (lit s : string) : option string :=
  match lit with
  | EmptyString => Some s
  | String a lit' =>
      match s with
      | EmptyString => None
      | String b s' => if Ascii.eqb a b then strip_prefix lit' s' else None
      end
  end.

(** An alternation of literals [a1|a2|...]: the first alternative that
    matches at the start of [s]. *)
Fixpoint match_alternatives (alts : list string) (s : string) : option (string * string) :=
  match alts with
  | [] => None
  | a :: alts' =>
      match strip_prefix a s with
      | Some rest => Some (a, rest)
      | None => match_alternatives alts' s
      end
  end.

(** The optional group [(\.(?P<g>a1|a2|...))?].  Everything after it in
    [METRIC_PATTERN] is optional and [match] does not anchor the end, so the
    first way to match the group is the one the engine keeps. *)
Definition match_dot_alternatives (alts : list string) (s : string) : option string * string :=
  match s with
  | String "." s' =>
      match match_alternatives alts s' with
      | Some (a, rest) => (Some a, rest)
      | None => (None, s)
      end
  | _ => (None, s)
  end.

(** The optional group [(\.(?P<k>\d+))?]. *)
Definition match_dot_digits (s : string) : option string * string :=
  match s with
  | String "." s' =>
      match take_while is_digit s' with
      | (EmptyString, _) => (None, s)
      | (digits, rest) => (Some digits, rest)
      end
  | _ => (None, s)
  end.

(** ** Exceptions as values *)

(** [bind] of the error monad: the first exception raised ends the
    computation. *)
Definition bind {E A B : Type} (m : E + A) (f : A -> E + B) : E + B :=
  match m with
  | inl e => inl e
  | inr a => f a
  end.

Notation "'try' x <- m 'in' k" := (bind m (fun x => k))
  (at level 10, x pattern, m at level 200, k at level 200).

Definition is_ok {E A : Type} (m : E + A) : bool :=
  match m with
  | inr _ => true
  | inl _ => false
  end.

(** The value of a computation that did not raise, [default] otherwise. *)
Definition from_ok {E A : Type} (default : A) (m : E + A) : A :=
  match m with
  | inr a => a
  | inl _ => default
  end.

(** ** Constants of [pykeen.typing] *)

Definition LABEL_HEAD : string := "head".
Definition LABEL_TAIL : string := "tail".
Definition SIDE_BOTH : string := "both".
Definition RANK_OPTIMISTIC : string := "optimistic".
Definition RANK_PESSIMISTIC : string := "pessimistic".
Definition RANK_REALISTIC : string := "realistic".
Definition RANK_EXPECTED_REALISTIC : string := "expected_realistic".

(** Modelled from the spec: [SIDES] of [pykeen.typing], which is not among
    the sources; the spec gives the closed set of sides as head, tail and
    both. *)
Definition SIDES : list string := [LABEL_HEAD; LABEL_TAIL; SIDE_BOTH].

(** Modelled from the spec: [RANK_TYPES] of [pykeen.typing], which is not
    among the sources; the spec names the three base rank types
    optimistic, pessimistic and realistic. *)
Definition RANK_TYPES : list string := [RANK_OPTIMISTIC; RANK_PESSIMISTIC; RANK_REALISTIC].

(** The closed set of the [rank_type] field of the data model: the base
    rank types and the expected realistic one. *)
Definition EXTENDED_RANK_TYPES : list string :=
  (RANK_TYPES ++ [RANK_EXPECTED_REALISTIC])%list.

(** ** Names of [metrics.py] *)

Definition ARITHMETIC_MEAN_RANK : string := "arithmetic_mean_rank".
Definition GEOMETRIC_MEAN_RANK : string := "geometric_mean_rank".
Definition HARMONIC_MEAN_RANK : string := "harmonic_mean_rank".
Definition MEDIAN_RANK : string := "median_rank".
Definition INVERSE_ARITHMETIC_MEAN_RANK : string := "inverse_arithmetic_mean_rank".
Definition INVERSE_GEOMETRIC_MEAN_RANK : string := "inverse_geometric_mean_rank".
Definition INVERSE_HARMONIC_MEAN_RANK : string := "inverse_harmonic_mean_rank".
Definition INVERSE_MEDIAN_RANK : string := "inverse_median_rank".
Definition ADJUSTED_ARITHMETIC_MEAN_RANK : string := "adjusted_arithmetic_mean_rank".
Definition ADJUSTED_ARITHMETIC_MEAN_RANK_INDEX : string := "adjusted_arithmetic_mean_rank_index".
Definition RANK_STD : string := "rank_std".
Definition RANK_VARIANCE : string := "rank_var".
Definition RANK_MAD : string := "rank_mad".
Definition RANK_COUNT : string := "rank_count".
Definition HITS_AT_K : string := "hits_at_k".

Definition TYPES_REALISTIC_ONLY : list string :=
  [ADJUSTED_ARITHMETIC_MEAN_RANK; ADJUSTED_ARITHMETIC_MEAN_RANK_INDEX].

Definition METRIC_SYNONYMS : list (string * string) :=
  [ ("adjusted_mean_rank", ADJUSTED_ARITHMETIC_MEAN_RANK);
    ("adjusted_mean_rank_index", ADJUSTED_ARITHMETIC_MEAN_RANK_INDEX);
    ("amr", ADJUSTED_ARITHMETIC_MEAN_RANK);
    ("aamr", ADJUSTED_ARITHMETIC_MEAN_RANK);
    ("amri", ADJUSTED_ARITHMETIC_MEAN_RANK_INDEX);
    ("aamri", ADJUSTED_ARITHMETIC_MEAN_RANK_INDEX);
    ("igmr", INVERSE_GEOMETRIC_MEAN_RANK);
    ("iamr", INVERSE_ARITHMETIC_MEAN_RANK);
    ("mr", ARITHMETIC_MEAN_RANK);
    ("mean_rank", ARITHMETIC_MEAN_RANK);
    ("mrr", INVERSE_HARMONIC_MEAN_RANK);
    ("mean_reciprocal_rank", INVERSE_HARMONIC_MEAN_RANK) ].

(** [HITS_PATTERN.match(name)]: one of the three prefixes, then a run of
    digits; the value is the group [k]. *)
Definition HITS_PATTERN_match (name : string) : option string :=
  match match_alternatives ["hits_at_"; "hits@"; "h@"] name with
  | Some (_, rest) =>
      match take_while is_digit rest with
      | (EmptyString, _) => None
      | (digits, _) => Some digits
      end
  | None => None
  end.

(** The decimal value of a run of digits, [None] for any other text. *)
Fixpoint digits_value (acc : Z) (s : string) : option Z :=
  match s with
  | EmptyString => Some acc
  | String c s' =>
      if is_digit c
      then digits_value (10 * acc + Z.of_nat (nat_of_ascii c - 48)) s'
      else None
  end.

(** The default of [sys.int_max_str_digits]: [int] refuses a text of more
    digits than this. *)
Definition int_max_str_digits : nat := 4300.

(** [int(k)] for the text of a group [\d+]: the decimal value.  A text of
    more than [int_max_str_digits] digits raises [ValueError], as any text
    that is no number does; here [None]. *)
Definition py_int (s : string) : option Z :=
  match s with
  | EmptyString => None
  | _ => if (String.length s <=? int_max_str_digits)%nat then digits_value 0 s else None
  end.

(** [str(k)] for an integer. *)
Definition py_str_int (z : Z) : string := NilZero.string_of_int (Z.to_int z).

(** The variable [k] of [lookup] has type [Union[None, str, int]]. *)
Inductive KValue : Type :=
| KNone
| KStr (text : string)
| KInt (value : Z).

(** The exceptions [lookup] raises, one constructor per [raise] and one for
    the [assert]. *)
Inductive LookupError : Type :=
| InvalidMetricName (s : string)          (* ValueError: Invalid metric name: {s} *)
| MetricNameMissing                       (* ValueError: A metric name must be provided. *)
| InvalidK (k : string)                   (* ValueError: Invalid k={k} for hits_at_k *)
| NegativeK (k : Z)                       (* ValueError: For hits_at_k, you must provide a positive value of k *)
| KNotAnInteger                           (* AssertionError of [assert k is None or isinstance(k, int)] *)
| InvalidSide (side : string)             (* ValueError: Invalid side: {side} *)
| InvalidRankType (rank_type : string)    (* ValueError: Invalid rank type: {rank_type} *)
| RealisticOnly (name rank_type : string) (* ValueError: Invalid rank type for {name}: {rank_type} *).

(** The groups of a successful [METRIC_PATTERN.match(s)], and the text after
    the end of the match ([s[match.end():]]), which [lookup] never reads. *)
Record MetricMatch : Type := mkMetricMatch {
  group_name : string;
  group_side : option string;
  group_type : option string;
  group_k : option string;
  after_match : string
}.

Module MetricKey.

(** [class MetricKey(NamedTuple)]. *)
Record t : Type := mk {
  name : string;
  side : string;
  rank_type : string;
  k : option Z
}.

(** [MetricKey.__str__]; [if self.k] is false for [None] and for [0]. *)
Definition str (key : t) : string :=
  let components := [name key; side key; rank_type key] in
  let components :=
    match k key with
    | Some z => if Z.eqb z 0 then components else (components ++ [py_str_int z])%list
    | None => components
    end in
  str_join "." components.

Section WithRankTypeSynonyms.

(** [RANK_TYPE_SYNONYMS] of [pykeen.typing] is not among the sources and the
    spec does not list its entries: the table is a parameter, given by its
    items in order.  Its keys are plain words, so that as alternatives of
    [_TYPE_PATTERN] they match literally. *)
Variable RANK_TYPE_SYNONYMS : list (string * string).

(** The alternatives of [_TYPE_PATTERN], in the order of the [join]. *)
Definition TYPE_ALTERNATIVES : list string :=
  (RANK_TYPES ++ map fst RANK_TYPE_SYNONYMS)%list.

(** [METRIC_PATTERN.match(s)]: the name is a greedy run of [[\w@]]; the
    three optional groups follow; the match is anchored at the start of [s]
    only. *)
Definition METRIC_PATTERN_match (s : string) : option MetricMatch :=
  match take_while is_name_char s with
  | (EmptyString, _) => None
  | (name, s1) =>
      let '(side, s2) := match_dot_alternatives SIDES s1 in
      let '(rank_type, s3) := match_dot_alternatives TYPE_ALTERNATIVES s2 in
      let '(k, s4) := match_dot_digits s3 in
      Some (mkMetricMatch name side rank_type k s4)
  end.

(** The [hits_at_k] block of [lookup]: default 10, [int(k)], sign check. *)
Definition resolve_hits_k (k : KValue) : LookupError + KValue :=
  let k := match k with KNone => KInt 10 | _ => k end in
  try z <- match k with
          | KInt z => inr z
          | KStr text =>
              match py_int text with
              | Some z => inr z
              | None => inl (InvalidK text)
              end
          | KNone => inr 10%Z
          end in
  if (z <? 0)%Z then inl (NegativeK z) else inr (KInt z).

(** The block [# normalize metric name] of [lookup], with the special case
    for hits at k, the [assert] on [k] and the synonyms of the name: the
    name and [k] of the key. *)
Definition resolve_name (m : MetricMatch) : LookupError + (string * option Z) :=
  let name := group_name m in
  let k := match group_k m with Some text => KStr text | None => KNone end in
  if String.eqb name "" then inl MetricNameMissing else
  let name := str_replace_char " " "_" (str_lower name) in
  let '(name, k) :=
    match HITS_PATTERN_match name with
    | Some text => (HITS_AT_K, KStr text)
    | None => (name, k)
    end in
  try k <- (if String.eqb name HITS_AT_K then resolve_hits_k k else inr k) in
  try k <- match k with
           | KNone => inr None
           | KInt z => inr (Some z)
           | KStr _ => inl KNotAnInteger
           end in
  inr (dict_get_default METRIC_SYNONYMS name name, k).

(** The block [# normalize side]. *)
Definition resolve_side (m : MetricMatch) : LookupError + string :=
  let side := match group_side m with Some x => x | None => SIDE_BOTH end in
  let side := str_lower side in
  if negb (str_in side SIDES) then inl (InvalidSide side) else inr side.

(** The block [# normalize rank type]. *)
Definition resolve_rank_type (name : string) (m : MetricMatch) : LookupError + string :=
  let rank_type := match group_type m with Some x => x | None => RANK_REALISTIC end in
  let rank_type := str_lower rank_type in
  let rank_type := dict_get_default RANK_TYPE_SYNONYMS rank_type rank_type in
  if negb (str_in rank_type RANK_TYPES) then inl (InvalidRankType rank_type)
  else if negb (String.eqb rank_type RANK_REALISTIC) && str_in name TYPES_REALISTIC_ONLY
  then inl (RealisticOnly name rank_type)
  else inr rank_type.

(** [MetricKey.lookup]: the match, then the three blocks in the order of
    the source. *)
Definition lookup (s : string) : LookupError + t :=
  match METRIC_PATTERN_match s with
  | None => inl (InvalidMetricName s)
  | Some m =>
      try (name, k) <- resolve_name m in
      try side <- resolve_side m in
      try rank_type <- resolve_rank_type name m in
      inr (mk name side rank_type k)
  end.

(** [MetricKey.normalize]. *)
Definition normalize (s : string) : LookupError + string :=
  try key <- lookup s in inr (str key).

End WithRankTypeSynonyms.

End MetricKey.
(** ** Numeric arrays *)

Local Open Scope Q_scope.

(** [float("nan")] beside the rational values. *)
Inductive Value : Type :=
| Num (q : Q)
| NaN.

(** Exceptions of the evaluators.  A [ValueError] records the [raise] it
    comes from. *)
Inductive ValueErrorSite : Type :=
| RelativeKOutOfRange      (* RankBasedEvaluator.__init__: a float k outside (0, 1) *)
| TrueScoresMissing        (* process_scores_: true_scores is None *)
| NumEntitiesUnset         (* finalize: self.num_entities is None *)
| TooManyNegatives         (* Cannot use more negative samples than there are entities. *)
| OneSidedNegatives        (* Either both, head and tail negatives must be provided, or none. *)
| NegativesWrongShape (side : string) (* Negatives for {side} are in wrong shape *)
| SampleLargerThanPopulation (* random.sample *).

Inductive Exception : Type :=
| ValueError (site : ValueErrorSite)
| IndexError
| KeyError
| ZeroDivisionError
| AssertionError
| RuntimeError.

(** [x < y] on floats. *)
Definition Qlt_bool (x y : Q) : bool := negb (Qle_bool y x).

Definition Qsum (xs : list Q) : Q := foldr Qplus 0 xs.

Definition Qlen {A : Type} (xs : list A) : Q := inject_Z (Z.of_nat (length xs)).

(** ** Rounding to binary64

    Where the source truncates a float to an integer, the rounding of the
    float decides the integer, and the float is rounded as the machine
    rounds it. *)

(** The integer nearest to a rational, of two nearest ones the even one. *)
Definition round_half_even (x : Q) : Z :=
  let f := Qfloor x in
  match Qcompare (x - inject_Z f) (1 # 2) with
  | Lt => f
  | Gt => (f + 1)%Z
  | Eq => if Z.even f then f else (f + 1)%Z
  end.

(** [2 ** e] for an integer [e]. *)
Definition Qpow2 (e : Z) : Q :=
  if (0 <=? e)%Z then inject_Z (2 ^ e) else / inject_Z (2 ^ (- e)).

(** The integer part of the binary logarithm of a positive rational. *)
Definition Qlog2 (x : Q) : Z :=
  let l := (Z.log2 (Qnum x) - Z.log2 (Zpos (Qden x)))%Z in
  if Qle_bool (Qpow2 l) x then l else (l - 1)%Z.

(** The binary64 number nearest to [x], ties to even: a significand of 53
    bits, and of fewer below [2 ** -1022].  The exponent is not bounded
    above: the products the source rounds are below the number of
    entities. *)
Definition float64_round (x : Q) : Q :=
  if Qeq_bool x 0 then 0 else
  let a := Qabs x in
  let e := Z.max (Qlog2 a - 52) (-1074) in
  let r := inject_Z (round_half_even (a / Qpow2 e)) * Qpow2 e in
  if Qle_bool 0 x then r else - r.

(** [np.mean] of a float array. *)
Definition np_mean (xs : list Q) : Q := Qsum xs / Qlen xs.

(** [np.mean] of a boolean array: the fraction of [True]. *)
Definition np_mean_bool (bs : list bool) : Q :=
  np_mean (map (fun b : bool => if b then 1 else 0) bs).

(** [np.average(xs, weights=ws)]; numpy raises [ZeroDivisionError] when the
    weights sum to zero. *)
Definition np_average (xs ws : list Q) : Exception + Q :=
  let total := Qsum ws in
  if Qeq_bool total 0 then inl ZeroDivisionError
  else inr (Qsum (zip_with Qmult xs ws) / total).

(** Insertion of [x] into a list sorted by [key], before the entries whose
    key is not smaller. *)
Fixpoint insert_by {A : Type} (key : A -> Q) (x : A) (xs : list A) : list A :=
  match xs with
  | [] => [x]
  | y :: ys => if Qle_bool (key x) (key y) then x :: y :: ys else y :: insert_by key x ys
  end.

(** A stable sort by [key]: equal keys stay in input order. *)
Definition sort_by {A : Type} (key : A -> Q) (xs : list A) : list A :=
  foldr (insert_by key) [] xs.

(** [np.sort]. *)
Definition np_sort (a : list Q) : list Q := sort_by id a.

(** [np.argsort(a)]: the positions of [a] in ascending order of value.
    Ties keep their input order, as numpy's default sort does on the short
    arrays it sorts by insertion. *)
Definition np_argsort (a : list Q) : list nat :=
  map fst (sort_by snd (zip (seq 0 (length a)) a)).

(** Fancy indexing [a[indices]]; an index out of range raises. *)
Fixpoint np_take {A : Type} (a : list A) (indices : list nat) : Exception + list A :=
  match indices with
  | [] => inr []
  | i :: indices' =>
      match a !! i with
      | None => inl IndexError
      | Some x => try xs <- np_take a indices' in inr (x :: xs)
      end
  end.

(** [np.cumsum], written with the running total. *)
Fixpoint cumsum_from (acc : Q) (xs : list Q) : list Q :=
  match xs with
  | [] => []
  | x :: xs' => (acc + x) :: cumsum_from (acc + x) xs'
  end.

Definition np_cumsum (xs : list Q) : list Q := cumsum_from 0 xs.

(** An entry of a float array of numpy: a number, an infinity or [nan]. *)
Inductive NpFloat : Type :=
| Finite (q : Q)
| Inf (positive : bool)
| Nan.

(** [a / b] on float arrays of numpy: a division by zero warns and does not
    raise; it gives an infinity with the sign of [a], and [nan] for
    [0 / 0]. *)
Definition np_divide (a b : Q) : NpFloat :=
  if Qeq_bool b 0
  then (if Qeq_bool a 0 then Nan else Inf (Qlt_bool 0 a))
  else Finite (a / b).

(** [x < v] in the order numpy sorts and searches by, for a number [v]:
    [nan] is above every number. *)
Definition np_less (x : NpFloat) (v : Q) : bool :=
  match x with
  | Finite q => Qlt_bool q v
  | Inf positive => negb positive
  | Nan => false
  end.

(** The loop of the binary search of [np.searchsorted] with the default
    side, between [min_idx] and [max_idx]; [fuel] bounds its iterations. *)
Fixpoint binsearch_left (fuel : nat) (a : list NpFloat) (v : Q) (min_idx max_idx : nat) : nat :=
  match fuel with
  | O => min_idx
  | S fuel' =>
      if (min_idx <? max_idx)%nat then
        let mid_idx := (min_idx + (max_idx - min_idx) / 2)%nat in
        match a !! mid_idx with
        | Some mid_val =>
            if np_less mid_val v
            then binsearch_left fuel' a v (S mid_idx) max_idx
            else binsearch_left fuel' a v min_idx mid_idx
        | None => min_idx
        end
      else min_idx
  end.

(** [np.searchsorted(a, v)] with the default side: the binary search over
    the whole array, which halves the interval at each iteration.  On an
    ascending array the result is the first position whose entry is not
    below [v], the length when there is none. *)
Definition np_searchsorted (a : list NpFloat) (v : Q) : nat :=
  binsearch_left (length a) a v 0 (length a).

(** [np.median]: the middle entry of the sorted array, or the mean of the
    two middle entries. *)
Definition np_median (xs : list Q) : Q :=
  let s := np_sort xs in
  let n := length s in
  if Nat.even n
  then (nth (n / 2 - 1) s 0 + nth (n / 2) s 0) / 2
  else nth (n / 2) s 0.

(** [np.var] and the harmonic mean of [scipy.stats.hmean]. *)
Definition np_var (xs : list Q) : Q :=
  let m := np_mean xs in np_mean (map (fun x => (x - m) * (x - m)) xs).

Definition stats_hmean (xs : list Q) : Q := Qlen xs / Qsum (map Qinv xs).

(** [scipy.stats.median_abs_deviation] with its default scale. *)
Definition stats_median_abs_deviation (xs : list Q) : Q :=
  let m := np_median xs in np_median (map (fun x => Qabs (x - m)) xs).

(** ** [metrics.py]: weighted statistics *)

(** [weighted_median(a, weights)]. *)
Definition weighted_median (a weights : list Q) : Exception + Q :=
  let indices := np_argsort a in
  try s_ranks <- np_take a indices in
  try s_weights <- np_take weights indices in
  let cum_sum := np_cumsum (0 :: s_weights) in
  let cum_sum := map (fun c => np_divide c (List.last cum_sum 0)) cum_sum in
  let idx := np_searchsorted cum_sum (1 # 2) in
  match s_ranks !! idx with
  | Some v => inr v
  | None => inl IndexError
  end.

(** The functions of numpy and scipy whose values are not rational: the
    geometric mean (with optional weights) and the square root. *)
Record Irrational : Type := mkIrrational {
  stats_gmean : list Q -> option (list Q) -> Q;
  np_sqrt : Q -> Q
}.

Section Registry.

Variable fns : Irrational.

(** [ALL_TYPE_FUNCS], in the order of the dictionary. *)
Definition ALL_TYPE_FUNCS : list (string * (list Q -> Q)) :=
  [ (ARITHMETIC_MEAN_RANK, np_mean);
    (HARMONIC_MEAN_RANK, stats_hmean);
    (GEOMETRIC_MEAN_RANK, fun x => stats_gmean fns x None);
    (MEDIAN_RANK, np_median);
    (INVERSE_ARITHMETIC_MEAN_RANK, fun x => / np_mean x);
    (INVERSE_GEOMETRIC_MEAN_RANK, fun x => / stats_gmean fns x None);
    (INVERSE_HARMONIC_MEAN_RANK, fun x => / stats_hmean x);
    (INVERSE_MEDIAN_RANK, fun x => / np_median x);
    (RANK_STD, fun x => np_sqrt fns (np_var x));
    (RANK_VARIANCE, np_var);
    (RANK_MAD, stats_median_abs_deviation);
    (RANK_COUNT, fun x => Qlen x) ].

(** [get_ranking_metrics(ranks)]. *)
Definition get_ranking_metrics (ranks : list Q) : list (string * Q) :=
  map (fun '(metric_name, metric_func) => (metric_name, metric_func ranks)) ALL_TYPE_FUNCS.

(** [get_macro_ranking_metrics(ranks, weights)]: the pairs the generator
    yields, or the exception that ends it. *)
Definition get_macro_ranking_metrics (ranks weights : list Q) : Exception + list (string * Value) :=
  try mean <- np_average ranks weights in
  let gm := stats_gmean fns ranks (Some weights) in
  try median <- weighted_median ranks weights in
  try variance <- np_average (map (fun r => (r - mean) * (r - mean)) ranks) weights in
  inr [ (ARITHMETIC_MEAN_RANK, Num mean);
        (GEOMETRIC_MEAN_RANK, Num gm);
        (HARMONIC_MEAN_RANK, NaN);
        (MEDIAN_RANK, Num median);
        (INVERSE_ARITHMETIC_MEAN_RANK, Num (/ mean));
        (INVERSE_GEOMETRIC_MEAN_RANK, Num (/ gm));
        (INVERSE_HARMONIC_MEAN_RANK, NaN);
        (INVERSE_MEDIAN_RANK, Num (/ median));
        (RANK_STD, Num (np_sqrt fns variance));
        (RANK_VARIANCE, Num variance);
        (RANK_MAD, NaN);
        (RANK_COUNT, Num (Qlen ranks)) ].

End Registry.

(** ** [rank_based_evaluator.py]: results and the micro accumulator *)

(** An entry of [ks]: an [int], or a [float] given by its value. *)
Inductive HitsK : Type :=
| IntK (k : Z)
| FloatK (k : Q).

(** [RankBasedMetricResults]: the nested mapping metric -> side -> rank type
    -> value with its three keys put together, and the mapping of
    [hits_at_k], side -> rank type -> k -> value, whose innermost dictionary
    is given by the items of its comprehension (read with [hits_get]). *)
Record MetricResults : Type := mkMetricResults {
  data : gmap (string * string * string) Value;
  hits_at_k : gmap (string * string) (list (HitsK * Q))
}.

Definition empty_results : MetricResults := mkMetricResults ∅ ∅.

Definition set_metric (name side rank_type : string) (v : Value) (res : MetricResults) : MetricResults :=
  mkMetricResults (<[(name, side, rank_type) := v]> (data res)) (hits_at_k res).

Definition set_hits (side rank_type : string) (v : list (HitsK * Q)) (res : MetricResults) : MetricResults :=
  mkMetricResults (data res) (<[(side, rank_type) := v]> (hits_at_k res)).

(** Reading [asr[name][side][rank_type]] back as a number. *)
Definition get_number (name side rank_type : string) (res : MetricResults) : Exception + Q :=
  match data res !! (name, side, rank_type) with
  | Some (Num q) => inr q
  | _ => inl KeyError
  end.

(** Modelled from the spec: [EXPECTED_RANKS] of [pykeen.typing], which is not
    among the sources; only the realistic rank type has an expected
    counterpart, the expected realistic one. *)
Definition EXPECTED_RANKS : list (string * string) :=
  [ (RANK_REALISTIC, RANK_EXPECTED_REALISTIC) ].

(** A loop whose body may raise. *)
Fixpoint foldM {E A B : Type} (f : B -> A -> E + B) (acc : B) (xs : list A) : E + B :=
  match xs with
  | [] => inr acc
  | x :: xs' => try acc' <- f acc x in foldM f acc' xs'
  end.

(** [itt.product(xs, ys)]. *)
Definition product {A B : Type} (xs : list A) (ys : list B) : list (A * B) :=
  x ← xs; y ← ys; [(x, y)].

(** Division of Python floats. *)
Definition py_div (a b : Q) : Exception + Q :=
  if Qeq_bool b 0 then inl ZeroDivisionError else inr (a / b).

(** [int(x)] of a float: truncation towards zero. *)
Definition py_int_of_float (x : Q) : Z := Z.quot (Qnum x) (Zpos (Qden x)).

(** [n * k] for an [int] and a [float]: the integer becomes a float, and
    the product of the two floats is rounded.  A float is given by its
    value; a rational that is no binary64 number stands for the nearest
    one, as a literal does. *)
Definition py_mul_int_float (n : Z) (k : Q) : Q :=
  float64_round (float64_round (inject_Z n) * float64_round k).

(** The bound of hits at k: [k if isinstance(k, int) else int(num_entities * k)]. *)
Definition hits_threshold (num_entities : Z) (k : HitsK) : Z :=
  match k with
  | IntK k => k
  | FloatK k => py_int_of_float (py_mul_int_float num_entities k)
  end.

(** A two-dimensional tensor: its rows, and [shape[1]]. *)
Record Tensor (A : Type) : Type := mkTensor {
  shape1 : Z;
  rows : list (list A)
}.
Arguments mkTensor {A} _ _.
Arguments shape1 {A} _.
Arguments rows {A} _.

Definition Triple : Type := (Z * Z * Z)%type.

(** The rank computation [Ranks.from_scores(true_score, all_scores).items()]
    is a collaborator: it gives the pairs of a rank type and the ranks of
    the batch. *)
Definition RanksFromScores : Type :=
  Tensor Q -> Tensor Q -> list (string * list Q).

Module RankBasedEvaluator.

Section WithCollaborators.

Variable fns : Irrational.
Variable Ranks_from_scores : RanksFromScores.

Record t : Type := mk {
  ks : list HitsK;
  ranks : gmap (string * string) (list Q);
  num_entities : option Z
}.

(** [RankBasedEvaluator.__init__]. *)
Definition init (ks : option (list HitsK)) : Exception + t :=
  let ks := match ks with Some ks => ks | None => [IntK 1; IntK 3; IntK 5; IntK 10] end in
  if existsb (fun k => match k with
                       | FloatK k => negb (Qlt_bool 0 k && Qlt_bool k 1)
                       | IntK _ => false
                       end) ks
  then inl (ValueError RelativeKOutOfRange)
  else inr (mk ks ∅ None).

(** [self.ranks[target, rank_type].extend(v)] on the [defaultdict]. *)
Definition extend_ranks (target : string) (ranks : gmap (string * string) (list Q))
    (item : string * list Q) : gmap (string * string) (list Q) :=
  let '(rank_type, v) := item in
  <[(target, rank_type) := (default [] (ranks !! (target, rank_type)) ++ v)%list]> ranks.

(** [RankBasedEvaluator.process_scores_]. *)
Definition process_scores_ (self : t) (target : string) (scores : Tensor Q)
    (true_scores : option (Tensor Q)) : Exception + t :=
  match true_scores with
  | None => inl (ValueError TrueScoresMissing)
  | Some true_scores =>
      let batch_ranks := Ranks_from_scores true_scores scores in
      inr (mk (ks self)
              (foldl (extend_ranks target) (ranks self) batch_ranks)
              (Some (shape1 scores)))
  end.

(** [RankBasedEvaluator._get_ranks]. *)
Definition _get_ranks (self : t) (side rank_type : string) : list Q :=
  if String.eqb side SIDE_BOTH
  then concat (map (fun _side => default [] (ranks self !! (_side, rank_type)))
                   [LABEL_HEAD; LABEL_TAIL])
  else default [] (ranks self !! (side, rank_type)).

(** The body of the loop of [finalize] for one pair of a side and a rank
    type. *)
Definition finalize_pair (self : t) (num_entities : Z) (res : MetricResults)
    (pair : string * string) : Exception + MetricResults :=
  let '(side, rank_type) := pair in
  let ranks := _get_ranks self side rank_type in
  if (length ranks <? 1)%nat then inr res else
  let res :=
    set_hits side rank_type
      (map (fun k => (k, np_mean_bool
                           (map (fun r => Qle_bool r (inject_Z (hits_threshold num_entities k))) ranks)))
           (ks self)) res in
  let res :=
    foldl (fun res '(metric_name, metric_value) =>
             set_metric metric_name side rank_type (Num metric_value) res)
          res (get_ranking_metrics fns ranks) in
  match dict_get EXPECTED_RANKS rank_type with
  | None => inr res
  | Some expected_rank_type =>
      let expected_ranks := _get_ranks self side expected_rank_type in
      if (0 <? length expected_ranks)%nat then
        let expected_mean_rank := np_mean expected_ranks in
        try mean_rank <- get_number ARITHMETIC_MEAN_RANK side rank_type res in
        try adjusted <- py_div mean_rank expected_mean_rank in
        let res := set_metric ADJUSTED_ARITHMETIC_MEAN_RANK side rank_type (Num adjusted) res in
        try mean_rank <- get_number ARITHMETIC_MEAN_RANK side rank_type res in
        try ratio <- py_div (mean_rank - 1) (expected_mean_rank - 1) in
        inr (set_metric ADJUSTED_ARITHMETIC_MEAN_RANK_INDEX side rank_type (Num (1 - ratio)) res)
      else inr res
  end.

(** [RankBasedEvaluator.finalize]: the results and the accumulator after the
    call. *)
Definition finalize (self : t) : Exception + (MetricResults * t) :=
  match num_entities self with
  | None => inl (ValueError NumEntitiesUnset)
  | Some n =>
      try res <- foldM (finalize_pair self n) empty_results (product SIDES RANK_TYPES) in
      inr (res, mk (ks self) ∅ (num_entities self))
  end.

(** The number of rank observations the accumulator stores. *)
Definition observation_count (self : t) : nat :=
  map_fold (fun _ v n => (length v + n)%nat) O (ranks self).

End WithCollaborators.

End RankBasedEvaluator.

(** ** Grouping keys *)

Definition LABEL_RELATION : string := "relation".

(** Modelled from the spec: [TARGET_TO_INDEX] of [pykeen.constants], which is
    not among the sources; a triple holds head, relation and tail in this
    order, and the grouping key of a target is the pair of the two other
    positions. *)
Definition TARGET_TO_INDEX : list (string * nat) :=
  [ (LABEL_HEAD, 0%nat); (LABEL_RELATION, 1%nat); (LABEL_TAIL, 2%nat) ].

(** The columns of a triple other than column [idx], in column order. *)
Definition key_columns (idx : nat) (hrt : Triple) : Z * Z :=
  let '(h, r, t) := hrt in
  match idx with
  | O => (r, t)
  | 1%nat => (h, t)
  | _ => (h, r)
  end.

(** Column [idx] of a triple. *)
Definition triple_column (idx : nat) (hrt : Triple) : Z :=
  let '(h, r, t) := hrt in
  match idx with
  | O => h
  | 1%nat => r
  | _ => t
  end.

(** The order of rows of two integers: first column, then second. *)
Definition row_ltb (a b : Z * Z) : bool :=
  ((a.1 <? b.1) || ((a.1 =? b.1) && (a.2 <? b.2)))%Z.

Definition row_eqb (a b : Z * Z) : bool :=
  ((a.1 =? b.1) && (a.2 =? b.2))%Z.

(** Insertion into an ascending list of distinct rows. *)
Fixpoint insert_row (x : Z * Z) (xs : list (Z * Z)) : list (Z * Z) :=
  match xs with
  | [] => [x]
  | y :: ys =>
      if row_eqb x y then xs
      else if row_ltb x y then x :: xs
      else y :: insert_row x ys
  end.

(** The sorted distinct rows of an array of rows. *)
Definition unique_rows (keys : list (Z * Z)) : list (Z * Z) :=
  foldr insert_row [] keys.

(** The position of the first row equal to [x]. *)
Fixpoint row_index (x : Z * Z) (xs : list (Z * Z)) : nat :=
  match xs with
  | [] => O
  | y :: ys => if row_eqb x y then O else S (row_index x ys)
  end.

Definition count_row (x : Z * Z) (keys : list (Z * Z)) : nat :=
  length (filter (fun y => row_eqb x y = true) keys).

(** [np.unique(keys, return_counts=True, return_inverse=True, axis=0)]: the
    sorted distinct rows, for each row its position among them, and for each
    distinct row its number of occurrences. *)
Definition np_unique (keys : list (Z * Z)) : list (Z * Z) * list nat * list nat :=
  let unique := unique_rows keys in
  (unique,
   map (fun key => row_index key unique) keys,
   map (fun u => count_row u keys) unique).

(** ** The macro accumulator *)

Module MacroRankBasedEvaluator.

Section WithCollaborators.

Variable fns : Irrational.
Variable Ranks_from_scores : RanksFromScores.

Record t : Type := mk {
  base : RankBasedEvaluator.t;
  keys : gmap string (list (Z * Z))
}.

(** [MacroRankBasedEvaluator.__init__]. *)
Definition init (ks : option (list HitsK)) : Exception + t :=
  try base <- RankBasedEvaluator.init ks in
  inr (mk base ∅).

(** [MacroRankBasedEvaluator.process_scores_]. *)
Definition process_scores_ (self : t) (hrt_batch : list Triple) (target : string)
    (scores : Tensor Q) (true_scores : option (Tensor Q)) : Exception + t :=
  try base <- RankBasedEvaluator.process_scores_ Ranks_from_scores (base self) target scores true_scores in
  match dict_get TARGET_TO_INDEX target with
  | None => inl KeyError
  | Some idx =>
      inr (mk base
              (<[target := (default [] (keys self !! target) ++ map (key_columns idx) hrt_batch)%list]>
                 (keys self)))
  end.

(** [self.keys[side]] on the [defaultdict]: reading a side makes its entry. *)
Definition read_keys (keys : gmap string (list (Z * Z))) (side : string)
    : list (Z * Z) * gmap string (list (Z * Z)) :=
  let found := default [] (keys !! side) in
  (found, <[side := found]> keys).

(** [MacroRankBasedEvaluator._get_keys], with the dictionary after the
    call. *)
Definition _get_keys (keys : gmap string (list (Z * Z))) (side : string)
    : Exception + (list (Z * Z) * gmap string (list (Z * Z))) :=
  let single side keys :=
    if String.eqb side LABEL_HEAD || String.eqb side LABEL_TAIL
    then inr (read_keys keys side)
    else inl AssertionError in
  if String.eqb side SIDE_BOTH then
    try (head_keys, keys) <- single LABEL_HEAD keys in
    try (tail_keys, keys) <- single LABEL_TAIL keys in
    inr ((head_keys ++ tail_keys)%list, keys)
  else single side keys.

(** The weights of [finalize]: the reciprocal of the count of each
    observation's key. *)
Definition macro_weights (keys : list (Z * Z)) : Exception + list Q :=
  let '(_, unique_inverse, unique_counts) := np_unique keys in
  let unique_weights := map (fun c : nat => / inject_Z (Z.of_nat c)) unique_counts in
  np_take unique_weights unique_inverse.

(** The inner loop body of [finalize], for one rank type. *)
Definition finalize_rank_type (self : t) (num_entities : Z) (side : string)
    (weights : list Q) (res : MetricResults) (rank_type : string)
    : Exception + MetricResults :=
  let ranks := RankBasedEvaluator._get_ranks (base self) side rank_type in
  if negb (length ranks =? length weights)%nat then inl AssertionError else
  if (length ranks <? 1)%nat then inr res else
  try hits <-
    foldM (fun acc k =>
             try v <- np_average
                        (map (fun r => if Qle_bool r (inject_Z (hits_threshold num_entities k))
                                       then 1 else 0) ranks)
                        weights in
             inr (acc ++ [(k, v)])%list)
          [] (RankBasedEvaluator.ks (base self)) in
  let res := set_hits side rank_type hits res in
  try metrics <- get_macro_ranking_metrics fns ranks weights in
  inr (foldl (fun res '(metric_name, metric_value) =>
                set_metric metric_name side rank_type metric_value res)
             res metrics).

(** The outer loop body of [finalize], for one side. *)
Definition finalize_side (self : t) (num_entities : Z)
    (acc : MetricResults * gmap string (list (Z * Z))) (side : string)
    : Exception + (MetricResults * gmap string (list (Z * Z))) :=
  let '(res, keys) := acc in
  try (side_keys, keys) <- _get_keys keys side in
  try weights <- macro_weights side_keys in
  try res <- foldM (finalize_rank_type self num_entities side weights) res RANK_TYPES in
  inr (res, keys).

(** [MacroRankBasedEvaluator.finalize]: the results and the accumulator after
    the call. *)
Definition finalize (self : t) : Exception + (MetricResults * t) :=
  match RankBasedEvaluator.num_entities (base self) with
  | None => inl (ValueError NumEntitiesUnset)
  | Some n =>
      try (res, keys) <- foldM (finalize_side self n) (empty_results, keys self) SIDES in
      inr (res, mk (base self) keys)
  end.

(** The numbers of rank observations and of grouping keys stored. *)
Definition observation_count (self : t) : nat :=
  RankBasedEvaluator.observation_count (base self).

Definition key_count (self : t) : nat :=
  map_fold (fun _ v n => (length v + n)%nat) O (keys self).

End WithCollaborators.

End MacroRankBasedEvaluator.

(** ** Sampled negatives *)

(** The argument [additional_filter_triples]: [None], one tensor of triples,
    or a list of them. *)
Inductive FilterTriples : Type :=
| FilterNone
| FilterTensor (triples : list Triple)
| FilterList (tensors : list (list Triple)).

(** Modelled from the spec: [prepare_filter_triples] of
    [pykeen.evaluation.evaluator], which is not among the sources.  The pool
    of a key excludes the true answers across the known triples, the
    evaluation triples and the ones supplied for filtering: the helper
    returns the supplied triples followed by the evaluation triples. *)
Definition prepare_filter_triples (mapped_triples : list Triple)
    (additional_filter_triples : FilterTriples) : list Triple :=
  match additional_filter_triples with
  | FilterNone => mapped_triples
  | FilterTensor triples => (triples ++ mapped_triples)%list
  | FilterList tensors => (concat tensors ++ mapped_triples)%list
  end.

(** A table of negatives, one row per evaluation triple; a row of
    [torch.empty] that was never assigned is [None]. *)
Abbreviation Table := (list (option (list Z))).

(** The source of randomness: the numbers the generator will draw. *)
Definition Entropy : Type := list nat.

Definition draw (entropy : Entropy) : nat * Entropy :=
  match entropy with
  | [] => (O, [])
  | n :: entropy' => (n, entropy')
  end.

(** [random.sample(population, k)]: [k] entries at distinct positions of the
    population, each chosen by the next draw among the positions left. *)
Fixpoint random_sample (population : list Z) (k : nat) (entropy : Entropy)
    : Exception + (list Z * Entropy) :=
  match k with
  | O => inr ([], entropy)
  | S k' =>
      match population with
      | [] => inl (ValueError SampleLargerThanPopulation)
      | _ :: _ =>
          let '(n, entropy) := draw entropy in
          let i := (n mod length population)%nat in
          match population !! i with
          | None => inl IndexError
          | Some x =>
              try (xs, entropy) <- random_sample (delete i population) k' entropy in
              inr (x :: xs, entropy)
          end
      end
  end.

(** [n * pool] on lists. *)
Definition list_repeat {A : Type} (n : nat) (pool : list A) : list A :=
  concat (replicate n pool).

(** The first occurrences of a column, in order ([Series.unique]). *)
Fixpoint unique_first (seen : list nat) (xs : list nat) : list nat :=
  match xs with
  | [] => []
  | x :: xs' =>
      if bool_decide (x ∈ seen) then unique_first seen xs'
      else x :: unique_first (x :: seen) xs'
  end.

(** A row of [pd.merge(id_df, all_df, on=other)]: the index of the evaluation
    triple, the shared columns, and the column of the side in [all_df]. *)
Record MergedRow : Type := mkMergedRow {
  row_index_eval : nat;
  row_other : Z * Z;
  row_side_all : Z
}.

(** The inner join of the evaluation triples with all known triples on the
    columns other than column [side_idx], in the order of the evaluation
    triples. *)
Definition merge_on_other (side_idx : nat) (evaluation_triples all_triples : list Triple)
    : list MergedRow :=
  '(i, e) ← imap pair evaluation_triples;
  a ← all_triples;
  if row_eqb (key_columns side_idx e) (key_columns side_idx a)
  then [mkMergedRow i (key_columns side_idx e) (triple_column side_idx a)]
  else [].

(** [groupby(by=other)]: the groups in ascending order of their key. *)
Definition groupby_other (merged : list MergedRow) : list (list MergedRow) :=
  map (fun key => filter (fun row => row_eqb (row_other row) key = true) merged)
      (unique_rows (map row_other merged)).

(** The pool of a group: all identifiers but the entities of the side the
    group holds, repeated when it is shorter than the sample. *)
Definition group_pool (all_ids : list Z) (num_samples : nat) (group : list MergedRow)
    : Exception + list Z :=
  let answers := map row_side_all group in
  let pool := filter (fun e => e ∉ answers) all_ids in
  if (length pool <? num_samples)%nat then
    if (length pool =? 0)%nat then inl ZeroDivisionError
    else inr (list_repeat ((num_samples + length pool - 1) / length pool) pool)
  else inr pool.

(** The body of the loop over the groups. *)
Definition sample_group (all_ids : list Z) (num_samples : nat)
    (acc : Table * Entropy) (group : list MergedRow) : Exception + (Table * Entropy) :=
  try pool <- group_pool all_ids num_samples group in
  foldM (fun '(this_negatives, entropy) i =>
           try (row, entropy) <- random_sample pool num_samples entropy in
           inr (<[i := Some row]> this_negatives, entropy))
        acc (unique_first [] (map row_index_eval group)).

(** [columns] of [sample_negatives], and the position of a column. *)
Definition columns : list string := [LABEL_HEAD; LABEL_RELATION; LABEL_TAIL].

Fixpoint column_position (c : string) (cs : list string) : nat :=
  match cs with
  | [] => O
  | c' :: cs' => if String.eqb c c' then O else S (column_position c cs')
  end.

(** The body of the loop over the sides. *)
Definition sample_side (evaluation_triples all_triples : list Triple) (all_ids : list Z)
    (num_samples : nat) (acc : list (string * Table) * Entropy) (side : string)
    : Exception + (list (string * Table) * Entropy) :=
  let '(negatives, entropy) := acc in
  let side_idx := column_position side columns in
  let this_negatives : Table := replicate (length evaluation_triples) None in
  try (this_negatives, entropy) <-
    foldM (sample_group all_ids num_samples) (this_negatives, entropy)
          (groupby_other (merge_on_other side_idx evaluation_triples all_triples)) in
  inr ((negatives ++ [(side, this_negatives)])%list, entropy).

(** [int(max) + 1] over the head and tail columns; the maximum of no entry
    raises. *)
Definition max_entity_plus_one (triples : list Triple) : Exception + Z :=
  match triples with
  | [] => inl RuntimeError
  | (h, _, t) :: rest =>
      inr (foldr (fun '(h, _, t) m => Z.max h (Z.max t m)) (Z.max h t) rest + 1)%Z
  end.

(** [num_entities or (max + 1)]: the default for [None] and for [0]. *)
Definition resolve_num_entities (num_entities : option Z) (all_triples : list Triple)
    : Exception + Z :=
  match num_entities with
  | Some n => if (n =? 0)%Z then max_entity_plus_one all_triples else inr n
  | None => max_entity_plus_one all_triples
  end.

(** [sample_negatives]: the tables of the two sides, and the entropy left. *)
Definition sample_negatives (evaluation_triples : list Triple)
    (additional_filter_triples : FilterTriples) (num_samples : nat)
    (num_entities : option Z) (entropy : Entropy)
    : Exception + (list (string * Table) * Entropy) :=
  let all_triples := prepare_filter_triples evaluation_triples additional_filter_triples in
  try num_entities <- resolve_num_entities num_entities all_triples in
  let all_ids := seqZ 0 num_entities in
  foldM (sample_side evaluation_triples all_triples all_ids num_samples)
        ([], entropy) [LABEL_HEAD; LABEL_TAIL].

(** ** The sampled accumulator *)

(** What the constructor reads of a [CoreTriplesFactory]. *)
Record CoreTriplesFactory : Type := mkFactory {
  mapped_triples : list Triple;
  factory_num_entities : Z
}.

Definition num_triples (factory : CoreTriplesFactory) : nat :=
  length (mapped_triples factory).

(** A dictionary comprehension [{key: value for ...}], from its items in
    order: of the items with one key the dictionary keeps the last. *)
Definition dict_of_items {K V : Type} `{Countable K} (items : list (K * V)) : gmap K V :=
  foldl (fun d '(key, value) => <[key := value]> d) ∅ items.

Module SampledRankBasedEvaluator.

Section WithCollaborators.

Variable fns : Irrational.

Record t : Type := mk {
  base : RankBasedEvaluator.t;
  triple_to_index : gmap Triple nat;
  negative_samples : list (string * Table)
}.

(** The check of the shapes, [for side, side_negatives in negatives.items()]. *)
Definition verify_negatives (factory : CoreTriplesFactory) (negatives : list (string * Table))
    : Exception + unit :=
  foldM (fun _ '(side, side_negatives) =>
           if negb (length side_negatives =? num_triples factory)%nat
           then inl (ValueError (NegativesWrongShape side))
           else inr tt)
        tt negatives.

(** [SampledRankBasedEvaluator.__init__]; [num_negatives or 50] takes the
    default for [None] and for [0]. *)
Definition init (evaluation_factory : CoreTriplesFactory)
    (additional_filter_triples : FilterTriples) (num_negatives : option nat)
    (head_negatives tail_negatives : option Table) (ks : option (list HitsK))
    (entropy : Entropy) : Exception + t :=
  try base <- RankBasedEvaluator.init ks in
  try negatives <-
    match head_negatives, tail_negatives with
    | None, None =>
        let num_negatives :=
          match num_negatives with
          | Some (S n) => S n
          | _ => 50%nat
          end in
        if (factory_num_entities evaluation_factory <? Z.of_nat num_negatives)%Z
        then inl (ValueError TooManyNegatives)
        else
          try (negatives, _) <-
            sample_negatives (mapped_triples evaluation_factory) additional_filter_triples
                             num_negatives (Some (factory_num_entities evaluation_factory))
                             entropy in
          inr negatives
    | None, Some _ | Some _, None => inl (ValueError OneSidedNegatives)
    | Some head_negatives, Some tail_negatives =>
        inr [ (LABEL_HEAD, head_negatives); (LABEL_TAIL, tail_negatives) ]
    end in
  try _ <- verify_negatives evaluation_factory negatives in
  inr (mk (RankBasedEvaluator.mk (RankBasedEvaluator.ks base) (RankBasedEvaluator.ranks base)
                                 (Some (factory_num_entities evaluation_factory)))
          (dict_of_items (imap (fun i hrt => (hrt, i)) (mapped_triples evaluation_factory)))
          negatives).

(** [finalize] is inherited from [RankBasedEvaluator]. *)
Definition finalize (self : t) : Exception + (MetricResults * t) :=
  try (res, base) <- RankBasedEvaluator.finalize fns (base self) in
  inr (res, mk base (triple_to_index self) (negative_samples self)).

Definition observation_count (self : t) : nat :=
  RankBasedEvaluator.observation_count (base self).

End WithCollaborators.

End SampledRankBasedEvaluator.

(** ** Instances for running the model *)

(** An instance of the synonym table, for running [lookup] on examples: the
    short names best, worst, avg and average. *)
Definition example_rank_type_synonyms : list (string * string) :=
  [ ("best", RANK_OPTIMISTIC); ("worst", RANK_PESSIMISTIC);
    ("avg", RANK_REALISTIC); ("average", RANK_REALISTIC) ].

(** Stand-ins for the irrational functions, for running [finalize] on
    examples; the claims do not read the metrics they feed. *)
Definition example_fns : Irrational :=
  mkIrrational (fun _ _ => 0) (fun _ => 0).

(** A rank computation for examples: with [true_score] and the row of all
    scores, the optimistic rank counts the larger scores, the pessimistic
    rank the scores that are not smaller, the realistic rank is their mean
    and the expected realistic rank is half the number of scores plus one. *)
Definition example_ranks_from_scores : RanksFromScores :=
  fun true_scores scores =>
    let per_row (f : Q -> list Q -> Q) : list Q :=
      zip_with (fun t all => f (List.hd 0 t) all) (rows true_scores) (rows scores) in
    let optimistic t all := Qlen (filter (fun s => Qlt_bool t s = true) all) + 1 in
    let pessimistic t all := Qlen (filter (fun s => Qle_bool t s = true) all) in
    [ (RANK_OPTIMISTIC, per_row optimistic);
      (RANK_PESSIMISTIC, per_row pessimistic);
      (RANK_REALISTIC, per_row (fun t all => (optimistic t all + pessimistic t all) / 2));
      (RANK_EXPECTED_REALISTIC, per_row (fun _ all => (Qlen all + 1) / 2)) ].

(** A run of the macro accumulator: one batch of two triples for the head
    side, with three candidates each. *)
Definition example_batch : list Triple := [(0, 0, 1); (2, 0, 1)]%Z.
Definition example_scores : Tensor Q := mkTensor 3 [[3; 2; 1]; [1; 2; 3]].
Definition example_true_scores : Tensor Q := mkTensor 1 [[3]; [2]].

Definition example_macro_run : Exception + MacroRankBasedEvaluator.t :=
  try self <- MacroRankBasedEvaluator.init (Some [IntK 1]) in
  MacroRankBasedEvaluator.process_scores_ example_ranks_from_scores self
    example_batch LABEL_HEAD example_scores (Some example_true_scores).

(** The same batch given to the micro accumulator. *)
Definition example_micro_run : Exception + RankBasedEvaluator.t :=
  try self <- RankBasedEvaluator.init (Some [IntK 1]) in
  RankBasedEvaluator.process_scores_ example_ranks_from_scores self
    LABEL_HEAD example_scores (Some example_true_scores).

(** A factory of three evaluation triples over five entities. *)
Definition example_factory : CoreTriplesFactory :=
  mkFactory [(0, 0, 1); (0, 0, 2); (3, 1, 1)]%Z 5.

(** A batch of two triples scored against seven candidates, the true
    entities ranked first and third: the realistic ranks have mean 2 and the
    expected realistic ranks mean 4. *)
Definition example_scores_of_seven : Tensor Q :=
  mkTensor 7 [[7; 6; 5; 4; 3; 2; 1]; [7; 6; 5; 4; 3; 2; 1]].
Definition example_true_scores_of_seven : Tensor Q := mkTensor 1 [[7]; [5]].

Definition example_adjusted_run : Exception + RankBasedEvaluator.t :=
  try self <- RankBasedEvaluator.init (Some [IntK 1]) in
  RankBasedEvaluator.process_scores_ example_ranks_from_scores self
    LABEL_HEAD example_scores_of_seven (Some example_true_scores_of_seven).

(** A run of the macro accumulator with keys of unequal size: one batch of
    five triples for the head side, three of them of one key and the other
    two of a key each, scored against four candidates.  The ranks are 1, 2
    and 3 for the first key, and 4 and 2 for the other two. *)
Definition example_skewed_batch : list Triple :=
  [(0, 0, 1); (2, 0, 1); (3, 0, 1); (0, 1, 1); (0, 2, 1)]%Z.
Definition example_skewed_scores : Tensor Q :=
  mkTensor 4 [[4; 3; 2; 1]; [4; 3; 2; 1]; [4; 3; 2; 1]; [4; 3; 2; 1]; [4; 3; 2; 1]].
Definition example_skewed_true_scores : Tensor Q := mkTensor 1 [[4]; [3]; [2]; [1]; [3]].

Definition example_skewed_run : Exception + MacroRankBasedEvaluator.t :=
  try self <- MacroRankBasedEvaluator.init (Some [IntK 1]) in
  MacroRankBasedEvaluator.process_scores_ example_ranks_from_scores self
    example_skewed_batch LABEL_HEAD example_skewed_scores (Some example_skewed_true_scores).

(** ** The grammar of metric specifications, as the specification words it *)

(** The grammar [name[.side][.rank_type][.k]] read on the whole string,
    with every way of splitting it tried: [name] is a run of word or [@]
    characters, [side] one of [SIDES], [rank_type] a base rank type or a
    synonym, [k] a run of digits.  This reading does not follow the code. *)

(** What may follow a non-empty run of characters satisfying [p] at the
    start of [s]. *)
Fixpoint tails_after_run (p : ascii -> bool) (s : string) : list string :=
  match s with
  | EmptyString => []
  | String c s' => if p c then s' :: tails_after_run p s' else []
  end.

(** What may follow an optional component [.x] with [x] among [alts]. *)
Definition tails_after_optional (alts : list string) (s : string) : list string :=
  s :: match s with
       | String "." s' => omap (fun a => strip_prefix a s') alts
       | _ => []
       end.

(** What may follow an optional component [.k] with [k] a run of digits. *)
Definition tails_after_optional_digits (s : string) : list string :=
  s :: match s with
       | String "." s' => tails_after_run is_digit s'
       | _ => []
       end.

Definition grammar_fullmatch (synonyms : list (string * string)) (s : string) : bool :=
  existsb (fun s1 =>
    existsb (fun s2 =>
      existsb (fun s3 =>
        existsb (String.eqb "") (tails_after_optional_digits s3))
        (tails_after_optional (MetricKey.TYPE_ALTERNATIVES synonyms) s2))
      (tails_after_optional SIDES s1))
    (tails_after_run is_name_char s).

(** Whether a string begins with a character of a name. *)
Definition starts_with_name (s : string) : bool :=
  match s with
  | EmptyString => false
  | String c _ => is_name_char c
  end.

(** Whether every character of a string satisfies [p]. *)
Fixpoint str_forallb (p : ascii -> bool) (s : string) : bool :=
  match s with
  | EmptyString => true
  | String c s' => p c && str_forallb p s'
  end.

(** A character of ASCII.  On ASCII text the classes [\w] and [\d] and
    [str.lower] of the source are the ones of this development. *)
Definition is_ascii (c : ascii) : bool := (nat_of_ascii c <? 128)%nat.


(** ** Tables of negatives that avoid the known answers *)

(** Every evaluation triple has a row of [num_samples] identifiers below
    [num_entities], none of them an entity that a known triple with the same
    grouping key holds on the side, the entity of the triple itself among
    them.  [side_idx] is the column of the side. *)
Definition negatives_avoid_known (side_idx : nat) (evaluation_triples known_triples : list Triple)
    (num_samples : nat) (num_entities : Z) (table : Table) : Prop :=
  length table = length evaluation_triples
  /\ forall i hrt,
       evaluation_triples !! i = Some hrt ->
       exists row,
         table !! i = Some (Some row)
         /\ length row = num_samples
         /\ forall x, x ∈ row ->
              (0 <= x < num_entities)%Z
              /\ x <> triple_column side_idx hrt
              /\ forall known,
                   known ∈ known_triples ->
                   key_columns side_idx known = key_columns side_idx hrt ->
                   x <> triple_column side_idx known.

(** ** The validation of the constructor of the sampled accumulator *)

(** The number of negatives the constructor samples: the one asked for, or
    50 when none or zero is asked for. *)
Definition requested_negatives (num_negatives : option nat) : nat :=
  match num_negatives with
  | Some (S n) => S n
  | _ => 50%nat
  end.

(** Whether some relative [k] among [ks] lies outside the open interval
    from 0 to 1. *)
Definition relative_k_out_of_range (ks : option (list HitsK)) : bool :=
  existsb (fun k => match k with
                    | FloatK k => negb (Qlt_bool 0 k && Qlt_bool k 1)
                    | IntK _ => false
                    end)
          (match ks with Some ks => ks | None => [IntK 1; IntK 3; IntK 5; IntK 10] end).

(** The cases in which the construction is refused as invalid, and the
    error of each: a relative [k] out of range; negatives given for one
    side only; a table given with a number of rows other than the number of
    evaluation triples; more negatives to sample than there are
    entities. *)
Definition constructor_validation (factory : CoreTriplesFactory)
    (num_negatives : option nat) (head_negatives tail_negatives : option Table)
    (ks : option (list HitsK)) : option ValueErrorSite :=
  if relative_k_out_of_range ks then Some RelativeKOutOfRange
  else
    match head_negatives, tail_negatives with
    | None, None =>
        if (factory_num_entities factory <? Z.of_nat (requested_negatives num_negatives))%Z
        then Some TooManyNegatives
        else None
    | Some head_negatives, Some tail_negatives =>
        if negb (length head_negatives =? num_triples factory)%nat
        then Some (NegativesWrongShape LABEL_HEAD)
        else if negb (length tail_negatives =? num_triples factory)%nat
        then Some (NegativesWrongShape LABEL_TAIL)
        else None
    | _, _ => Some OneSidedNegatives
    end.

(** ** Per-key views of the macro aggregation *)

(** The entries of [xs] at the positions where [keys] holds [key]. *)
Definition values_of_key (key : Z * Z) (keys : list (Z * Z)) (xs : list Q) : list Q :=
  map snd (filter (fun p : (Z * Z) * Q => row_eqb key p.1 = true) (zip keys xs)).

(** The simple average over the distinct keys of the mean of the values of
    each key. *)
Definition average_of_key_means (keys : list (Z * Z)) (xs : list Q) : Q :=
  Qsum (map (fun key => np_mean (values_of_key key keys xs)) (unique_rows keys))
  / Qlen (unique_rows keys).

(** ** Spellings of hits at k *)

(** The three prefixes of [HITS_PATTERN], which a number follows. *)
Definition HITS_PREFIXES : list string := ["hits_at_"; "hits@"; "h@"].

(** A text of [n] times the character [c]. *)
Fixpoint str_repeat (c : ascii) (n : nat) : string :=
  match n with
  | O => EmptyString
  | S n' => String c (str_repeat c n')
  end.

(** ** [RankBasedMetricResults]: reading a metric back *)

(** [s.startswith(prefix)]. *)
Definition str_startswith (prefix s : string) : bool :=
  match strip_prefix prefix s with
  | Some _ => true
  | None => false
  end.

(** Equality of an [int] with a key of the dictionary of hits at k: Python
    compares an [int] and a [float] by value. *)
Definition hits_key_eqb (k : Z) (key : HitsK) : bool :=
  match key with
  | IntK k' => Z.eqb k k'
  | FloatK q => Qeq_bool (inject_Z k) q
  end.

(** [d.get(k)] on the dictionary of hits at k given by the items of its
    comprehension: of two items with equal keys the later one stays. *)
Fixpoint hits_get (d : list (HitsK * Q)) (k : Z) : option Q :=
  match d with
  | [] => None
  | (key, v) :: d' =>
      match hits_get d' k with
      | Some v' => Some v'
      | None => if hits_key_eqb k key then Some v else None
      end
  end.

(** What [get_metric] raises: an exception of [MetricKey.lookup], or one of
    the reading. *)
Inductive GetMetricError : Type :=
| LookupFailed (e : LookupError)
| Raised (e : Exception).

Module RankBasedMetricResults.

(** [RankBasedMetricResults._get_metric]; a missing entry at any level of
    the nested dictionaries is a [KeyError]. *)
Definition _get_metric (self : MetricResults) (metric_key : MetricKey.t) : Exception + Value :=
  if negb (str_startswith "hits" (MetricKey.name metric_key)) then
    match data self !! (MetricKey.name metric_key, MetricKey.side metric_key,
                        MetricKey.rank_type metric_key) with
    | Some v => inr v
    | None => inl KeyError
    end
  else
    match MetricKey.k metric_key with
    | None => inl AssertionError
    | Some k =>
        match hits_at_k self !! (MetricKey.side metric_key, MetricKey.rank_type metric_key) with
        | None => inl KeyError
        | Some d =>
            match hits_get d k with
            | Some v => inr (Num v)
            | None => inl KeyError
            end
        end
    end.

Section WithRankTypeSynonyms.

Variable RANK_TYPE_SYNONYMS : list (string * string).

(** [RankBasedMetricResults.get_metric]. *)
Definition get_metric (self : MetricResults) (name : string) : GetMetricError + Value :=
  match MetricKey.lookup RANK_TYPE_SYNONYMS name with
  | inl e => inl (LookupFailed e)
  | inr metric_key =>
      match _get_metric self metric_key with
      | inl e => inl (Raised e)
      | inr v => inr v
      end
  end.

End WithRankTypeSynonyms.

End RankBasedMetricResults.

(** ** [RANKING_METRICS]: the annotations of the metrics *)

(** [ValueRange(lower, upper, lower_inclusive, upper_inclusive)], with the
    arguments each annotation gives; a bound left out is [None]. *)
Record ValueRange : Type := mkValueRange {
  lower : option Q;
  upper : option Q;
  lower_inclusive : bool;
  upper_inclusive : bool
}.

(** [MetricAnnotation]: the displayed name, whether larger is better, and
    the range of the values; the description and the link are left out. *)
Record MetricAnnotation : Type := mkMetricAnnotation {
  annotation_name : string;
  increasing : bool;
  value_range : ValueRange
}.

(** The range of the four reciprocal metrics. *)
Definition unit_range_open_below : ValueRange :=
  mkValueRange (Some 0) (Some 1) false true.

(** [RANKING_METRICS], in the order of the dictionary.  An inclusiveness
    flag the source leaves out belongs to a bound that is absent, and is
    written [false]. *)
Definition RANKING_METRICS : list (string * MetricAnnotation) :=
  [ (ARITHMETIC_MEAN_RANK,
     mkMetricAnnotation "Mean Rank (MR)" false (mkValueRange (Some 1) None true false));
    (GEOMETRIC_MEAN_RANK,
     mkMetricAnnotation "Geometric Mean Rank (GMR)" false (mkValueRange (Some 1) None true false));
    (MEDIAN_RANK,
     mkMetricAnnotation "Median Rank" false (mkValueRange (Some 1) None true false));
    (HARMONIC_MEAN_RANK,
     mkMetricAnnotation "Harmonic Mean Rank (HMR)" false (mkValueRange (Some 1) None true false));
    (INVERSE_ARITHMETIC_MEAN_RANK,
     mkMetricAnnotation "Inverse Arithmetic Mean Rank (IAMR)" true unit_range_open_below);
    (INVERSE_GEOMETRIC_MEAN_RANK,
     mkMetricAnnotation "Inverse Geometric Mean Rank (IGMR)" true unit_range_open_below);
    (INVERSE_HARMONIC_MEAN_RANK,
     mkMetricAnnotation "Mean Reciprocal Rank (MRR)" true unit_range_open_below);
    (INVERSE_MEDIAN_RANK,
     mkMetricAnnotation "Inverse Median Rank" true unit_range_open_below);
    (RANK_COUNT,
     mkMetricAnnotation "Rank Count" true (mkValueRange (Some 1) None true false));
    (RANK_STD,
     mkMetricAnnotation "Rank Standard Deviation" false (mkValueRange (Some 0) None true false));
    (RANK_VARIANCE,
     mkMetricAnnotation "Rank Variance" false (mkValueRange (Some 0) None true false));
    (RANK_MAD,
     mkMetricAnnotation "Rank Median Absolute Deviation" false
       (mkValueRange (Some 0) None true false));
    (HITS_AT_K,
     mkMetricAnnotation "Hits @ K" true (mkValueRange (Some 0) (Some 1) true true));
    (ADJUSTED_ARITHMETIC_MEAN_RANK,
     mkMetricAnnotation "Adjusted Arithmetic Mean Rank (AAMR)" false
       (mkValueRange (Some 0) (Some 2) false false));
    (ADJUSTED_ARITHMETIC_MEAN_RANK_INDEX,
     mkMetricAnnotation "Adjusted Arithmetic Mean Rank Index (AAMRI)" true
       (mkValueRange (Some (-1)) (Some 1) true true)) ].

(** Modelled from the spec: [ValueRange] of [pykeen.evaluation.utils] is not
    among the sources.  A value lies in a range when it is not below the
    lower bound and not above the upper bound, and differs from a bound that
    is not inclusive. *)
Definition in_value_range (r : ValueRange) (x : Q) : Prop :=
  match lower r with
  | Some l => if lower_inclusive r then l <= x else l < x
  | None => True
  end
  /\ match upper r with
     | Some u => if upper_inclusive r then x <= u else x < u
     | None => True
     end.

(** The metrics of the registry whose values are rational in the model: all
    but the geometric mean, its reciprocal and the standard deviation. *)
Definition RATIONAL_METRICS : list string :=
  [ ARITHMETIC_MEAN_RANK; HARMONIC_MEAN_RANK; MEDIAN_RANK;
    INVERSE_ARITHMETIC_MEAN_RANK; INVERSE_HARMONIC_MEAN_RANK; INVERSE_MEDIAN_RANK;
    RANK_VARIANCE; RANK_MAD; RANK_COUNT ].

(** ** Views for stating properties of the accumulators *)

(** A list in ascending order of [key]: the head is not above what
    follows. *)
Fixpoint ascending_by {A : Type} (key : A -> Q) (xs : list A) : Prop :=
  match xs with
  | [] => True
  | x :: xs' => (forall y, y ∈ xs' -> key x <= key y) /\ ascending_by key xs'
  end.

(** The ranks a batch adds for a rank type: the lists of the items of
    [batch_ranks] with this rank type, in order. *)
Definition batch_ranks_of (batch_ranks : list (string * list Q)) (rank_type : string) : list Q :=
  concat (map snd (filter (fun item : string * list Q => item.1 = rank_type) batch_ranks)).

(** Hits at k as the loops of [finalize] compute it: the fraction of the
    ranks that are not above the bound of [k]. *)
Definition hits_fraction (num_entities : Z) (ranks : list Q) (k : HitsK) : Q :=
  np_mean_bool (map (fun r => Qle_bool r (inject_Z (hits_threshold num_entities k))) ranks).

(** The keys and the ranks of the macro accumulator are aligned when, for
    the head and the tail side and every base rank type, there are as many
    ranks as keys. *)
Definition aligned (self : MacroRankBasedEvaluator.t) : Prop :=
  forall side rank_type,
    side ∈ [LABEL_HEAD; LABEL_TAIL] -> rank_type ∈ RANK_TYPES ->
    length (default [] (RankBasedEvaluator.ranks (MacroRankBasedEvaluator.base self)
                          !! (side, rank_type)))
    = length (default [] (MacroRankBasedEvaluator.keys self !! side)).

(** An evaluation triple has no negative candidate on a side when every
    identifier below [num_entities] is the entity that a known triple with
    the grouping key of the triple holds on the side.  [side_idx] is the
    column of the side. *)
Definition no_candidate (side_idx : nat) (known_triples : list Triple) (num_entities : Z)
    (hrt : Triple) : Prop :=
  forall x, (0 <= x < num_entities)%Z ->
    exists known,
      known ∈ known_triples
      /\ key_columns side_idx known = key_columns side_idx hrt
      /\ x = triple_column side_idx known.

(** ** Views of the macro [finalize] *)

(** The keys [_get_keys] yields for a side: the keys of the head side before
    the ones of the tail side for both. *)
Definition macro_side_keys (keys : gmap string (list (Z * Z))) (side : string) : list (Z * Z) :=
  if String.eqb side SIDE_BOTH
  then (default [] (keys !! LABEL_HEAD) ++ default [] (keys !! LABEL_TAIL))%list
  else default [] (keys !! side).

(** The weights of the observations of a side: for each one the reciprocal of
    the number of observations that share its key. *)
Definition key_weights (keys : list (Z * Z)) : list Q :=
  map (fun key => / inject_Z (Z.of_nat (count_row key keys))) keys.

(** Hits at k of the macro [finalize]: the weighted fraction of the ranks
    that are not above the bound of [k]. *)
Definition weighted_hits_fraction (num_entities : Z) (ranks weights : list Q) (k : HitsK) : Q :=
  Qsum (zip_with Qmult
          (map (fun r => if Qle_bool r (inject_Z (hits_threshold num_entities k)) then 1 else 0)
               ranks)
          weights)
  / Qsum weights.

(** * Properties of the metric keys *)

Section MetricKeyFacts.

Variable synonyms : list (string * string).

Lemma str_in_In (x : string) (xs : list string) :
  str_in x xs = true -> In x xs.
Proof.
  unfold str_in. rewrite existsb_exists.
  intros (y & Hy & Heq). apply String.eqb_eq in Heq. now subst.
Qed.

Lemma take_while_forall (p : ascii -> bool) (s run rest : string) :
  take_while p s = (run, rest) -> str_forallb p run = true.
Proof.
  revert run rest. induction s as [|c s IH]; intros run rest; simpl.
  - intros [= <- <-]. reflexivity.
  - destruct (p c) eqn:Hc.
    + destruct (take_while p s) as [run' rest'] eqn:E.
      intros [= <- <-]. simpl. rewrite Hc. simpl. eapply IH. reflexivity.
    + intros [= <- <-]. reflexivity.
Qed.

Lemma take_while_empty (p : ascii -> bool) (s rest : string) :
  take_while p s = (EmptyString, rest) ->
  rest = s /\ match s with EmptyString => True | String c _ => p c = false end.
Proof.
  destruct s as [|c s]; simpl.
  - intros [= <-]. auto.
  - destruct (p c) eqn:Hc.
    + destruct (take_while p s). discriminate.
    + intros [= <-]. auto.
Qed.

Lemma match_alternatives_In (alts : list string) (s a rest : string) :
  match_alternatives alts s = Some (a, rest) -> In a alts.
Proof.
  induction alts as [|b alts IH]; simpl; [discriminate|].
  destruct (strip_prefix b s).
  - intros [= <- <-]. now left.
  - intros H. right. auto.
Qed.

Lemma match_dot_alternatives_In (alts : list string) (s a rest : string) :
  match_dot_alternatives alts s = (Some a, rest) -> In a alts.
Proof.
  unfold match_dot_alternatives.
  destruct s as [|c s]; [discriminate|].
  destruct (Ascii.eqb_spec c "."%char) as [->|Hne].
  - destruct (match_alternatives alts s) as [[b r]|] eqn:E; [|discriminate].
    intros [= <- <-]. eapply match_alternatives_In; eauto.
  - destruct c as [[] [] [] [] [] [] [] []]; try discriminate. now destruct Hne.
Qed.

Lemma match_dot_digits_Some (s digits rest : string) :
  match_dot_digits s = (Some digits, rest) ->
  digits <> EmptyString /\ str_forallb is_digit digits = true.
Proof.
  unfold match_dot_digits.
  destruct s as [|c s]; [discriminate|].
  destruct (Ascii.eqb_spec c "."%char) as [->|Hne].
  - destruct (take_while is_digit s) as [run r] eqn:E.
    destruct run as [|d run]; [discriminate|].
    intros [= <- <-]. split; [discriminate|].
    eapply take_while_forall; eauto.
  - destruct c as [[] [] [] [] [] [] [] []]; try discriminate. now destruct Hne.
Qed.

Lemma digits_value_nonneg (s : string) :
  str_forallb is_digit s = true ->
  forall acc, (0 <= acc)%Z -> exists z, digits_value acc s = Some z /\ (0 <= z)%Z.
Proof.
  induction s as [|c s IH]; simpl; intros Hd acc Hacc.
  - eauto.
  - apply andb_prop in Hd as [Hc Hs]. rewrite Hc.
    apply IH; [assumption|]. lia.
Qed.

Lemma py_int_digits (s : string) :
  s <> EmptyString -> str_forallb is_digit s = true ->
  if (String.length s <=? int_max_str_digits)%nat
  then exists z, py_int s = Some z /\ (0 <= z)%Z
  else py_int s = None.
Proof.
  intros Hne Hd. unfold py_int. destruct s as [|c s]; [congruence|].
  destruct (String.length (String c s) <=? int_max_str_digits)%nat; [|reflexivity].
  apply digits_value_nonneg; [assumption|lia].
Qed.

Lemma HITS_PATTERN_match_Some (name digits : string) :
  HITS_PATTERN_match name = Some digits ->
  digits <> EmptyString /\ str_forallb is_digit digits = true.
Proof.
  unfold HITS_PATTERN_match.
  destruct (match_alternatives _ name) as [[a rest]|]; [|discriminate].
  destruct (take_while is_digit rest) as [run r] eqn:E.
  destruct run as [|d run]; [discriminate|].
  intros [= <-]. split; [discriminate|]. eapply take_while_forall; eauto.
Qed.

(** What a successful match of [METRIC_PATTERN] captures. *)
Lemma METRIC_PATTERN_match_Some (s : string) (m : MetricMatch) :
  MetricKey.METRIC_PATTERN_match synonyms s = Some m ->
  group_name m <> EmptyString
  /\ (forall x, group_side m = Some x -> In x SIDES)
  /\ (forall x, group_type m = Some x -> In x (MetricKey.TYPE_ALTERNATIVES synonyms))
  /\ (forall x, group_k m = Some x -> x <> EmptyString /\ str_forallb is_digit x = true).
Proof.
  unfold MetricKey.METRIC_PATTERN_match.
  destruct (take_while is_name_char s) as [name s1] eqn:E1.
  destruct name as [|c name]; [discriminate|].
  destruct (match_dot_alternatives SIDES s1) as [side s2] eqn:E2.
  destruct (match_dot_alternatives _ s2) as [ty s3] eqn:E3.
  destruct (match_dot_digits s3) as [k s4] eqn:E4.
  intros [= <-]. cbn [group_name group_side group_type group_k].
  split; [discriminate|]. split; [|split].
  - intros x ->. eapply match_dot_alternatives_In; eauto.
  - intros x ->. eapply match_dot_alternatives_In; eauto.
  - intros x ->. eapply match_dot_digits_Some; eauto.
Qed.


Lemma dict_get_In {V : Type} (d : list (string * V)) (key : string) (v : V) :
  dict_get d key = Some v -> In (key, v) d.
Proof.
  induction d as [|[k w] d IH]; simpl; [discriminate|].
  destruct (String.eqb_spec k key) as [->|_].
  - intros [= ->]. now left.
  - intros H. right. auto.
Qed.

Lemma dict_get_METRIC_SYNONYMS_hits (name : string) :
  dict_get_default METRIC_SYNONYMS name name = HITS_AT_K <-> name = HITS_AT_K.
Proof.
  unfold dict_get_default.
  destruct (dict_get METRIC_SYNONYMS name) as [v|] eqn:E; [|tauto].
  split.
  - intros ->. apply dict_get_In in E.
    unfold METRIC_SYNONYMS in E. simpl in E.
    repeat (destruct E as [E|E]; [discriminate E|]). destruct E.
  - intros ->. discriminate E.
Qed.

Lemma resolve_hits_k_digits (text : string) :
  text <> EmptyString -> str_forallb is_digit text = true ->
  if (String.length text <=? int_max_str_digits)%nat
  then exists z, MetricKey.resolve_hits_k (KStr text) = inr (KInt z) /\ (0 <= z)%Z
                 /\ py_int text = Some z
  else MetricKey.resolve_hits_k (KStr text) = inl (InvalidK text).
Proof.
  intros Hne Hd. pose proof (py_int_digits text Hne Hd) as Hint.
  destruct (String.length text <=? int_max_str_digits)%nat.
  - destruct Hint as (z & Hz & Hpos).
    exists z. unfold MetricKey.resolve_hits_k. rewrite Hz. cbn.
    destruct (Z.ltb_spec z 0) as [?|_]; [lia|]. auto.
  - unfold MetricKey.resolve_hits_k. rewrite Hint. reflexivity.
Qed.

(** The name block yields [k] exactly for hits at k.  It fails the
    assertion on [k] when a [k] is given to another name, and raises the
    error of an invalid [k] when the number of hits at k has more digits than
    [int] accepts; it raises none of the errors of the other blocks. *)
Lemma resolve_name_inv (m : MetricMatch) :
  group_name m <> EmptyString ->
  (forall x, group_k m = Some x -> x <> EmptyString /\ str_forallb is_digit x = true) ->
  match MetricKey.resolve_name m with
  | inr (name, k) =>
      (is_Some k <-> name = HITS_AT_K)
      /\ (forall z, k = Some z -> (0 <= z)%Z)
  | inl e =>
      (e = KNotAnInteger
       /\ group_k m <> None
       /\ HITS_PATTERN_match (str_replace_char " " "_" (str_lower (group_name m))) = None
       /\ str_replace_char " " "_" (str_lower (group_name m)) <> HITS_AT_K)
      \/ (exists text,
            e = InvalidK text
            /\ (int_max_str_digits < String.length text)%nat
            /\ (HITS_PATTERN_match (str_replace_char " " "_" (str_lower (group_name m)))
                = Some text
                \/ (str_replace_char " " "_" (str_lower (group_name m)) = HITS_AT_K
                    /\ group_k m = Some text)))
  end.
Proof.
  intros Hname Hk. unfold MetricKey.resolve_name.
  destruct (String.eqb_spec (group_name m) "") as [Heq|_]; [contradiction|].
  set (name := str_replace_char " " "_" (str_lower (group_name m))).
  assert (Hhits_k : forall text,
            text <> EmptyString -> str_forallb is_digit text = true ->
            match
              try k <- MetricKey.resolve_hits_k (KStr text) in
              try k <- match k with
                       | KNone => inr None
                       | KInt z => inr (Some z)
                       | KStr _ => inl KNotAnInteger
                       end in
              inr (dict_get_default METRIC_SYNONYMS HITS_AT_K HITS_AT_K, k)
            with
            | inr (name', k) =>
                (is_Some k <-> name' = HITS_AT_K) /\ (forall z, k = Some z -> (0 <= z)%Z)
            | inl e => e = InvalidK text /\ (int_max_str_digits < String.length text)%nat
            end).
  { intros text Hne Hd. pose proof (resolve_hits_k_digits text Hne Hd) as Hr.
    destruct (Nat.leb_spec (String.length text) int_max_str_digits) as [Hle|Hgt].
    - destruct Hr as (z & -> & Hpos & _). cbn.
      split; [split; [reflexivity|eauto]|]. intros ? [= <-]. assumption.
    - rewrite Hr. cbn. split; [reflexivity|assumption]. }
  destruct (HITS_PATTERN_match name) as [text|] eqn:Hhits.
  - pose proof Hhits as Hmatch.
    apply HITS_PATTERN_match_Some in Hhits as [Hne Hd].
    specialize (Hhits_k text Hne Hd). cbn [String.eqb] in *.
    change (String.eqb HITS_AT_K HITS_AT_K) with true. cbv iota.
    destruct (try k <- MetricKey.resolve_hits_k (KStr text) in _) as [e|[name' k]];
      [|exact Hhits_k].
    destruct Hhits_k as [-> Hlen]. right. exists text. auto.
  - destruct (String.eqb_spec name HITS_AT_K) as [Hn|Hn].
    + rewrite Hn.
      destruct (group_k m) as [text|] eqn:Hgk.
      * destruct (Hk text eq_refl) as [Hne Hd].
        specialize (Hhits_k text Hne Hd).
        destruct (try k <- MetricKey.resolve_hits_k (KStr text) in _) as [e|[name' k]];
          [|exact Hhits_k].
        destruct Hhits_k as [-> Hlen]. right. exists text. auto.
      * cbn. split; [split; [reflexivity|eauto]|]. intros ? [= <-]. lia.
    + destruct (group_k m) as [text|] eqn:Hgk; cbn.
      * left. repeat split; congruence.
      * split; [|discriminate].
        rewrite dict_get_METRIC_SYNONYMS_hits.
        split; [intros [? [=]]|contradiction].
Qed.

(** The side block never fails on what the pattern captures. *)
Lemma resolve_side_ok (m : MetricMatch) :
  (forall x, group_side m = Some x -> In x SIDES) ->
  exists side, MetricKey.resolve_side m = inr side /\ In side SIDES.
Proof.
  intros Hside. unfold MetricKey.resolve_side.
  destruct (group_side m) as [x|].
  - specialize (Hside x eq_refl). simpl in Hside.
    destruct Hside as [<-|[<-|[<-|[]]]];
      (eexists; split; [reflexivity|simpl; tauto]).
  - eexists; split; [reflexivity|simpl; tauto].
Qed.

Lemma resolve_side_inr (m : MetricMatch) (side : string) :
  MetricKey.resolve_side m = inr side -> In side SIDES.
Proof.
  unfold MetricKey.resolve_side.
  destruct (str_in _ SIDES) eqn:E; [|discriminate].
  intros [= <-]. now apply str_in_In.
Qed.

Lemma resolve_rank_type_inr (name : string) (m : MetricMatch) (rank_type : string) :
  MetricKey.resolve_rank_type synonyms name m = inr rank_type ->
  In rank_type RANK_TYPES.
Proof.
  unfold MetricKey.resolve_rank_type.
  destruct (str_in _ RANK_TYPES) eqn:E; [|discriminate].
  cbn [negb].
  destruct (negb _ && _); [discriminate|].
  intros [= <-]. now apply str_in_In.
Qed.


End MetricKeyFacts.

(** C9.  Every key that [MetricKey.lookup] returns has [k] present exactly
    when its name is [hits_at_k], a side among head, tail and both, and a
    rank type among optimistic, pessimistic, realistic and expected
    realistic. *)
Theorem lookup_key_invariant (synonyms : list (string * string)) (s : string)
    (key : MetricKey.t) :
  MetricKey.lookup synonyms s = inr key ->
  (MetricKey.k key <> None <-> MetricKey.name key = HITS_AT_K)
  /\ In (MetricKey.side key) SIDES
  /\ In (MetricKey.rank_type key) EXTENDED_RANK_TYPES.
Proof.
  unfold MetricKey.lookup.
  destruct (MetricKey.METRIC_PATTERN_match synonyms s) as [m|] eqn:Hm; [|discriminate].
  apply METRIC_PATTERN_match_Some in Hm as (Hname & Hside & Htype & Hk).
  pose proof (resolve_name_inv m Hname Hk) as Hn.
  destruct (MetricKey.resolve_name m) as [e|[name k]]; [discriminate|].
  destruct Hn as [Hiff _]. cbn [bind].
  destruct (MetricKey.resolve_side m) as [e|side] eqn:Es; [discriminate|].
  cbn [bind].
  destruct (MetricKey.resolve_rank_type synonyms name m) as [e|rank_type] eqn:Er;
    [discriminate|].
  cbn [bind]. intros [= <-].
  cbn [MetricKey.k MetricKey.name MetricKey.side MetricKey.rank_type].
  split; [|split].
  - rewrite <- Hiff. split.
    + destruct k; [eauto|congruence].
    + intros [z ->]. discriminate.
  - eapply resolve_side_inr; eauto.
  - unfold EXTENDED_RANK_TYPES. apply in_or_app. left.
    eapply resolve_rank_type_inr; eauto.
Qed.

Lemma lookup_key_invariant_witness :
  MetricKey.lookup example_rank_type_synonyms "hits@5.tail.worst"
  = inr (MetricKey.mk HITS_AT_K LABEL_TAIL RANK_PESSIMISTIC (Some 5%Z))
  /\ ((Some 5%Z <> None <-> HITS_AT_K = HITS_AT_K)
      /\ In LABEL_TAIL SIDES
      /\ In RANK_PESSIMISTIC EXTENDED_RANK_TYPES).
Proof.
  split; [reflexivity|].
  apply (lookup_key_invariant example_rank_type_synonyms "hits@5.tail.worst"
           (MetricKey.mk HITS_AT_K LABEL_TAIL RANK_PESSIMISTIC (Some 5%Z))).
  reflexivity.
Defined.






(** The match is anchored at the start of the string only: text after the
    matched prefix is not read, and a string outside the grammar yields a
    key. *)
Example lookup_ignores_trailing_text :
  grammar_fullmatch example_rank_type_synonyms "mrr.foo" = false
  /\ MetricKey.lookup example_rank_type_synonyms "mrr.foo"
     = inr (MetricKey.mk INVERSE_HARMONIC_MEAN_RANK SIDE_BOTH RANK_REALISTIC None).
Proof. split; reflexivity. Qed.

(** C2.  With [k = 0] the canonical string loses its [k], and normalizing
    it again gives the default [k = 10]: [normalize] is not idempotent on
    the valid specification [hits@0]. *)
Theorem normalize_zero_k (synonyms : list (string * string)) :
  dict_get synonyms RANK_REALISTIC = None ->
  MetricKey.lookup synonyms "hits@0"
  = inr (MetricKey.mk HITS_AT_K SIDE_BOTH RANK_REALISTIC (Some 0%Z))
  /\ MetricKey.normalize synonyms "hits@0" = inr "hits_at_k.both.realistic"
  /\ MetricKey.normalize synonyms "hits_at_k.both.realistic"
     = inr "hits_at_k.both.realistic.10".
Proof.
  intros Hreal.
  assert (Hrt : forall name m, group_type m = None \/ group_type m = Some RANK_REALISTIC ->
            str_in name TYPES_REALISTIC_ONLY = false ->
            MetricKey.resolve_rank_type synonyms name m = inr RANK_REALISTIC).
  { intros name m Hm Hn. unfold MetricKey.resolve_rank_type.
    replace (str_lower match group_type m with Some x => x | None => RANK_REALISTIC end)
      with RANK_REALISTIC by (destruct Hm as [-> | ->]; reflexivity).
    unfold dict_get_default. rewrite Hreal. reflexivity. }
  assert (Hlookup : forall s m name k,
            MetricKey.METRIC_PATTERN_match synonyms s = Some m ->
            MetricKey.resolve_name m = inr (name, k) ->
            MetricKey.resolve_side m = inr SIDE_BOTH ->
            group_type m = None \/ group_type m = Some RANK_REALISTIC ->
            str_in name TYPES_REALISTIC_ONLY = false ->
            MetricKey.lookup synonyms s
            = inr (MetricKey.mk name SIDE_BOTH RANK_REALISTIC k)).
  { intros s m name k Hm Hn Hs Ht Hin. unfold MetricKey.lookup.
    rewrite Hm, Hn. cbn [bind]. rewrite Hs. cbn [bind].
    rewrite (Hrt name m Ht Hin). reflexivity. }
  assert (H1 : MetricKey.lookup synonyms "hits@0"
               = inr (MetricKey.mk HITS_AT_K SIDE_BOTH RANK_REALISTIC (Some 0%Z))).
  { apply (Hlookup _ (mkMetricMatch "hits@0" None None None ""));
      solve [reflexivity | left; reflexivity]. }
  assert (H2 : MetricKey.lookup synonyms "hits_at_k.both.realistic"
               = inr (MetricKey.mk HITS_AT_K SIDE_BOTH RANK_REALISTIC (Some 10%Z))).
  { apply (Hlookup _ (mkMetricMatch "hits_at_k" (Some SIDE_BOTH) (Some RANK_REALISTIC) None ""));
      solve [reflexivity | right; reflexivity]. }
  split; [exact H1|]. split.
  - unfold MetricKey.normalize. rewrite H1. reflexivity.
  - unfold MetricKey.normalize. rewrite H2. reflexivity.
Qed.

Lemma normalize_zero_k_witness :
  dict_get example_rank_type_synonyms RANK_REALISTIC = None
  /\ MetricKey.lookup example_rank_type_synonyms "hits@0"
     = inr (MetricKey.mk HITS_AT_K SIDE_BOTH RANK_REALISTIC (Some 0%Z))
  /\ MetricKey.normalize example_rank_type_synonyms "hits@0"
     = inr "hits_at_k.both.realistic"
  /\ MetricKey.normalize example_rank_type_synonyms "hits_at_k.both.realistic"
     = inr "hits_at_k.both.realistic.10".
Proof.
  split; [reflexivity|].
  apply (normalize_zero_k example_rank_type_synonyms). reflexivity.
Defined.

(** * Properties of the weighted statistics *)

Lemma np_take_In {A : Type} (a : list A) (indices : list nat) (xs : list A) :
  np_take a indices = inr xs -> forall x, In x xs -> In x a.
Proof.
  revert xs. induction indices as [|i indices IH]; simpl; intros xs.
  - intros [= <-] x [].
  - destruct (a !! i) as [y|] eqn:Hy; [|discriminate].
    destruct (np_take a indices) as [e|ys]; [discriminate|].
    cbn [bind]. intros [= <-] x [<-|Hx].
    + apply list_elem_of_In. eapply list_elem_of_lookup_2; eauto.
    + eapply IH; eauto.
Qed.

(** Whenever [weighted_median] returns, it returns one of the given values:
    the entry of the sorted values at a position found from the cumulative
    weights, never a value between two entries. *)
Lemma weighted_median_is_an_entry (a weights : list Q) (v : Q) :
  weighted_median a weights = inr v -> In v a.
Proof.
  unfold weighted_median.
  destruct (np_take a (np_argsort a)) as [e|s_ranks] eqn:Hr; [discriminate|].
  cbn [bind].
  destruct (np_take weights (np_argsort a)) as [e|s_weights]; [discriminate|].
  cbn [bind].
  match goal with |- context [s_ranks !! ?i] => destruct (s_ranks !! i) as [x|] eqn:Hx end;
    [|discriminate].
  intros [= <-]. eapply np_take_In; [exact Hr|].
  apply list_elem_of_In. eapply list_elem_of_lookup_2; eauto.
Qed.

(** The cumulative sums begin with a zero put before the weights, and the
    position read is one past the first position at which the cumulative
    fraction of the weights reaches one half: four and three values with
    unit weights yield the value 3, a single value yields an index error,
    and weights that are all zero yield the least value. *)
Example weighted_median_uniform_even :
  weighted_median [1; 2; 3; 4] [1; 1; 1; 1] = inr 3.
Proof. reflexivity. Qed.

Example weighted_median_uniform_odd :
  weighted_median [1; 2; 3] [1; 1; 1] = inr 3 /\ np_median [1; 2; 3] == 2.
Proof. split; reflexivity. Qed.

Example weighted_median_single :
  weighted_median [5] [1] = inl IndexError.
Proof. reflexivity. Qed.

Example weighted_median_zero_weights :
  weighted_median [2; 1; 3] [0; 0; 0] = inr 1.
Proof. reflexivity. Qed.

(** * Properties of the accumulators *)

Lemma is_ok_inr {E A : Type} (default : A) (m : E + A) :
  is_ok m = true -> m = inr (from_ok default m).
Proof. destruct m; [discriminate|reflexivity]. Qed.

Section AccumulatorFacts.

Variable fns : Irrational.

Lemma foldM_id {E A B : Type} (f : B -> A -> E + B) (xs : list A) (acc : B) :
  (forall x, In x xs -> f acc x = inr acc) -> foldM f acc xs = inr acc.
Proof.
  induction xs as [|x xs IH]; simpl; intros H; [reflexivity|].
  rewrite (H x) by now left. cbn [bind]. apply IH. intros y Hy. apply H. now right.
Qed.

Lemma foldM_cons {E A B : Type} (f : B -> A -> E + B) (x : A) (xs : list A) (acc : B) :
  foldM f acc (x :: xs) = bind (f acc x) (fun acc' => foldM f acc' xs).
Proof. reflexivity. Qed.

Lemma get_ranks_empty (self : RankBasedEvaluator.t) (side rank_type : string) :
  RankBasedEvaluator.ranks self = ∅ ->
  RankBasedEvaluator._get_ranks self side rank_type = [].
Proof.
  intros Hempty. unfold RankBasedEvaluator._get_ranks. rewrite Hempty.
  destruct (String.eqb side SIDE_BOTH); cbn; rewrite ?lookup_empty; reflexivity.
Qed.

(** With no observation stored, [finalize] of the micro accumulator writes
    no entry. *)
Lemma micro_finalize_empty (self : RankBasedEvaluator.t) (n : Z) :
  RankBasedEvaluator.ranks self = ∅ ->
  RankBasedEvaluator.num_entities self = Some n ->
  RankBasedEvaluator.finalize fns self
  = inr (empty_results,
         RankBasedEvaluator.mk (RankBasedEvaluator.ks self) ∅ (Some n)).
Proof.
  intros Hempty Hn. unfold RankBasedEvaluator.finalize. rewrite Hn.
  rewrite foldM_id; [reflexivity|].
  intros [side rank_type] _. unfold RankBasedEvaluator.finalize_pair.
  rewrite get_ranks_empty by assumption. reflexivity.
Qed.

(** [finalize] of the micro accumulator ends by clearing the buffers. *)
Lemma micro_finalize_clears (self self' : RankBasedEvaluator.t) (res : MetricResults) :
  RankBasedEvaluator.finalize fns self = inr (res, self') ->
  RankBasedEvaluator.ranks self' = ∅
  /\ RankBasedEvaluator.observation_count self' = O.
Proof.
  unfold RankBasedEvaluator.finalize.
  destruct (RankBasedEvaluator.num_entities self) as [n|]; [|discriminate].
  destruct (foldM _ _ _) as [e|res']; [discriminate|].
  cbn [bind]. intros [= <- <-]. split; [reflexivity|].
  unfold RankBasedEvaluator.observation_count. cbn. apply map_fold_empty.
Qed.

(** The sampled accumulator inherits it. *)
Lemma sampled_finalize_clears (self self' : SampledRankBasedEvaluator.t)
    (res : MetricResults) :
  SampledRankBasedEvaluator.finalize fns self = inr (res, self') ->
  SampledRankBasedEvaluator.observation_count self' = O.
Proof.
  unfold SampledRankBasedEvaluator.finalize.
  destruct (RankBasedEvaluator.finalize fns (SampledRankBasedEvaluator.base self))
    as [e|[res' base']] eqn:E; [discriminate|].
  cbn [bind]. intros [= <- <-].
  unfold SampledRankBasedEvaluator.observation_count. cbn.
  eapply micro_finalize_clears; eauto.
Qed.

Lemma read_keys_keeps (keys : gmap string (list (Z * Z))) (side s : string)
    (l : list (Z * Z)) :
  keys !! s = Some l -> (MacroRankBasedEvaluator.read_keys keys side).2 !! s = Some l.
Proof.
  intros H. unfold MacroRankBasedEvaluator.read_keys. cbn.
  destruct (decide (side = s)) as [->|Hne].
  - rewrite lookup_insert_eq, H. reflexivity.
  - rewrite lookup_insert_ne by assumption. assumption.
Qed.

Lemma get_keys_keeps (keys keys' : gmap string (list (Z * Z))) (side s : string)
    (found l : list (Z * Z)) :
  MacroRankBasedEvaluator._get_keys keys side = inr (found, keys') ->
  keys !! s = Some l -> keys' !! s = Some l.
Proof.
  unfold MacroRankBasedEvaluator._get_keys.
  destruct (String.eqb side SIDE_BOTH).
  - cbn. intros [= <- <-] H. now do 2 apply read_keys_keeps.
  - destruct (String.eqb side LABEL_HEAD || String.eqb side LABEL_TAIL); [|discriminate].
    intros [= <- <-] H. now apply (read_keys_keeps keys side s l).
Qed.

Lemma macro_finalize_side_keeps (self : MacroRankBasedEvaluator.t) (n : Z)
    (sides : list string) (res res' : MetricResults)
    (keys keys' : gmap string (list (Z * Z))) (s : string) (l : list (Z * Z)) :
  foldM (MacroRankBasedEvaluator.finalize_side fns self n) (res, keys) sides
  = inr (res', keys') ->
  keys !! s = Some l -> keys' !! s = Some l.
Proof.
  revert res keys. induction sides as [|side sides IH]; intros res keys.
  - intros [= <- <-]. auto.
  - rewrite foldM_cons. unfold MacroRankBasedEvaluator.finalize_side at 1.
    destruct (MacroRankBasedEvaluator._get_keys keys side) as [e|[found keys1]] eqn:Ek;
      [discriminate|].
    cbn [bind].
    destruct (MacroRankBasedEvaluator.macro_weights found) as [e|weights]; [discriminate|].
    cbn [bind].
    destruct (foldM (MacroRankBasedEvaluator.finalize_rank_type fns self n side weights)
                    res RANK_TYPES) as [e|res1]; [discriminate|].
    cbn [bind]. intros Hfold Hs. eapply IH; [exact Hfold|].
    eapply get_keys_keeps; eauto.
Qed.

End AccumulatorFacts.

(** C1, at the macro accumulator.  When [finalize] of the macro accumulator
    completes, the rank buffers are the ones it started with and every
    grouping key recorded is still stored: nothing is cleared. *)
Theorem macro_finalize_keeps_buffers (fns : Irrational)
    (self self' : MacroRankBasedEvaluator.t) (res : MetricResults) :
  MacroRankBasedEvaluator.finalize fns self = inr (res, self') ->
  RankBasedEvaluator.ranks (MacroRankBasedEvaluator.base self')
  = RankBasedEvaluator.ranks (MacroRankBasedEvaluator.base self)
  /\ (forall side l,
         MacroRankBasedEvaluator.keys self !! side = Some l ->
         MacroRankBasedEvaluator.keys self' !! side = Some l).
Proof.
  unfold MacroRankBasedEvaluator.finalize.
  destruct (RankBasedEvaluator.num_entities _) as [n|]; [|discriminate].
  destruct (foldM _ _ SIDES) as [e|[res' keys']] eqn:E; [discriminate|].
  cbn [bind]. intros [= <- <-]. split; [reflexivity|].
  intros side l Hl. cbn. eapply macro_finalize_side_keeps; eauto.
Qed.

(** The run of one batch: [finalize] completes and the accumulator still
    stores the eight ranks (two observations under four rank types) and the
    two grouping keys of the batch. *)
Lemma macro_finalize_keeps_buffers_witness :
  exists self res self',
    example_macro_run = inr self
    /\ MacroRankBasedEvaluator.finalize example_fns self = inr (res, self')
    /\ (RankBasedEvaluator.ranks (MacroRankBasedEvaluator.base self')
        = RankBasedEvaluator.ranks (MacroRankBasedEvaluator.base self)
        /\ (forall side l,
               MacroRankBasedEvaluator.keys self !! side = Some l ->
               MacroRankBasedEvaluator.keys self' !! side = Some l))
    /\ MacroRankBasedEvaluator.observation_count self' = 8%nat
    /\ MacroRankBasedEvaluator.key_count self' = 2%nat.
Proof.
  pose (blank := MacroRankBasedEvaluator.mk (RankBasedEvaluator.mk [] ∅ None) ∅).
  pose (self := from_ok blank example_macro_run).
  pose (out := from_ok (empty_results, blank)
                       (MacroRankBasedEvaluator.finalize example_fns self)).
  assert (Hrun : example_macro_run = inr self)
    by (apply is_ok_inr; vm_compute; reflexivity).
  assert (Hfin : MacroRankBasedEvaluator.finalize example_fns self = inr (out.1, out.2)).
  { rewrite <- surjective_pairing. apply is_ok_inr. vm_compute. reflexivity. }
  exists self, out.1, out.2.
  split; [exact Hrun|]. split; [exact Hfin|].
  split; [exact (macro_finalize_keeps_buffers example_fns self out.2 out.1 Hfin)|].
  split; vm_compute; reflexivity.
Defined.

(** The micro accumulator given the same batch stores nothing after
    [finalize]. *)
Example micro_finalize_clears_example :
  exists self res self',
    example_micro_run = inr self
    /\ RankBasedEvaluator.observation_count self = 8%nat
    /\ RankBasedEvaluator.finalize example_fns self = inr (res, self')
    /\ RankBasedEvaluator.observation_count self' = 0%nat.
Proof.
  pose (blank := RankBasedEvaluator.mk [] ∅ None).
  pose (self := from_ok blank example_micro_run).
  pose (out := from_ok (empty_results, blank)
                       (RankBasedEvaluator.finalize example_fns self)).
  assert (Hfin : RankBasedEvaluator.finalize example_fns self = inr (out.1, out.2)).
  { rewrite <- surjective_pairing. apply is_ok_inr. vm_compute. reflexivity. }
  exists self, out.1, out.2.
  split; [apply is_ok_inr; vm_compute; reflexivity|].
  split; [vm_compute; reflexivity|].
  split; [exact Hfin|].
  eapply micro_finalize_clears; eauto.
Qed.

Lemma micro_init_inv (ks : option (list HitsK)) (self : RankBasedEvaluator.t) :
  RankBasedEvaluator.init ks = inr self ->
  RankBasedEvaluator.ranks self = ∅ /\ RankBasedEvaluator.num_entities self = None.
Proof.
  unfold RankBasedEvaluator.init.
  destruct (existsb _ _); [discriminate|]. intros [= <-]. split; reflexivity.
Qed.

(** The constructor of the sampled accumulator records the number of
    entities of the factory and starts with empty buffers. *)
Lemma sampled_init_inv (factory : CoreTriplesFactory) (additional : FilterTriples)
    (num_negatives : option nat) (head_negatives tail_negatives : option Table)
    (ks : option (list HitsK)) (entropy : Entropy) (self : SampledRankBasedEvaluator.t) :
  SampledRankBasedEvaluator.init factory additional num_negatives head_negatives
    tail_negatives ks entropy = inr self ->
  RankBasedEvaluator.ranks (SampledRankBasedEvaluator.base self) = ∅
  /\ RankBasedEvaluator.num_entities (SampledRankBasedEvaluator.base self)
     = Some (factory_num_entities factory).
Proof.
  unfold SampledRankBasedEvaluator.init.
  destruct (RankBasedEvaluator.init ks) as [e|base] eqn:Hbase; [discriminate|].
  apply micro_init_inv in Hbase as [Hranks _].
  cbn [bind].
  match goal with |- bind ?m _ = _ -> _ => destruct m as [e|negatives] end; [discriminate|].
  cbn [bind].
  destruct (SampledRankBasedEvaluator.verify_negatives factory negatives); [discriminate|].
  cbn [bind]. intros [= <-]. cbn. split; [assumption|reflexivity].
Qed.

(** C6, as the code has it.  [finalize] on a micro or a macro accumulator
    that received no batch raises the [ValueError] of the unset number of
    entities.  The constructor of the sampled accumulator sets this number
    from the evaluation factory, so [finalize] on a sampled accumulator that
    received no batch returns results, with no entry. *)
Theorem finalize_before_any_batch (fns : Irrational) :
  (forall ks self,
      RankBasedEvaluator.init ks = inr self ->
      RankBasedEvaluator.finalize fns self = inl (ValueError NumEntitiesUnset))
  /\ (forall ks self,
         MacroRankBasedEvaluator.init ks = inr self ->
         MacroRankBasedEvaluator.finalize fns self = inl (ValueError NumEntitiesUnset))
  /\ (forall factory additional num_negatives head_negatives tail_negatives ks entropy self,
         SampledRankBasedEvaluator.init factory additional num_negatives head_negatives
           tail_negatives ks entropy = inr self ->
         SampledRankBasedEvaluator.finalize fns self = inr (empty_results, self)).
Proof.
  split; [|split].
  - intros ks self Hinit. apply micro_init_inv in Hinit as [_ Hn].
    unfold RankBasedEvaluator.finalize. now rewrite Hn.
  - intros ks self. unfold MacroRankBasedEvaluator.init.
    destruct (RankBasedEvaluator.init ks) as [e|base] eqn:Hbase; [discriminate|].
    cbn [bind]. intros [= <-]. apply micro_init_inv in Hbase as [_ Hn].
    unfold MacroRankBasedEvaluator.finalize. cbn. now rewrite Hn.
  - intros factory additional num_negatives head_negatives tail_negatives ks entropy self Hinit.
    apply sampled_init_inv in Hinit as [Hranks Hn].
    unfold SampledRankBasedEvaluator.finalize.
    rewrite (micro_finalize_empty fns _ _ Hranks Hn). cbn [bind].
    destruct self as [[ks' ranks' n'] index negatives]. cbn in *. subst. reflexivity.
Qed.

Lemma finalize_before_any_batch_witness :
  exists micro macro sampled,
    RankBasedEvaluator.init None = inr micro
    /\ MacroRankBasedEvaluator.init None = inr macro
    /\ SampledRankBasedEvaluator.init example_factory FilterNone (Some 2%nat)
         None None None [] = inr sampled
    /\ RankBasedEvaluator.finalize example_fns micro = inl (ValueError NumEntitiesUnset)
    /\ MacroRankBasedEvaluator.finalize example_fns macro = inl (ValueError NumEntitiesUnset)
    /\ SampledRankBasedEvaluator.finalize example_fns sampled = inr (empty_results, sampled).
Proof.
  pose (blank := RankBasedEvaluator.mk [] ∅ None).
  pose (micro := from_ok blank (RankBasedEvaluator.init None)).
  pose (macro := from_ok (MacroRankBasedEvaluator.mk blank ∅)
                         (MacroRankBasedEvaluator.init None)).
  pose (sampled := from_ok (SampledRankBasedEvaluator.mk blank ∅ [])
                           (SampledRankBasedEvaluator.init example_factory FilterNone
                              (Some 2%nat) None None None [])).
  assert (H1 : RankBasedEvaluator.init None = inr micro)
    by (apply is_ok_inr; vm_compute; reflexivity).
  assert (H2 : MacroRankBasedEvaluator.init None = inr macro)
    by (apply is_ok_inr; vm_compute; reflexivity).
  assert (H3 : SampledRankBasedEvaluator.init example_factory FilterNone (Some 2%nat)
                 None None None [] = inr sampled)
    by (apply is_ok_inr; vm_compute; reflexivity).
  exists micro, macro, sampled.
  destruct (finalize_before_any_batch example_fns) as (Hmicro & Hmacro & Hsampled).
  split; [exact H1|]. split; [exact H2|]. split; [exact H3|].
  split; [exact (Hmicro None micro H1)|].
  split; [exact (Hmacro None macro H2)|].
  exact (Hsampled _ _ _ _ _ _ _ sampled H3).
Defined.

(** C6 fails as stated at the sampled accumulator: constructed and given no
    batch, its [finalize] completes. *)
Lemma sampled_finalize_without_batch :
  is_ok (SampledRankBasedEvaluator.init example_factory FilterNone (Some 2%nat)
           None None None []) = true
  /\ is_ok (try self <- SampledRankBasedEvaluator.init example_factory FilterNone
                          (Some 2%nat) None None None [] in
            SampledRankBasedEvaluator.finalize example_fns self) = true.
Proof. split; vm_compute; reflexivity. Qed.

(** * Properties of the sampled negatives *)

Lemma random_sample_elem (population : list Z) (k : nat) (entropy : Entropy)
    (xs : list Z) (entropy' : Entropy) :
  random_sample population k entropy = inr (xs, entropy') ->
  length xs = k /\ forall x, x ∈ xs -> x ∈ population.
Proof.
  revert population entropy xs entropy'.
  induction k as [|k IH]; intros population entropy xs entropy'; simpl.
  - intros [= <- <-]. split; [reflexivity|]. intros x Hx. inversion Hx.
  - destruct population as [|p population]; [discriminate|].
    destruct (draw entropy) as [n entropy1].
    set (i := (n mod length (p :: population))%nat).
    destruct ((p :: population) !! i) as [x|] eqn:Hx; [|discriminate].
    destruct (random_sample (delete i (p :: population)) k entropy1)
      as [e|[ys entropy2]] eqn:Hrec; [discriminate|].
    cbn [bind]. intros [= <- <-].
    apply IH in Hrec as [Hlen Hin]. split; [simpl; congruence|].
    intros y Hy. apply elem_of_cons in Hy as [->|Hy].
    + eapply list_elem_of_lookup_2; eauto.
    + eapply list_elem_of_delete_inv. apply Hin. exact Hy.
Qed.

Lemma random_sample_ok (population : list Z) (k : nat) (entropy : Entropy) :
  (k <= length population)%nat ->
  exists out, random_sample population k entropy = inr out.
Proof.
  revert population entropy.
  induction k as [|k IH]; intros population entropy Hk; simpl.
  - eauto.
  - destruct population as [|p population]; [simpl in Hk; lia|].
    destruct (draw entropy) as [n entropy1].
    set (i := (n mod length (p :: population))%nat).
    assert (Hi : (i < length (p :: population))%nat).
    { subst i. apply Nat.mod_upper_bound. simpl. lia. }
    destruct (lookup_lt_is_Some_2 (p :: population) i Hi) as [x Hx].
    rewrite Hx.
    destruct (IH (delete i (p :: population)) entropy1) as [[ys entropy2] Hrec].
    { rewrite length_delete by eauto. simpl in *. lia. }
    rewrite Hrec. cbn [bind]. eauto.
Qed.

Lemma list_repeat_elem {A : Type} (n : nat) (pool : list A) (x : A) :
  x ∈ list_repeat n pool -> x ∈ pool.
Proof.
  unfold list_repeat. induction n as [|n IH]; simpl.
  - intros H. inversion H.
  - rewrite elem_of_app. intros [H|H]; auto.
Qed.

Lemma list_repeat_length {A : Type} (n : nat) (pool : list A) :
  length (list_repeat n pool) = (n * length pool)%nat.
Proof.
  unfold list_repeat. induction n as [|n IH]; simpl; [reflexivity|].
  rewrite length_app, IH. reflexivity.
Qed.

Lemma ceil_div_covers (a b : nat) :
  (0 < b)%nat -> (a <= (a + b - 1) / b * b)%nat.
Proof.
  intros Hb.
  pose proof (Nat.div_mod_eq (a + b - 1) b) as Hdiv.
  pose proof (Nat.mod_upper_bound (a + b - 1) b ltac:(lia)) as Hmod.
  nia.
Qed.

(** The pool of a group holds identifiers only, none of them an entity the
    group knows for the side, and is long enough for the sample; the only
    exception it raises is the division by the length of an empty pool. *)
Lemma group_pool_inv (all_ids : list Z) (num_samples : nat) (group : list MergedRow) :
  match group_pool all_ids num_samples group with
  | inr pool =>
      (num_samples <= length pool)%nat
      /\ forall x, x ∈ pool -> x ∈ all_ids /\ x ∉ map row_side_all group
  | inl e => e = ZeroDivisionError
  end.
Proof.
  unfold group_pool.
  set (pool := filter (fun e => e ∉ map row_side_all group) all_ids).
  assert (Hpool : forall x, x ∈ pool -> x ∈ all_ids /\ x ∉ map row_side_all group).
  { intros x Hx. subst pool. apply list_elem_of_filter in Hx. tauto. }
  destruct (Nat.ltb_spec (length pool) num_samples) as [Hlt|Hge].
  - destruct (Nat.eqb_spec (length pool) 0) as [Hz|Hnz]; [reflexivity|].
    split.
    + rewrite list_repeat_length. apply ceil_div_covers. lia.
    + intros x Hx. apply Hpool. eapply list_repeat_elem; eauto.
  - split; [lia|assumption].
Qed.

Lemma unique_first_elem (seen xs : list nat) (x : nat) :
  x ∈ unique_first seen xs <-> x ∈ xs /\ x ∉ seen.
Proof.
  revert seen. induction xs as [|y xs IH]; intros seen; simpl.
  - split; [intros H; inversion H|intros [H _]; inversion H].
  - destruct (bool_decide_reflect (y ∈ seen)) as [Hy|Hy].
    + rewrite IH, elem_of_cons. split; [tauto|].
      intros [[->|H] Hn]; [contradiction|tauto].
    + rewrite !elem_of_cons, IH, elem_of_cons. split.
      * intros [->|[H Hn]]; [tauto|]. split; [tauto|]. tauto.
      * intros [[->|H] Hn]; [tauto|].
        destruct (decide (x = y)) as [->|Hne]; [tauto|]. right. split; [assumption|].
        intros [?|?]; contradiction.
Qed.

(** The rows a group writes: the loop over the indices of a group with a
    pool that is long enough never raises, writes a sample of the pool at
    each index and leaves the other rows as they are. *)
Lemma sample_rows_inv (pool : list Z) (num_samples : nat) (indices : list nat)
    (T : Table) (entropy : Entropy) :
  (num_samples <= length pool)%nat ->
  exists T' entropy',
    foldM (fun '(this_negatives, entropy) i =>
             try (row, entropy) <- random_sample pool num_samples entropy in
             inr (<[i := Some row]> this_negatives, entropy))
          (T, entropy) indices = inr (T', entropy')
    /\ length T' = length T
    /\ (forall i, i ∉ indices -> T' !! i = T !! i)
    /\ (forall i, i ∈ indices -> (i < length T)%nat ->
          exists row, T' !! i = Some (Some row)
                      /\ length row = num_samples
                      /\ forall x, x ∈ row -> x ∈ pool).
Proof.
  intros Hpool. revert T entropy.
  induction indices as [|i indices IH]; intros T entropy.
  - exists T, entropy. split; [reflexivity|]. split; [reflexivity|].
    split; [reflexivity|]. intros i Hi. inversion Hi.
  - rewrite foldM_cons.
    destruct (random_sample_ok pool num_samples entropy Hpool) as [[row entropy1] Hrow].
    rewrite Hrow. cbn [bind].
    destruct (IH (<[i := Some row]> T) entropy1) as (T' & entropy' & Hfold & Hlen & Hout & Hin).
    rewrite length_insert in Hlen, Hin.
    exists T', entropy'. split; [exact Hfold|]. split; [exact Hlen|]. split.
    + intros j Hj. apply not_elem_of_cons in Hj as [Hne Hj].
      rewrite (Hout j Hj). apply list_lookup_insert_ne. congruence.
    + intros j Hj Hlt.
      destruct (decide (j ∈ indices)) as [Hjin|Hjout]; [now apply Hin|].
      apply elem_of_cons in Hj as [->|Hj]; [|contradiction].
      rewrite (Hout i Hjout), list_lookup_insert_eq by assumption.
      apply random_sample_elem in Hrow as [Hrlen Hrin].
      exists row. auto.
Qed.

Lemma sample_group_inv (all_ids : list Z) (num_samples : nat) (T : Table)
    (entropy : Entropy) (group : list MergedRow) :
  match sample_group all_ids num_samples (T, entropy) group with
  | inl e => e = ZeroDivisionError
  | inr (T', _) =>
      length T' = length T
      /\ (forall i, i ∉ map row_index_eval group -> T' !! i = T !! i)
      /\ (forall i, i ∈ map row_index_eval group -> (i < length T)%nat ->
            exists row, T' !! i = Some (Some row)
                        /\ length row = num_samples
                        /\ forall x, x ∈ row ->
                             x ∈ all_ids /\ x ∉ map row_side_all group)
  end.
Proof.
  unfold sample_group.
  pose proof (group_pool_inv all_ids num_samples group) as Hpool.
  destruct (group_pool all_ids num_samples group) as [e|pool]; [exact Hpool|].
  destruct Hpool as [Hlen Hpool]. cbn [bind].
  destruct (sample_rows_inv pool num_samples
              (unique_first [] (map row_index_eval group)) T entropy Hlen)
    as (T' & entropy' & -> & HlenT & Hout & Hin).
  split; [exact HlenT|]. split.
  - intros i Hi. apply Hout. rewrite unique_first_elem. tauto.
  - intros i Hi Hlt.
    destruct (Hin i) as (row & Hrow & Hrlen & Hrin); [|assumption|].
    { rewrite unique_first_elem. split; [assumption|]. intros H. inversion H. }
    exists row. auto.
Qed.

(** The loop over the groups of a side. *)
Lemma sample_groups_inv (all_ids : list Z) (num_samples : nat)
    (groups : list (list MergedRow)) (T : Table) (entropy : Entropy) :
  match foldM (sample_group all_ids num_samples) (T, entropy) groups with
  | inl e => e = ZeroDivisionError
  | inr (T', _) =>
      length T' = length T
      /\ (forall i,
            T' !! i = T !! i
            \/ exists group row,
                 group ∈ groups
                 /\ i ∈ map row_index_eval group
                 /\ T' !! i = Some (Some row)
                 /\ length row = num_samples
                 /\ forall x, x ∈ row -> x ∈ all_ids /\ x ∉ map row_side_all group)
      /\ (forall group i,
            group ∈ groups -> i ∈ map row_index_eval group -> (i < length T)%nat ->
            exists row, T' !! i = Some (Some row))
  end.
Proof.
  revert T entropy. induction groups as [|g groups IH]; intros T entropy.
  - cbn. split; [reflexivity|]. split; [auto|]. intros group i H. inversion H.
  - rewrite foldM_cons.
    pose proof (sample_group_inv all_ids num_samples T entropy g) as Hg.
    destruct (sample_group all_ids num_samples (T, entropy) g) as [e|[T1 entropy1]];
      [exact Hg|].
    destruct Hg as (Hlen1 & Hout1 & Hin1). cbn [bind].
    specialize (IH T1 entropy1).
    destruct (foldM (sample_group all_ids num_samples) (T1, entropy1) groups)
      as [e|[T' entropy']]; [exact IH|].
    destruct IH as (Hlen & Hrows & Hdone).
    split; [congruence|]. split.
    + intros i. destruct (Hrows i) as [Heq|(group & row & Hgin & Hi & Hrow & Hrest)].
      * destruct (decide (i ∈ map row_index_eval g)) as [Hi|Hi].
        -- destruct (decide (i < length T)%nat) as [Hlt|Hge].
           ++ destruct (Hin1 i Hi Hlt) as (row & Hrow & Hrlen & Hrin).
              right. exists g, row. rewrite Heq.
              split; [left|]. auto.
           ++ left. rewrite Heq.
              rewrite !lookup_ge_None_2; [reflexivity|lia|lia].
        -- left. rewrite Heq. now apply Hout1.
      * right. exists group, row. split; [now right|]. auto.
    + intros group i Hgin Hi Hlt.
      apply elem_of_cons in Hgin as [->|Hgin].
      * destruct (Hin1 i Hi Hlt) as (row & Hrow & _).
        destruct (Hrows i) as [Heq|(group' & row' & _ & _ & Hrow' & _)]; eauto.
        rewrite Heq. eauto.
      * apply (Hdone group i Hgin Hi). lia.
Qed.

Lemma row_eqb_eq (a b : Z * Z) : row_eqb a b = true <-> a = b.
Proof.
  destruct a as [a1 a2], b as [b1 b2]. unfold row_eqb. cbn.
  rewrite andb_true_iff, !Z.eqb_eq. split; [intros [-> ->]; reflexivity|].
  intros [= -> ->]. auto.
Qed.

Lemma insert_row_elem (x y : Z * Z) (xs : list (Z * Z)) :
  y ∈ insert_row x xs <-> y = x \/ y ∈ xs.
Proof.
  induction xs as [|z xs IH]; simpl.
  - rewrite list_elem_of_singleton. split; [tauto|]. intros [?|H]; [assumption|inversion H].
  - destruct (row_eqb x z) eqn:Heq.
    + apply row_eqb_eq in Heq as ->. rewrite elem_of_cons. tauto.
    + destruct (row_ltb x z).
      * rewrite elem_of_cons. tauto.
      * rewrite !elem_of_cons, IH. tauto.
Qed.

Lemma unique_rows_elem (x : Z * Z) (keys : list (Z * Z)) :
  x ∈ unique_rows keys <-> x ∈ keys.
Proof.
  unfold unique_rows. induction keys as [|k keys IH]; simpl.
  - reflexivity.
  - rewrite insert_row_elem, IH, elem_of_cons. reflexivity.
Qed.

(** The rows of the merge: every pair of an evaluation triple and a known
    triple that agree on the columns other than the side. *)
Lemma merge_on_other_elem (side_idx : nat) (evaluation_triples all_triples : list Triple)
    (row : MergedRow) :
  row ∈ merge_on_other side_idx evaluation_triples all_triples
  <-> exists i hrt known,
        evaluation_triples !! i = Some hrt
        /\ known ∈ all_triples
        /\ key_columns side_idx hrt = key_columns side_idx known
        /\ row = mkMergedRow i (key_columns side_idx hrt) (triple_column side_idx known).
Proof.
  unfold merge_on_other. rewrite list_elem_of_bind. split.
  - intros ([i hrt] & Hrow & Hi).
    apply elem_of_lookup_imap in Hi as (j & hrt' & [= -> ->] & Hj).
    apply list_elem_of_bind in Hrow as (known & Hrow & Hknown).
    destruct (row_eqb _ _) eqn:Heq; [|inversion Hrow].
    apply list_elem_of_singleton in Hrow. apply row_eqb_eq in Heq.
    exists j, hrt', known. auto.
  - intros (i & hrt & known & Hi & Hknown & Heq & ->).
    exists (i, hrt). split.
    + apply list_elem_of_bind. exists known. split; [|assumption].
      apply row_eqb_eq in Heq. rewrite Heq. apply list_elem_of_singleton. reflexivity.
    + apply elem_of_lookup_imap. exists i, hrt. auto.
Qed.

(** The table of one side when the known triples include the evaluation
    triples. *)
Lemma side_table_inv (side_idx : nat) (evaluation_triples all_triples : list Triple)
    (num_entities : Z) (num_samples : nat) (entropy : Entropy) :
  (forall hrt, hrt ∈ evaluation_triples -> hrt ∈ all_triples) ->
  match foldM (sample_group (seqZ 0 num_entities) num_samples)
              (replicate (length evaluation_triples) None, entropy)
              (groupby_other (merge_on_other side_idx evaluation_triples all_triples)) with
  | inl e => e = ZeroDivisionError
  | inr (table, _) =>
      negatives_avoid_known side_idx evaluation_triples all_triples num_samples
                            num_entities table
  end.
Proof.
  intros Hincl.
  set (merged := merge_on_other side_idx evaluation_triples all_triples).
  pose proof (sample_groups_inv (seqZ 0 num_entities) num_samples (groupby_other merged)
                (replicate (length evaluation_triples) None) entropy) as Hinv.
  destruct (foldM _ _ _) as [e|[table entropy']]; [exact Hinv|].
  destruct Hinv as (Hlen & Hrows & Hdone).
  rewrite length_replicate in Hlen, Hdone.
  split; [exact Hlen|].
  intros i hrt Hi.
  pose proof (lookup_lt_Some _ _ _ Hi) as Hlt.
  set (key := key_columns side_idx hrt).
  set (group := filter (fun row => row_eqb (row_other row) key = true) merged).
  assert (Hself : mkMergedRow i key (triple_column side_idx hrt) ∈ merged).
  { apply merge_on_other_elem. exists i, hrt, hrt.
    split; [assumption|]. split; [|auto].
    apply Hincl. eapply list_elem_of_lookup_2; eauto. }
  assert (Hgroup : group ∈ groupby_other merged).
  { unfold groupby_other. apply list_elem_of_fmap. exists key. split; [reflexivity|].
    apply unique_rows_elem. apply list_elem_of_fmap.
    exists (mkMergedRow i key (triple_column side_idx hrt)). auto. }
  assert (Hindex : i ∈ map row_index_eval group).
  { apply list_elem_of_fmap. exists (mkMergedRow i key (triple_column side_idx hrt)).
    split; [reflexivity|]. apply list_elem_of_filter. split; [|assumption].
    cbn. now apply row_eqb_eq. }
  destruct (Hdone group i Hgroup Hindex Hlt) as [row Hrow].
  exists row. split; [exact Hrow|].
  destruct (Hrows i) as [Heq|(g & row' & Hg & Hig & Hrow' & Hrlen & Hrin)].
  { rewrite Heq, lookup_replicate_2 in Hrow by assumption. discriminate Hrow. }
  rewrite Hrow in Hrow'. injection Hrow' as <-.
  split; [exact Hrlen|].
  (* the group that wrote the row is a group of the key of the triple *)
  unfold groupby_other in Hg. apply list_elem_of_fmap in Hg as (key' & -> & Hkey').
  apply list_elem_of_fmap in Hig as (r & Hri & Hr).
  apply list_elem_of_filter in Hr as [Hrkey Hr].
  apply row_eqb_eq in Hrkey.
  apply merge_on_other_elem in Hr as (j & hrt' & known' & Hj & _ & _ & ->).
  cbn in Hri, Hrkey. subst j. rewrite Hi in Hj. injection Hj as <-.
  assert (Havoid : forall x, x ∈ row -> forall known,
            known ∈ all_triples ->
            key_columns side_idx known = key_columns side_idx hrt ->
            x <> triple_column side_idx known).
  { intros x Hx known Hknown Hk Heq.
    destruct (Hrin x Hx) as [_ Hnot]. apply Hnot.
    apply list_elem_of_fmap.
    exists (mkMergedRow i (key_columns side_idx hrt) (triple_column side_idx known)).
    split; [cbn; congruence|].
    apply list_elem_of_filter. split; [cbn; now apply row_eqb_eq|].
    apply merge_on_other_elem. exists i, hrt, known. auto. }
  intros x Hx. split; [|split].
  - destruct (Hrin x Hx) as [Hid _]. apply elem_of_seqZ in Hid. lia.
  - apply (Havoid x Hx hrt); [|reflexivity].
    apply Hincl. eapply list_elem_of_lookup_2; eauto.
  - apply (Havoid x Hx).
Qed.

Lemma prepare_filter_triples_includes (mapped_triples : list Triple)
    (additional : FilterTriples) (hrt : Triple) :
  hrt ∈ mapped_triples -> hrt ∈ prepare_filter_triples mapped_triples additional.
Proof.
  intros H. destruct additional; simpl; [assumption| |]; apply elem_of_app; now right.
Qed.

Lemma sample_side_inv (side : string) (evaluation_triples all_triples : list Triple)
    (num_entities : Z) (num_samples : nat) (negatives : list (string * Table))
    (entropy : Entropy) :
  (forall hrt, hrt ∈ evaluation_triples -> hrt ∈ all_triples) ->
  match sample_side evaluation_triples all_triples (seqZ 0 num_entities) num_samples
                    (negatives, entropy) side with
  | inl e => e = ZeroDivisionError
  | inr (negatives', _) =>
      exists table,
        negatives' = (negatives ++ [(side, table)])%list
        /\ negatives_avoid_known (column_position side columns) evaluation_triples
             all_triples num_samples num_entities table
  end.
Proof.
  intros Hincl. unfold sample_side.
  pose proof (side_table_inv (column_position side columns) evaluation_triples all_triples
                num_entities num_samples entropy Hincl) as Htable.
  destruct (foldM _ _ _) as [e|[table entropy1]]; [exact Htable|].
  cbn [bind]. exists table. auto.
Qed.

(** What [sample_negatives] returns, and the exceptions it can raise: the
    division by the length of an empty pool, and the maximum of no triple. *)
Lemma sample_negatives_inv (evaluation_triples : list Triple) (additional : FilterTriples)
    (num_samples : nat) (num_entities : option Z) (entropy : Entropy) :
  match sample_negatives evaluation_triples additional num_samples num_entities entropy with
  | inl e =>
      e = ZeroDivisionError
      \/ resolve_num_entities num_entities
           (prepare_filter_triples evaluation_triples additional) = inl e
  | inr (negatives, _) =>
      exists n head_table tail_table,
        resolve_num_entities num_entities
          (prepare_filter_triples evaluation_triples additional) = inr n
        /\ negatives = [ (LABEL_HEAD, head_table); (LABEL_TAIL, tail_table) ]
        /\ negatives_avoid_known 0 evaluation_triples
             (prepare_filter_triples evaluation_triples additional) num_samples n head_table
        /\ negatives_avoid_known 2 evaluation_triples
             (prepare_filter_triples evaluation_triples additional) num_samples n tail_table
  end.
Proof.
  unfold sample_negatives.
  set (all_triples := prepare_filter_triples evaluation_triples additional).
  assert (Hincl : forall hrt, hrt ∈ evaluation_triples -> hrt ∈ all_triples)
    by (intros; now apply prepare_filter_triples_includes).
  destruct (resolve_num_entities num_entities all_triples) as [e|n]; [right; reflexivity|].
  cbn [bind]. rewrite foldM_cons.
  pose proof (sample_side_inv LABEL_HEAD evaluation_triples all_triples n num_samples []
                entropy Hincl) as Hhead.
  destruct (sample_side evaluation_triples all_triples (seqZ 0 n) num_samples ([], entropy)
                        LABEL_HEAD) as [e|[negatives1 entropy1]];
    [left; exact Hhead|].
  destruct Hhead as (head_table & -> & Hhead).
  cbn [bind]. rewrite foldM_cons.
  pose proof (sample_side_inv LABEL_TAIL evaluation_triples all_triples n num_samples
                ([] ++ [(LABEL_HEAD, head_table)]) entropy1 Hincl) as Htail.
  destruct (sample_side evaluation_triples all_triples (seqZ 0 n) num_samples
                        (([] ++ [(LABEL_HEAD, head_table)])%list, entropy1) LABEL_TAIL)
    as [e|[negatives2 entropy2]];
    [left; exact Htail|].
  destruct Htail as (tail_table & -> & Htail).
  cbn [bind foldM]. exists n, head_table, tail_table. auto.
Qed.

(** C10.  In the tables [sample_negatives] returns, every evaluation triple
    has, on the head side and on the tail side, a row of entity identifiers
    none of which is a true answer for the triple's grouping key among the
    evaluation triples and the supplied filter triples; the triple's own
    entity is never among them, whatever filter triples are supplied. *)
Theorem sample_negatives_avoid_known (evaluation_triples : list Triple)
    (additional : FilterTriples) (num_samples : nat) (num_entities : option Z)
    (entropy entropy' : Entropy) (negatives : list (string * Table)) :
  sample_negatives evaluation_triples additional num_samples num_entities entropy
  = inr (negatives, entropy') ->
  exists n head_table tail_table,
    resolve_num_entities num_entities
      (prepare_filter_triples evaluation_triples additional) = inr n
    /\ negatives = [ (LABEL_HEAD, head_table); (LABEL_TAIL, tail_table) ]
    /\ negatives_avoid_known 0 evaluation_triples
         (prepare_filter_triples evaluation_triples additional) num_samples n head_table
    /\ negatives_avoid_known 2 evaluation_triples
         (prepare_filter_triples evaluation_triples additional) num_samples n tail_table.
Proof.
  intros Hrun.
  pose proof (sample_negatives_inv evaluation_triples additional num_samples num_entities
                entropy) as Hinv.
  rewrite Hrun in Hinv. exact Hinv.
Qed.

Lemma sample_negatives_avoid_known_witness :
  sample_negatives (mapped_triples example_factory) FilterNone 2 (Some 5%Z)
                   [0; 1; 2; 3; 4; 5; 6; 7; 8; 9]%nat
  = inr ([ (LABEL_HEAD, [Some [1; 3]; Some [3; 1]; Some [0; 4]]%Z);
           (LABEL_TAIL, [Some [0; 4]; Some [4; 3]; Some [0; 2]]%Z) ], [])
  /\ exists n head_table tail_table,
       resolve_num_entities (Some 5%Z)
         (prepare_filter_triples (mapped_triples example_factory) FilterNone) = inr n
       /\ [ (LABEL_HEAD, [Some [1; 3]; Some [3; 1]; Some [0; 4]]%Z);
            (LABEL_TAIL, [Some [0; 4]; Some [4; 3]; Some [0; 2]]%Z) ]
          = [ (LABEL_HEAD, head_table); (LABEL_TAIL, tail_table) ]
       /\ negatives_avoid_known 0 (mapped_triples example_factory)
            (prepare_filter_triples (mapped_triples example_factory) FilterNone)
            2 n head_table
       /\ negatives_avoid_known 2 (mapped_triples example_factory)
            (prepare_filter_triples (mapped_triples example_factory) FilterNone)
            2 n tail_table.
Proof.
  split; [reflexivity|].
  apply (sample_negatives_avoid_known (mapped_triples example_factory) FilterNone 2
           (Some 5%Z) [0; 1; 2; 3; 4; 5; 6; 7; 8; 9]%nat []).
  reflexivity.
Defined.

Lemma micro_init_cases (ks : option (list HitsK)) :
  if relative_k_out_of_range ks
  then RankBasedEvaluator.init ks = inl (ValueError RelativeKOutOfRange)
  else exists base, RankBasedEvaluator.init ks = inr base.
Proof.
  unfold relative_k_out_of_range, RankBasedEvaluator.init.
  destruct (existsb _ _); eauto.
Qed.

Lemma verify_negatives_two (factory : CoreTriplesFactory) (head_table tail_table : Table) :
  SampledRankBasedEvaluator.verify_negatives factory
    [ (LABEL_HEAD, head_table); (LABEL_TAIL, tail_table) ]
  = if negb (length head_table =? num_triples factory)%nat
    then inl (ValueError (NegativesWrongShape LABEL_HEAD))
    else if negb (length tail_table =? num_triples factory)%nat
         then inl (ValueError (NegativesWrongShape LABEL_TAIL))
         else inr tt.
Proof.
  unfold SampledRankBasedEvaluator.verify_negatives. cbn [foldM bind].
  destruct (length head_table =? num_triples factory)%nat; cbn [negb bind]; [|reflexivity].
  destruct (length tail_table =? num_triples factory)%nat; reflexivity.
Qed.

(** C8, as the code has it.  The construction of the sampled accumulator
    fails with a [ValueError] in exactly these cases: a relative [k] of
    [ks] is outside the open interval from 0 to 1 (the check of the base
    constructor); exactly one of the two tables of negatives is supplied;
    both are supplied and one has a number of rows other than the number of
    evaluation triples; none is supplied and the number of negatives to
    sample, 50 unless a positive number is asked for, exceeds the number of
    entities. *)
Theorem sampled_init_validation (factory : CoreTriplesFactory) (additional : FilterTriples)
    (num_negatives : option nat) (head_negatives tail_negatives : option Table)
    (ks : option (list HitsK)) (entropy : Entropy) (site : ValueErrorSite) :
  SampledRankBasedEvaluator.init factory additional num_negatives head_negatives
    tail_negatives ks entropy = inl (ValueError site)
  <-> constructor_validation factory num_negatives head_negatives tail_negatives ks
      = Some site.
Proof.
  unfold SampledRankBasedEvaluator.init, constructor_validation.
  pose proof (micro_init_cases ks) as Hks.
  destruct (relative_k_out_of_range ks).
  { rewrite Hks. cbn [bind]. split; intros [= <-]; reflexivity. }
  destruct Hks as [base ->]. cbn [bind].
  destruct head_negatives as [head_table|], tail_negatives as [tail_table|].
  - (* both tables are supplied *)
    cbn [bind]. rewrite verify_negatives_two.
    destruct (length head_table =? num_triples factory)%nat; cbn [negb bind].
    + destruct (length tail_table =? num_triples factory)%nat; cbn [negb bind].
      * split; discriminate.
      * split; intros [= <-]; reflexivity.
    + split; intros [= <-]; reflexivity.
  - cbn [bind]. split; intros [= <-]; reflexivity.
  - cbn [bind]. split; intros [= <-]; reflexivity.
  - (* the negatives are sampled *)
    change (match num_negatives with Some (S n) => S n | _ => 50%nat end)
      with (requested_negatives num_negatives).
    destruct (Z.ltb_spec (factory_num_entities factory)
                (Z.of_nat (requested_negatives num_negatives))) as [Hlt|Hge].
    { cbn [bind]. split; intros [= <-]; reflexivity. }
    pose proof (sample_negatives_inv (mapped_triples factory) additional
                  (requested_negatives num_negatives)
                  (Some (factory_num_entities factory)) entropy) as Hinv.
    assert (Hpos : (0 < Z.of_nat (requested_negatives num_negatives))%Z).
    { unfold requested_negatives. destruct num_negatives as [[|n]|]; lia. }
    assert (Hres : resolve_num_entities (Some (factory_num_entities factory))
                     (prepare_filter_triples (mapped_triples factory) additional)
                   = inr (factory_num_entities factory)).
    { unfold resolve_num_entities.
      destruct (Z.eqb_spec (factory_num_entities factory) 0); [lia|reflexivity]. }
    destruct (sample_negatives _ _ _ _ _) as [e|[negatives entropy']].
    + cbn [bind]. destruct Hinv as [->|Hbad]; [split; discriminate|].
      rewrite Hres in Hbad. discriminate Hbad.
    + destruct Hinv as (n & head_table & tail_table & _ & -> & [Hhead _] & [Htail _]).
      cbn [bind]. rewrite verify_negatives_two. unfold num_triples.
      rewrite Hhead, Htail, Nat.eqb_refl. cbn [negb bind].
      split; discriminate.
Qed.

(** C8 fails as stated: with both tables supplied, of the right number of
    rows, the construction is refused for a relative [k] of 3/2. *)
Lemma sampled_init_rejects_relative_k :
  length [Some [0%Z]; Some [0%Z]; Some [0%Z]] = num_triples example_factory
  /\ SampledRankBasedEvaluator.init example_factory FilterNone None
       (Some [Some [0%Z]; Some [0%Z]; Some [0%Z]])
       (Some [Some [0%Z]; Some [0%Z]; Some [0%Z]])
       (Some [IntK 1; FloatK (3 # 2)]) []
     = inl (ValueError RelativeKOutOfRange).
Proof. split; reflexivity. Qed.

(** The spec's example: 50 negatives on 40 entities. *)
Example sampled_init_too_many_negatives :
  SampledRankBasedEvaluator.init (mkFactory [(0, 0, 1)%Z] 40) FilterNone None None None
    None []
  = inl (ValueError TooManyNegatives).
Proof. reflexivity. Qed.

(** * The adjusted metrics of the micro accumulator *)

Section AdjustedMetrics.

Variable fns : Irrational.

Lemma data_set_metric (name side rank_type : string) (v : Value) (res : MetricResults) :
  data (set_metric name side rank_type v res)
  = <[(name, side, rank_type) := v]> (data res).
Proof. reflexivity. Qed.

Lemma data_set_hits (side rank_type : string) (v : list (HitsK * Q)) (res : MetricResults) :
  data (set_hits side rank_type v res) = data res.
Proof. reflexivity. Qed.

(** Writing the metrics of one pair touches only the entries of the pair
    and of the names written. *)
Lemma write_metrics_other (side rank_type : string) (metrics : list (string * Q))
    (res : MetricResults) (name s r : string) :
((s, r) <> (side, rank_type)) \/ (name ∉ map fst metrics) ->
  data (foldl (fun res '(metric_name, metric_value) =>
                 set_metric metric_name side rank_type (Num metric_value) res)
              res metrics) !! (name, s, r)
  = data res !! (name, s, r).
Proof.
  revert res. induction metrics as [|[m v] metrics IH]; intros res H; [reflexivity|].
  cbn [foldl]. rewrite IH.
  - rewrite data_set_metric. apply lookup_insert_ne.
    intros [= -> -> ->]. destruct H as [H|H]; [congruence|].
    apply H. cbn. left.
  - destruct H as [H|H]; [now left|]. right. cbn in H.
    intros Hin. apply H. now right.
Qed.

Lemma write_metrics_mean (side rank_type : string) (ranks : list Q) (res : MetricResults) :
  data (foldl (fun res '(metric_name, metric_value) =>
                 set_metric metric_name side rank_type (Num metric_value) res)
              res (get_ranking_metrics fns ranks)) !! (ARITHMETIC_MEAN_RANK, side, rank_type)
  = Some (Num (np_mean ranks)).
Proof.
  unfold get_ranking_metrics, ALL_TYPE_FUNCS. cbn [map foldl].
  rewrite !data_set_metric.
  repeat (rewrite lookup_insert_ne by (intros [= Hname]; discriminate Hname)).
  apply lookup_insert_eq.
Qed.

Lemma adjusted_not_written (ranks : list Q) :
  (ADJUSTED_ARITHMETIC_MEAN_RANK ∉ map fst (get_ranking_metrics fns ranks))
  /\ (ADJUSTED_ARITHMETIC_MEAN_RANK_INDEX ∉ map fst (get_ranking_metrics fns ranks)).
Proof.
  unfold get_ranking_metrics, ALL_TYPE_FUNCS. cbn [map fst].
  split; intros H; repeat (apply elem_of_cons in H as [H|H]; [discriminate H|]);
    inversion H.
Qed.

Lemma EXPECTED_RANKS_get (rank_type expected : string) :
  dict_get EXPECTED_RANKS rank_type = Some expected
  <-> rank_type = RANK_REALISTIC /\ expected = RANK_EXPECTED_REALISTIC.
Proof.
  unfold EXPECTED_RANKS, dict_get.
  destruct (String.eqb_spec RANK_REALISTIC rank_type) as [<-|Hne].
  - split; [intros [= <-]; auto|intros [_ ->]; reflexivity].
  - split; [discriminate|]. intros [-> _]. contradiction.
Qed.

(** One turn of the loop of [finalize]: the entries of other pairs stay,
    the adjusted entries of a pair are written only for the realistic rank
    type, and then hold the two quotients. *)
Lemma finalize_pair_spec (self : RankBasedEvaluator.t) (n : Z) (res res' : MetricResults)
    (side rank_type : string) :
  RankBasedEvaluator.finalize_pair fns self n res (side, rank_type) = inr res' ->
  (forall name s r, (s, r) <> (side, rank_type) ->
      data res' !! (name, s, r) = data res !! (name, s, r))
  /\ (rank_type <> RANK_REALISTIC ->
      data res' !! (ADJUSTED_ARITHMETIC_MEAN_RANK, side, rank_type)
      = data res !! (ADJUSTED_ARITHMETIC_MEAN_RANK, side, rank_type)
      /\ data res' !! (ADJUSTED_ARITHMETIC_MEAN_RANK_INDEX, side, rank_type)
         = data res !! (ADJUSTED_ARITHMETIC_MEAN_RANK_INDEX, side, rank_type))
  /\ (rank_type = RANK_REALISTIC ->
      RankBasedEvaluator._get_ranks self side RANK_REALISTIC <> [] ->
      RankBasedEvaluator._get_ranks self side RANK_EXPECTED_REALISTIC <> [] ->
      data res' !! (ADJUSTED_ARITHMETIC_MEAN_RANK, side, rank_type)
      = Some (Num (np_mean (RankBasedEvaluator._get_ranks self side RANK_REALISTIC)
                   / np_mean (RankBasedEvaluator._get_ranks self side RANK_EXPECTED_REALISTIC)))
      /\ data res' !! (ADJUSTED_ARITHMETIC_MEAN_RANK_INDEX, side, rank_type)
         = Some (Num (1 - (np_mean (RankBasedEvaluator._get_ranks self side RANK_REALISTIC) - 1)
                          / (np_mean (RankBasedEvaluator._get_ranks self side
                                        RANK_EXPECTED_REALISTIC) - 1)))).
Proof.
  unfold RankBasedEvaluator.finalize_pair.
  set (ranks := RankBasedEvaluator._get_ranks self side rank_type).
  destruct (Nat.ltb_spec (length ranks) 1) as [Hempty|Hsome].
  { intros [= <-]. split; [auto|]. split; [auto|].
    intros -> Hr _. subst ranks. destruct (RankBasedEvaluator._get_ranks _ _ _);
      [contradiction|simpl in Hempty; lia]. }
  set (hits := map _ (RankBasedEvaluator.ks self)).
  set (res2 := foldl _ (set_hits side rank_type hits res) (get_ranking_metrics fns ranks)).
  assert (Hother : forall name s r,
            ((s, r) <> (side, rank_type)) \/ (name ∉ map fst (get_ranking_metrics fns ranks)) ->
            data res2 !! (name, s, r) = data res !! (name, s, r)).
  { intros name s r H. subst res2. rewrite write_metrics_other by exact H.
    rewrite data_set_hits. reflexivity. }
  assert (Hmean : data res2 !! (ARITHMETIC_MEAN_RANK, side, rank_type)
                  = Some (Num (np_mean ranks))).
  { subst res2. apply write_metrics_mean. }
  destruct (adjusted_not_written ranks) as [Hadj Hidx].
  destruct (dict_get EXPECTED_RANKS rank_type) as [expected_rank_type|] eqn:Hexp.
  - apply EXPECTED_RANKS_get in Hexp as [-> ->].
    set (expected := RankBasedEvaluator._get_ranks self side RANK_EXPECTED_REALISTIC).
    destruct (Nat.ltb_spec 0 (length expected)) as [Hpos|Hnone].
    + unfold get_number at 1. rewrite Hmean. cbn [bind].
      unfold py_div at 1.
      destruct (Qeq_bool (np_mean expected) 0); [discriminate|]. cbn [bind].
      unfold get_number. rewrite data_set_metric.
      rewrite lookup_insert_ne by (intros [= Hname]; discriminate Hname).
      rewrite Hmean. cbn [bind].
      unfold py_div.
      destruct (Qeq_bool (np_mean expected - 1) 0); [discriminate|]. cbn [bind].
      intros [= <-]. rewrite !data_set_metric.
      split; [|split].
      * intros name s r Hne.
        rewrite !lookup_insert_ne by (intros [= ? ? ?]; subst; congruence).
        apply Hother. now left.
      * intros Hne. contradiction.
      * intros _ _ _. split.
        -- rewrite lookup_insert_ne by (intros [= Hname]; discriminate Hname).
           apply lookup_insert_eq.
        -- apply lookup_insert_eq.
    + intros [= <-]. split; [|split].
      * intros name s r Hne. apply Hother. now left.
      * intros Hne. contradiction.
      * intros _ _ Hexpected. subst expected.
        destruct (RankBasedEvaluator._get_ranks self side RANK_EXPECTED_REALISTIC);
          [contradiction|simpl in Hnone; lia].
  - intros [= <-]. split; [|split].
    + intros name s r Hne. apply Hother. now left.
    + intros _. split; apply Hother; now right.
    + intros ->. discriminate Hexp.
Qed.

(** The loop of [finalize] over a list of pairs. *)
Lemma finalize_pairs_spec (self : RankBasedEvaluator.t) (n : Z)
    (pairs : list (string * string)) (res res' : MetricResults) :
  foldM (RankBasedEvaluator.finalize_pair fns self n) res pairs = inr res' ->
  (forall name s r, (s, r) ∉ pairs ->
      data res' !! (name, s, r) = data res !! (name, s, r))
  /\ (forall s r, r <> RANK_REALISTIC ->
        data res' !! (ADJUSTED_ARITHMETIC_MEAN_RANK, s, r)
        = data res !! (ADJUSTED_ARITHMETIC_MEAN_RANK, s, r)
        /\ data res' !! (ADJUSTED_ARITHMETIC_MEAN_RANK_INDEX, s, r)
           = data res !! (ADJUSTED_ARITHMETIC_MEAN_RANK_INDEX, s, r))
  /\ (forall side,
        NoDup pairs -> (side, RANK_REALISTIC) ∈ pairs ->
        RankBasedEvaluator._get_ranks self side RANK_REALISTIC <> [] ->
        RankBasedEvaluator._get_ranks self side RANK_EXPECTED_REALISTIC <> [] ->
        data res' !! (ADJUSTED_ARITHMETIC_MEAN_RANK, side, RANK_REALISTIC)
        = Some (Num (np_mean (RankBasedEvaluator._get_ranks self side RANK_REALISTIC)
                     / np_mean (RankBasedEvaluator._get_ranks self side
                                  RANK_EXPECTED_REALISTIC)))
        /\ data res' !! (ADJUSTED_ARITHMETIC_MEAN_RANK_INDEX, side, RANK_REALISTIC)
           = Some (Num (1 - (np_mean (RankBasedEvaluator._get_ranks self side RANK_REALISTIC)
                             - 1)
                            / (np_mean (RankBasedEvaluator._get_ranks self side
                                          RANK_EXPECTED_REALISTIC) - 1)))).
Proof.
  revert res. induction pairs as [|[s0 r0] pairs IH]; intros res.
  - intros [= <-]. split; [auto|]. split; [auto|].
    intros side _ Hin. inversion Hin.
  - rewrite foldM_cons.
    destruct (RankBasedEvaluator.finalize_pair fns self n res (s0, r0)) as [e|res1] eqn:Hstep;
      [discriminate|].
    cbn [bind]. intros Hfold.
    apply finalize_pair_spec in Hstep as (Hother1 & Hplain1 & Hreal1).
    destruct (IH res1 Hfold) as (Hother & Hplain & Hreal).
    split; [|split].
    + intros name s r Hnot. apply not_elem_of_cons in Hnot as [Hne Hnot].
      rewrite (Hother name s r Hnot). now apply Hother1.
    + intros s r Hr. destruct (Hplain s r Hr) as [Ha Hb]. rewrite Ha, Hb.
      destruct (decide ((s, r) = (s0, r0))) as [[= -> ->]|Hne].
      * now apply Hplain1.
      * split; now apply Hother1.
    + intros side Hnodup Hin Hranks Hexpected.
      apply NoDup_cons in Hnodup as [Hfresh Hnodup].
      apply elem_of_cons in Hin as [[= <- <-]|Hin].
      * rewrite !(Hother _ _ _ Hfresh). now apply Hreal1.
      * now apply Hreal.
Qed.

End AdjustedMetrics.

(** C7.  When [finalize] of the micro accumulator returns and, for a side,
    the realistic buffer and the expected realistic buffer are not empty,
    the results hold for the side and the realistic rank type the adjusted
    arithmetic mean rank, the mean rank over the mean expected rank, and its
    index, one minus the quotient of the two means each lessened by one; no
    entry of these two metrics is written for another rank type. *)
Theorem finalize_adjusted_metrics (fns : Irrational) (self self' : RankBasedEvaluator.t)
    (res : MetricResults) :
  RankBasedEvaluator.finalize fns self = inr (res, self') ->
  (forall side,
      side ∈ SIDES ->
      RankBasedEvaluator._get_ranks self side RANK_REALISTIC <> [] ->
      RankBasedEvaluator._get_ranks self side RANK_EXPECTED_REALISTIC <> [] ->
      data res !! (ADJUSTED_ARITHMETIC_MEAN_RANK, side, RANK_REALISTIC)
      = Some (Num (np_mean (RankBasedEvaluator._get_ranks self side RANK_REALISTIC)
                   / np_mean (RankBasedEvaluator._get_ranks self side
                                RANK_EXPECTED_REALISTIC)))
      /\ data res !! (ADJUSTED_ARITHMETIC_MEAN_RANK_INDEX, side, RANK_REALISTIC)
         = Some (Num (1 - (np_mean (RankBasedEvaluator._get_ranks self side RANK_REALISTIC) - 1)
                          / (np_mean (RankBasedEvaluator._get_ranks self side
                                        RANK_EXPECTED_REALISTIC) - 1))))
  /\ (forall side rank_type,
        rank_type <> RANK_REALISTIC ->
        data res !! (ADJUSTED_ARITHMETIC_MEAN_RANK, side, rank_type) = None
        /\ data res !! (ADJUSTED_ARITHMETIC_MEAN_RANK_INDEX, side, rank_type) = None).
Proof.
  unfold RankBasedEvaluator.finalize.
  destruct (RankBasedEvaluator.num_entities self) as [n|]; [|discriminate].
  destruct (foldM (RankBasedEvaluator.finalize_pair fns self n) empty_results
                  (product SIDES RANK_TYPES)) as [e|res0] eqn:Hfold; [discriminate|].
  cbn [bind]. intros [= <- <-].
  apply finalize_pairs_spec in Hfold as (_ & Hplain & Hreal).
  split.
  - intros side Hside. apply Hreal.
    + apply (bool_decide_unpack _). vm_compute. exact I.
    + apply list_elem_of_In in Hside. simpl in Hside.
      destruct Hside as [<-|[<-|[<-|[]]]]; apply (bool_decide_unpack _); vm_compute; exact I.
  - intros side rank_type Hr. destruct (Hplain side rank_type Hr) as [-> ->].
    split; apply lookup_empty.
Qed.

(** The example of the specification: realistic ranks of mean 2 and
    expected realistic ranks of mean 4 give 1/2 and 2/3. *)
Lemma finalize_adjusted_metrics_witness :
  exists self res self',
    example_adjusted_run = inr self
    /\ RankBasedEvaluator.finalize example_fns self = inr (res, self')
    /\ ((forall side,
            side ∈ SIDES ->
            RankBasedEvaluator._get_ranks self side RANK_REALISTIC <> [] ->
            RankBasedEvaluator._get_ranks self side RANK_EXPECTED_REALISTIC <> [] ->
            data res !! (ADJUSTED_ARITHMETIC_MEAN_RANK, side, RANK_REALISTIC)
            = Some (Num (np_mean (RankBasedEvaluator._get_ranks self side RANK_REALISTIC)
                         / np_mean (RankBasedEvaluator._get_ranks self side
                                      RANK_EXPECTED_REALISTIC)))
            /\ data res !! (ADJUSTED_ARITHMETIC_MEAN_RANK_INDEX, side, RANK_REALISTIC)
               = Some (Num (1 - (np_mean (RankBasedEvaluator._get_ranks self side
                                            RANK_REALISTIC) - 1)
                                / (np_mean (RankBasedEvaluator._get_ranks self side
                                              RANK_EXPECTED_REALISTIC) - 1))))
        /\ (forall side rank_type,
              rank_type <> RANK_REALISTIC ->
              data res !! (ADJUSTED_ARITHMETIC_MEAN_RANK, side, rank_type) = None
              /\ data res !! (ADJUSTED_ARITHMETIC_MEAN_RANK_INDEX, side, rank_type) = None))
    /\ np_mean (RankBasedEvaluator._get_ranks self LABEL_HEAD RANK_REALISTIC) == 2
    /\ np_mean (RankBasedEvaluator._get_ranks self LABEL_HEAD RANK_EXPECTED_REALISTIC) == 4
    /\ exists adjusted index,
         data res !! (ADJUSTED_ARITHMETIC_MEAN_RANK, LABEL_HEAD, RANK_REALISTIC)
         = Some (Num adjusted)
         /\ adjusted == 1 # 2
         /\ data res !! (ADJUSTED_ARITHMETIC_MEAN_RANK_INDEX, LABEL_HEAD, RANK_REALISTIC)
            = Some (Num index)
         /\ index == 2 # 3.
Proof.
  pose (blank := RankBasedEvaluator.mk [] ∅ None).
  pose (self := from_ok blank example_adjusted_run).
  pose (out := from_ok (empty_results, blank)
                       (RankBasedEvaluator.finalize example_fns self)).
  assert (Hrun : example_adjusted_run = inr self)
    by (apply is_ok_inr; vm_compute; reflexivity).
  assert (Hfin : RankBasedEvaluator.finalize example_fns self = inr (out.1, out.2)).
  { rewrite <- surjective_pairing. apply is_ok_inr. vm_compute. reflexivity. }
  pose proof (finalize_adjusted_metrics example_fns self out.2 out.1 Hfin) as Hthm.
  exists self, out.1, out.2.
  split; [exact Hrun|]. split; [exact Hfin|]. split; [exact Hthm|].
  split; [vm_compute; reflexivity|]. split; [vm_compute; reflexivity|].
  destruct Hthm as [Hreal _].
  destruct (Hreal LABEL_HEAD) as [Hadjusted Hindex].
  - apply (bool_decide_unpack _). vm_compute. exact I.
  - vm_compute. discriminate.
  - vm_compute. discriminate.
  - eexists. eexists. split; [exact Hadjusted|]. split; [vm_compute; reflexivity|].
    split; [exact Hindex|]. vm_compute. reflexivity.
Defined.

(** * The weights of the macro accumulator *)

Lemma Qsum_cons (x : Q) (xs : list Q) : Qsum (x :: xs) = x + Qsum xs.
Proof. reflexivity. Qed.

Lemma Qsum_nil : Qsum [] = 0.
Proof. reflexivity. Qed.

Lemma Qsum_map_ext {A : Type} (f g : A -> Q) (xs : list A) :
  (forall x, x ∈ xs -> f x == g x) -> Qsum (map f xs) == Qsum (map g xs).
Proof.
  induction xs as [|x xs IH]; intros H; cbn [map]; [reflexivity|].
  rewrite !Qsum_cons. rewrite (H x) by left. rewrite IH; [reflexivity|].
  intros y Hy. apply H. now right.
Qed.

Lemma Qsum_map_plus {A : Type} (f g : A -> Q) (xs : list A) :
  Qsum (map (fun x => f x + g x) xs) == Qsum (map f xs) + Qsum (map g xs).
Proof.
  induction xs as [|x xs IH]; cbn [map]; rewrite ?Qsum_cons, ?Qsum_nil; [ring|].
  rewrite IH. ring.
Qed.

Lemma Qsum_map_zero {A : Type} (xs : list A) :
  Qsum (map (fun _ => 0) xs) == 0.
Proof.
  induction xs as [|x xs IH]; cbn [map]; rewrite ?Qsum_cons, ?Qsum_nil; [reflexivity|].
  rewrite IH. ring.
Qed.

Lemma Qsum_map_scale {A : Type} (f : A -> Q) (c : Q) (xs : list A) :
  Qsum (map (fun x => f x * c) xs) == Qsum (map f xs) * c.
Proof.
  induction xs as [|x xs IH]; cbn [map]; rewrite ?Qsum_cons, ?Qsum_nil; [ring|].
  rewrite IH. ring.
Qed.

Lemma Qsum_map_const {A : Type} (c : Q) (xs : list A) :
  Qsum (map (fun _ => c) xs) == Qlen xs * c.
Proof.
  unfold Qlen. induction xs as [|x xs IH]; cbn [map length];
    rewrite ?Qsum_cons, ?Qsum_nil; [ring|].
  rewrite IH, Nat2Z.inj_succ. unfold Z.succ. rewrite inject_Z_plus. ring.
Qed.

(** One key among distinct keys: the sum of an indicator. *)
Lemma Qsum_indicator (key : Z * Z) (c : Q) (unique : list (Z * Z)) :
  NoDup unique -> key ∈ unique ->
  Qsum (map (fun u => if row_eqb u key then c else 0) unique) == c.
Proof.
  induction unique as [|u unique IH]; intros Hnodup Hin; [inversion Hin|].
  apply NoDup_cons in Hnodup as [Hfresh Hnodup]. cbn [map]. rewrite Qsum_cons.
  destruct (row_eqb u key) eqn:Heq.
  - apply row_eqb_eq in Heq as ->.
    rewrite (Qsum_map_ext _ (fun _ => 0)).
    + rewrite Qsum_map_zero. ring.
    + intros v Hv. destruct (row_eqb v key) eqn:Hvk; [|reflexivity].
      apply row_eqb_eq in Hvk as ->. contradiction.
  - apply elem_of_cons in Hin as [->|Hin].
    + assert (row_eqb u u = true) by now apply row_eqb_eq. congruence.
    + rewrite IH by assumption. ring.
Qed.

(** A sum over observations is the sum over the distinct keys of the sums
    over the observations of each key. *)
Lemma Qsum_by_key (g : (Z * Z) * Q -> Q) (unique : list (Z * Z))
    (pairs : list ((Z * Z) * Q)) :
  NoDup unique -> (forall p, p ∈ pairs -> p.1 ∈ unique) ->
  Qsum (map g pairs)
  == Qsum (map (fun u => Qsum (map g (filter (fun p : (Z * Z) * Q => row_eqb u p.1 = true)
                                             pairs))) unique).
Proof.
  intros Hnodup. induction pairs as [|p pairs IH]; intros Hin.
  - cbn [map filter]. rewrite Qsum_nil, Qsum_map_zero. reflexivity.
  - cbn [map]. rewrite Qsum_cons.
    rewrite IH by (intros q Hq; apply Hin; now right).
    rewrite (Qsum_map_ext
               (fun u => Qsum (map g (filter (fun q : (Z * Z) * Q => row_eqb u q.1 = true)
                                             (p :: pairs))))
               (fun u => (if row_eqb u p.1 then g p else 0)
                         + Qsum (map g (filter (fun q : (Z * Z) * Q => row_eqb u q.1 = true)
                                               pairs)))).
    + rewrite Qsum_map_plus, Qsum_indicator; [reflexivity|assumption|].
      apply Hin. left.
    + intros u _. rewrite filter_cons.
      destruct (decide (row_eqb u p.1 = true)) as [Heq|Hne].
      * rewrite Heq. cbn [map]. rewrite Qsum_cons. reflexivity.
      * apply not_true_is_false in Hne. rewrite Hne. ring.
Qed.

Lemma row_ltb_trans (a b c : Z * Z) :
  row_ltb a b = true -> row_ltb b c = true -> row_ltb a c = true.
Proof.
  destruct a as [a1 a2], b as [b1 b2], c as [c1 c2]. unfold row_ltb. cbn.
  rewrite !orb_true_iff, !andb_true_iff, !Z.ltb_lt, !Z.eqb_eq. lia.
Qed.

Lemma row_ltb_irrefl (a : Z * Z) : row_ltb a a = false.
Proof.
  destruct a as [a1 a2]. unfold row_ltb. cbn.
  rewrite Z.ltb_irrefl, Z.eqb_refl, Z.ltb_irrefl. reflexivity.
Qed.

Lemma row_ltb_total (a b : Z * Z) :
  row_eqb a b = false -> row_ltb a b = false -> row_ltb b a = true.
Proof.
  destruct a as [a1 a2], b as [b1 b2]. unfold row_ltb, row_eqb. cbn.
  rewrite !orb_false_iff, !andb_false_iff, orb_true_iff, andb_true_iff,
          !Z.ltb_ge, !Z.ltb_lt, !Z.eqb_neq, Z.eqb_eq.
  lia.
Qed.

(** The distinct rows come out in strictly ascending order. *)
Lemma insert_row_sorted (x : Z * Z) (xs : list (Z * Z)) :
  StronglySorted (fun a b => row_ltb a b = true) xs ->
  StronglySorted (fun a b => row_ltb a b = true) (insert_row x xs).
Proof.
  induction xs as [|y ys IH]; intros Hsorted; cbn [insert_row].
  - repeat constructor.
  - destruct (row_eqb x y) eqn:Heq; [assumption|].
    apply StronglySorted_inv in Hsorted as [Hys Hy].
    destruct (row_ltb x y) eqn:Hlt.
    + constructor; [constructor; assumption|].
      constructor; [assumption|].
      rewrite Forall_forall in Hy |- *. intros z Hz.
      eapply row_ltb_trans; [exact Hlt|]. now apply Hy.
    + constructor; [now apply IH|].
      rewrite Forall_forall in Hy |- *. intros z Hz.
      apply insert_row_elem in Hz as [->|Hz]; [|now apply Hy].
      now apply row_ltb_total.
Qed.

Lemma unique_rows_NoDup (keys : list (Z * Z)) : NoDup (unique_rows keys).
Proof.
  assert (Hsorted : StronglySorted (fun a b => row_ltb a b = true) (unique_rows keys)).
  { unfold unique_rows. induction keys as [|k keys IH]; cbn [foldr]; [constructor|].
    now apply insert_row_sorted. }
  induction Hsorted as [|x xs Hxs IH Hx]; constructor; [|assumption].
  intros Hin. rewrite Forall_forall in Hx. specialize (Hx x Hin).
  rewrite row_ltb_irrefl in Hx. discriminate Hx.
Qed.

Lemma row_index_lookup (key : Z * Z) (unique : list (Z * Z)) :
  key ∈ unique -> unique !! row_index key unique = Some key.
Proof.
  induction unique as [|u unique IH]; intros Hin; [inversion Hin|].
  cbn [row_index]. destruct (row_eqb key u) eqn:Heq.
  - apply row_eqb_eq in Heq as ->. reflexivity.
  - apply elem_of_cons in Hin as [->|Hin].
    + assert (row_eqb u u = true) by now apply row_eqb_eq. congruence.
    + cbn. now apply IH.
Qed.

Lemma np_take_row_index {A : Type} (f : Z * Z -> A) (unique keys : list (Z * Z)) :
  (forall key, key ∈ keys -> key ∈ unique) ->
  np_take (map f unique) (map (fun key => row_index key unique) keys) = inr (map f keys).
Proof.
  induction keys as [|k keys IH]; intros Hin; [reflexivity|].
  cbn [map np_take].
  change (map f unique !! row_index k unique) with ((f <$> unique) !! row_index k unique).
  rewrite list_lookup_fmap, row_index_lookup by (apply Hin; left). cbn [fmap option_fmap option_map].
  rewrite IH by (intros key Hkey; apply Hin; now right). reflexivity.
Qed.

(** The weights of [finalize]: each observation weighs the reciprocal of
    the number of observations of its key. *)
Lemma macro_weights_eq (keys : list (Z * Z)) :
  MacroRankBasedEvaluator.macro_weights keys
  = inr (map (fun key => / inject_Z (Z.of_nat (count_row key keys))) keys).
Proof.
  unfold MacroRankBasedEvaluator.macro_weights, np_unique.
  rewrite map_map. apply np_take_row_index.
  intros key Hkey. now apply unique_rows_elem.
Qed.

Lemma count_row_cons (key k : Z * Z) (keys : list (Z * Z)) :
  count_row key (k :: keys)
  = if row_eqb key k then S (count_row key keys) else count_row key keys.
Proof.
  unfold count_row. rewrite filter_cons.
  destruct (decide (row_eqb key k = true)) as [Heq|Hne].
  - rewrite Heq. reflexivity.
  - apply not_true_is_false in Hne. rewrite Hne. reflexivity.
Qed.

Lemma count_row_pos (key : Z * Z) (keys : list (Z * Z)) :
  key ∈ keys -> (0 < count_row key keys)%nat.
Proof.
  induction keys as [|k keys IH]; intros Hin; [inversion Hin|].
  rewrite count_row_cons. destruct (row_eqb key k) eqn:Heq; [lia|].
  apply elem_of_cons in Hin as [->|Hin]; [|auto].
  assert (row_eqb k k = true) by now apply row_eqb_eq. congruence.
Qed.

(** The pairs of a key among the observations: as many as the key has
    observations, when every key has a value. *)
Lemma filter_key_length (key : Z * Z) (keys : list (Z * Z)) (xs : list Q) :
  length xs = length keys ->
  length (filter (fun p : (Z * Z) * Q => row_eqb key p.1 = true) (zip keys xs))
  = count_row key keys.
Proof.
  revert xs. induction keys as [|k keys IH]; intros [|x xs] Hlen; try discriminate Hlen;
    [reflexivity|].
  cbn [zip zip_with]. rewrite filter_cons, count_row_cons. cbn [fst].
  injection Hlen as Hlen.
  destruct (decide (row_eqb key k = true)) as [Heq|Hne].
  - rewrite Heq. cbn [length]. f_equal. now apply IH.
  - apply not_true_is_false in Hne. rewrite Hne. now apply IH.
Qed.

Lemma values_of_key_length (key : Z * Z) (keys : list (Z * Z)) (xs : list Q) :
  length xs = length keys ->
  length (values_of_key key keys xs) = count_row key keys.
Proof.
  intros Hlen. unfold values_of_key. rewrite length_map. now apply filter_key_length.
Qed.

Lemma filter_key_fst (key : Z * Z) (pairs : list ((Z * Z) * Q)) (p : (Z * Z) * Q) :
  p ∈ filter (fun q : (Z * Z) * Q => row_eqb key q.1 = true) pairs -> p.1 = key.
Proof.
  intros Hp. apply list_elem_of_filter in Hp as [Heq _].
  apply row_eqb_eq in Heq. congruence.
Qed.

Lemma zip_with_weights (f : Z * Z -> Q) (keys : list (Z * Z)) (xs : list Q) :
  length xs = length keys ->
  zip_with Qmult xs (map f keys)
  = map (fun p : (Z * Z) * Q => p.2 * f p.1) (zip keys xs).
Proof.
  revert xs. induction keys as [|k keys IH]; intros [|x xs] Hlen; try discriminate Hlen;
    [reflexivity|].
  injection Hlen as Hlen. cbn [map zip zip_with fst snd]. f_equal. now apply IH.
Qed.

Lemma map_weights_zip (f : Z * Z -> Q) (keys : list (Z * Z)) (xs : list Q) :
  length xs = length keys ->
  map f keys = map (fun p : (Z * Z) * Q => f p.1) (zip keys xs).
Proof.
  revert xs. induction keys as [|k keys IH]; intros [|x xs] Hlen; try discriminate Hlen;
    [reflexivity|].
  injection Hlen as Hlen. cbn [map zip zip_with fst]. f_equal. now apply IH.
Qed.

Lemma zip_fst_elem (keys : list (Z * Z)) (xs : list Q) (p : (Z * Z) * Q) :
  p ∈ zip keys xs -> p.1 ∈ keys.
Proof.
  revert xs. induction keys as [|k keys IH]; intros [|x xs] Hp; try (inversion Hp; fail).
  cbn [zip zip_with] in Hp. apply elem_of_cons in Hp as [->|Hp]; [left|].
  right. eapply IH; eauto.
Qed.

Lemma Qlen_pos_inv (n : nat) : (0 < n)%nat -> ~ inject_Z (Z.of_nat n) == 0.
Proof.
  intros Hn Heq. unfold Qeq in Heq. cbn in Heq. lia.
Qed.

Lemma zip_map_snd (f : Z * Z -> Q) (keys : list (Z * Z)) (p : (Z * Z) * Q) :
  p ∈ zip keys (map f keys) -> p.2 = f p.1.
Proof.
  induction keys as [|k keys IH]; intros Hp; [inversion Hp|].
  cbn [map zip zip_with] in Hp. apply elem_of_cons in Hp as [->|Hp]; [reflexivity|auto].
Qed.

Section MacroWeights.

Variable keys : list (Z * Z).

(** The weight of a key. *)
Let weight (key : Z * Z) : Q := / inject_Z (Z.of_nat (count_row key keys)).

(** Within a key the weights sum to one. *)
Lemma key_mass (xs : list Q) (key : Z * Z) :
  length xs = length keys -> key ∈ keys ->
  Qsum (map (fun p : (Z * Z) * Q => weight p.1)
            (filter (fun p : (Z * Z) * Q => row_eqb key p.1 = true) (zip keys xs)))
  == 1.
Proof.
  intros Hlen Hkey.
  rewrite (Qsum_map_ext _ (fun _ => weight key)).
  - rewrite Qsum_map_const. unfold Qlen. rewrite filter_key_length by assumption.
    unfold weight. field. apply Qlen_pos_inv. now apply count_row_pos.
  - intros p Hp. apply filter_key_fst in Hp. rewrite Hp. reflexivity.
Qed.

(** Within a key the weighted ranks sum to the mean rank of the key. *)
Lemma key_mean (ranks : list Q) (key : Z * Z) :
  length ranks = length keys ->
  Qsum (map (fun p : (Z * Z) * Q => p.2 * weight p.1)
            (filter (fun p : (Z * Z) * Q => row_eqb key p.1 = true) (zip keys ranks)))
  == np_mean (values_of_key key keys ranks).
Proof.
  intros Hlen.
  rewrite (Qsum_map_ext _ (fun p => p.2 * weight key)).
  - rewrite Qsum_map_scale. unfold np_mean, Qlen.
    rewrite values_of_key_length by assumption.
    unfold values_of_key, weight. reflexivity.
  - intros p Hp. apply filter_key_fst in Hp. rewrite Hp. reflexivity.
Qed.

Lemma total_mass (xs : list Q) :
  length xs = length keys ->
  Qsum (map weight keys) == Qlen (unique_rows keys).
Proof.
  intros Hlen. rewrite (map_weights_zip weight keys xs Hlen).
  rewrite (Qsum_by_key _ (unique_rows keys)).
  - rewrite (Qsum_map_ext _ (fun _ => 1)).
    + rewrite Qsum_map_const. ring.
    + intros u Hu. apply key_mass; [assumption|]. now apply unique_rows_elem.
  - apply unique_rows_NoDup.
  - intros p Hp. apply unique_rows_elem. eapply zip_fst_elem; eauto.
Qed.

Lemma weighted_total (ranks : list Q) :
  length ranks = length keys ->
  Qsum (zip_with Qmult ranks (map weight keys))
  == Qsum (map (fun key => np_mean (values_of_key key keys ranks)) (unique_rows keys)).
Proof.
  intros Hlen. rewrite (zip_with_weights weight keys ranks Hlen).
  rewrite (Qsum_by_key _ (unique_rows keys)).
  - apply Qsum_map_ext. intros u _. now apply key_mean.
  - apply unique_rows_NoDup.
  - intros p Hp. apply unique_rows_elem. eapply zip_fst_elem; eauto.
Qed.

End MacroWeights.

(** ** The weights of the macro aggregation *)

(** The weights [finalize] computes for the keys of a side: the reciprocal
    of the number of observations of the key of each observation, so that
    the weights of each key sum to one. *)
Lemma key_weights_equal_mass (keys : list (Z * Z)) :
  MacroRankBasedEvaluator.macro_weights keys = inr (key_weights keys)
  /\ (forall i key,
        keys !! i = Some key ->
        key_weights keys !! i = Some (/ inject_Z (Z.of_nat (count_row key keys))))
  /\ (forall key, key ∈ keys -> Qsum (values_of_key key keys (key_weights keys)) == 1).
Proof.
  unfold key_weights.
  set (weight := fun key : Z * Z => / inject_Z (Z.of_nat (count_row key keys))).
  split; [apply macro_weights_eq|]. split.
  - intros i key Hi.
    change (map weight keys !! i) with ((weight <$> keys) !! i).
    rewrite list_lookup_fmap, Hi. reflexivity.
  - intros key Hkey. unfold values_of_key.
    rewrite (Qsum_map_ext snd (fun p : (Z * Z) * Q => weight p.1)).
    + apply (key_mass keys (map weight keys) key); [apply length_map|assumption].
    + intros p Hp. apply list_elem_of_filter in Hp as [_ Hp].
      apply zip_map_snd in Hp. rewrite Hp. reflexivity.
Qed.

(** With these weights the weighted mean of the ranks, the first metric of
    [get_macro_ranking_metrics], is the simple average over the distinct
    keys of the mean rank of each key. *)
Lemma key_weights_mean (keys : list (Z * Z)) (ranks : list Q) :
  length ranks = length keys -> keys <> [] ->
  exists mean,
    np_average ranks (key_weights keys) = inr mean
    /\ mean == average_of_key_means keys ranks.
Proof.
  intros Hlen Hne. unfold key_weights.
  set (weight := fun key : Z * Z => / inject_Z (Z.of_nat (count_row key keys))).
  assert (Htotal : Qsum (map weight keys) == Qlen (unique_rows keys))
    by (apply (total_mass keys ranks Hlen)).
  assert (Hpos : ~ Qlen (unique_rows keys) == 0).
  { apply Qlen_pos_inv. destruct keys as [|k keys']; [congruence|].
    assert (Hk : k ∈ unique_rows (k :: keys')) by (apply unique_rows_elem; left).
    destruct (unique_rows (k :: keys')); [inversion Hk|cbn; lia]. }
  assert (Haverage : np_average ranks (map weight keys)
                     = inr (Qsum (zip_with Qmult ranks (map weight keys))
                            / Qsum (map weight keys))).
  { unfold np_average.
    destruct (Qeq_bool (Qsum (map weight keys)) 0) eqn:Hzero; [|reflexivity].
    apply Qeq_bool_eq in Hzero. rewrite Htotal in Hzero. contradiction. }
  eexists. split; [exact Haverage|].
  unfold average_of_key_means. subst weight. cbv beta.
  rewrite (weighted_total keys ranks Hlen), Htotal. reflexivity.
Qed.

(** The example of the specification: three observations under one key and
    one under another weigh 1/3, 1/3, 1/3 and 1; the weighted mean of the
    ranks 1, 2, 3 and 4 is 3, the average of the key means 2 and 4, and not
    the plain mean 5/2. *)
Example key_weights_example :
  MacroRankBasedEvaluator.macro_weights [(0, 1); (0, 1); (0, 1); (2, 3)]%Z
  = inr [1 # 3; 1 # 3; 1 # 3; 1]
  /\ exists mean,
       np_average [1; 2; 3; 4] [1 # 3; 1 # 3; 1 # 3; 1] = inr mean
       /\ mean == 3
       /\ ~ mean == np_mean [1; 2; 3; 4].
Proof.
  split; [reflexivity|].
  eexists. split; [vm_compute; reflexivity|].
  split; [vm_compute; reflexivity|]. intros H. vm_compute in H. discriminate H.
Qed.

(** * Further properties of the code *)

(** ** Metric keys *)

Lemma take_while_app (p : ascii -> bool) (run rest : string) :
  str_forallb p run = true ->
  match rest with EmptyString => True | String c _ => p c = false end ->
  take_while p (run ++ rest) = (run, rest).
Proof.
  intros Hrun Hrest. induction run as [|c run IH]; simpl.
  - destruct rest as [|c rest]; [reflexivity|]. simpl. rewrite Hrest. reflexivity.
  - simpl in Hrun. apply andb_prop in Hrun as [Hc Hrun]. rewrite Hc, (IH Hrun). reflexivity.
Qed.

Lemma METRIC_PATTERN_match_app (synonyms : list (string * string)) (name rest : string) :
  name <> EmptyString -> str_forallb is_name_char name = true ->
  starts_with_name rest = false ->
  MetricKey.METRIC_PATTERN_match synonyms (name ++ rest)
  = let '(side, s2) := match_dot_alternatives SIDES rest in
    let '(rank_type, s3) :=
      match_dot_alternatives (MetricKey.TYPE_ALTERNATIVES synonyms) s2 in
    let '(k, s4) := match_dot_digits s3 in
    Some (mkMetricMatch name side rank_type k s4).
Proof.
  intros Hne Hname Hrest. unfold MetricKey.METRIC_PATTERN_match.
  rewrite take_while_app; [|assumption|destruct rest; [exact I|exact Hrest]].
  destruct name; [congruence|reflexivity].
Qed.

(** X1.  Of the eight ways [MetricKey.lookup] can raise, five are left: the
    invalid specification naming the string itself, the assertion on [k],
    the error of an invalid [k], the invalid rank type and the restriction
    to the realistic type.  The error of an invalid [k] is raised only for
    a number of more digits than [int] accepts.  The errors for a missing
    name, for a negative [k] and for an invalid side are never raised,
    whatever the string and the table of synonyms. *)
Theorem lookup_raises_only (synonyms : list (string * string)) (s : string)
    (e : LookupError) :
  MetricKey.lookup synonyms s = inl e ->
  e = InvalidMetricName s
  \/ e = KNotAnInteger
  \/ (exists text, e = InvalidK text /\ (int_max_str_digits < String.length text)%nat)
  \/ (exists rank_type, e = InvalidRankType rank_type)
  \/ (exists name rank_type, e = RealisticOnly name rank_type).
Proof.
  unfold MetricKey.lookup.
  destruct (MetricKey.METRIC_PATTERN_match synonyms s) as [m|] eqn:Hm;
    [|intros [= <-]; auto].
  apply METRIC_PATTERN_match_Some in Hm as (Hname & Hside & Htype & Hk).
  pose proof (resolve_name_inv m Hname Hk) as Hn.
  destruct (MetricKey.resolve_name m) as [e'|[name k]].
  - cbn [bind]. intros [= <-].
    destruct Hn as [[-> _]|(text & -> & Hlen & _)]; [auto|].
    right. right. left. exists text. auto.
  - cbn [bind]. destruct (resolve_side_ok m Hside) as (side & -> & _). cbn [bind].
    unfold MetricKey.resolve_rank_type.
    destruct (negb (str_in _ RANK_TYPES)); [intros [= <-]; eauto 6|].
    destruct (negb _ && _); [intros [= <-]; eauto 8|].
    discriminate.
Qed.

Lemma lookup_raises_only_witness :
  MetricKey.lookup example_rank_type_synonyms "mrr.5" = inl KNotAnInteger
  /\ MetricKey.lookup example_rank_type_synonyms ("hits@" ++ str_repeat "1" 4301)
     = inl (InvalidK (str_repeat "1" 4301))
  /\ (KNotAnInteger = InvalidMetricName "mrr.5"
      \/ KNotAnInteger = KNotAnInteger
      \/ (exists text,
             KNotAnInteger = InvalidK text /\ (int_max_str_digits < String.length text)%nat)
      \/ (exists rank_type, KNotAnInteger = InvalidRankType rank_type)
      \/ (exists name rank_type, KNotAnInteger = RealisticOnly name rank_type)).
Proof.
  split; [reflexivity|]. split; [vm_compute; reflexivity|].
  apply (lookup_raises_only example_rank_type_synonyms "mrr.5"). reflexivity.
Defined.

Lemma resolve_name_synonym (alias canonical : string) (side rank_type k : option string)
    (rest : string) :
  In (alias, canonical) METRIC_SYNONYMS ->
  MetricKey.resolve_name (mkMetricMatch alias side rank_type k rest)
  = MetricKey.resolve_name (mkMetricMatch canonical side rank_type k rest).
Proof.
  intros Hin. simpl in Hin.
  repeat (destruct Hin as [[= <- <-]|Hin]; [destruct k; vm_compute; reflexivity|]).
  contradiction.
Qed.

Lemma METRIC_SYNONYMS_names (alias canonical : string) :
  In (alias, canonical) METRIC_SYNONYMS ->
  (alias <> EmptyString /\ str_forallb is_name_char alias = true)
  /\ (canonical <> EmptyString /\ str_forallb is_name_char canonical = true).
Proof.
  intros Hin. simpl in Hin.
  repeat (destruct Hin as [[= <- <-]|Hin]; [repeat split; (discriminate || reflexivity)|]).
  contradiction.
Qed.

(** X2.  On ASCII text, a synonym of [METRIC_SYNONYMS] and the name it
    stands for are interchangeable: followed by the same components, they
    give the same key, or the same error. *)
Theorem lookup_synonym_agrees (synonyms : list (string * string))
    (alias canonical rest : string) :
  In (alias, canonical) METRIC_SYNONYMS ->
  str_forallb is_ascii rest = true ->
  starts_with_name rest = false ->
  MetricKey.lookup synonyms (alias ++ rest) = MetricKey.lookup synonyms (canonical ++ rest).
Proof.
  intros Hin _ Hrest.
  destruct (METRIC_SYNONYMS_names alias canonical Hin) as [[Ha1 Ha2] [Hc1 Hc2]].
  unfold MetricKey.lookup.
  rewrite !METRIC_PATTERN_match_app by assumption.
  destruct (match_dot_alternatives SIDES rest) as [side s2].
  destruct (match_dot_alternatives (MetricKey.TYPE_ALTERNATIVES synonyms) s2) as [rank_type s3].
  destruct (match_dot_digits s3) as [k s4].
  rewrite (resolve_name_synonym alias canonical side rank_type k s4 Hin).
  reflexivity.
Qed.

Lemma lookup_synonym_agrees_witness :
  MetricKey.lookup example_rank_type_synonyms "mrr.tail.worst"
  = inr (MetricKey.mk INVERSE_HARMONIC_MEAN_RANK LABEL_TAIL RANK_PESSIMISTIC None)
  /\ MetricKey.lookup example_rank_type_synonyms ("mrr" ++ ".tail.worst")
     = MetricKey.lookup example_rank_type_synonyms (INVERSE_HARMONIC_MEAN_RANK ++ ".tail.worst").
Proof.
  split; [reflexivity|].
  apply (lookup_synonym_agrees example_rank_type_synonyms "mrr" INVERSE_HARMONIC_MEAN_RANK
           ".tail.worst").
  - simpl. tauto.
  - reflexivity.
  - reflexivity.
Defined.

Lemma str_app_cons (x : ascii) (a b : string) :
  (String x a ++ b = String x (a ++ b))%string.
Proof. reflexivity. Qed.

Lemma str_app_assoc (a b c : string) : ((a ++ b) ++ c = a ++ (b ++ c))%string.
Proof.
  induction a as [|x a IH]; [reflexivity|]. rewrite !str_app_cons, IH. reflexivity.
Qed.

Lemma str_forallb_app (p : ascii -> bool) (a b : string) :
  str_forallb p (a ++ b) = str_forallb p a && str_forallb p b.
Proof.
  induction a as [|x a IH]; [reflexivity|].
  rewrite str_app_cons. cbn [str_forallb]. rewrite IH, andb_assoc. reflexivity.
Qed.

Lemma is_digit_name_char (c : ascii) : is_digit c = true -> is_name_char c = true.
Proof. unfold is_name_char, is_word. intros ->. reflexivity. Qed.

Lemma str_forallb_impl (p q : ascii -> bool) (s : string) :
  (forall c, p c = true -> q c = true) -> str_forallb p s = true -> str_forallb q s = true.
Proof.
  intros Hpq. induction s as [|c s IH]; simpl; [reflexivity|].
  intros H. apply andb_prop in H as [Hc Hs]. rewrite (Hpq c Hc), (IH Hs). reflexivity.
Qed.

Lemma ascii_lower_digit (c : ascii) : is_digit c = true -> ascii_lower c = c.
Proof.
  unfold is_digit, ascii_lower. intros H.
  apply andb_prop in H as [_ H]. apply Nat.leb_le in H.
  destruct (Nat.leb_spec 65 (nat_of_ascii c)) as [H65|_]; [lia|reflexivity].
Qed.

Lemma str_lower_digits (s : string) : str_forallb is_digit s = true -> str_lower s = s.
Proof.
  induction s as [|c s IH]; simpl; [reflexivity|].
  intros H. apply andb_prop in H as [Hc Hs]. rewrite (ascii_lower_digit c Hc), (IH Hs).
  reflexivity.
Qed.

Lemma str_replace_digits (s : string) :
  str_forallb is_digit s = true -> str_replace_char " " "_" s = s.
Proof.
  induction s as [|c s IH]; simpl; [reflexivity|].
  intros H. apply andb_prop in H as [Hc Hs]. rewrite (IH Hs).
  destruct (Ascii.eqb_spec c " "%char) as [->|_]; [discriminate Hc|reflexivity].
Qed.

Lemma str_lower_app (a b : string) : str_lower (a ++ b) = (str_lower a ++ str_lower b)%string.
Proof.
  induction a as [|x a IH]; [reflexivity|].
  rewrite str_app_cons. cbn [str_lower]. rewrite IH. reflexivity.
Qed.

Lemma str_replace_char_app (x y : ascii) (a b : string) :
  str_replace_char x y (a ++ b) = (str_replace_char x y a ++ str_replace_char x y b)%string.
Proof.
  induction a as [|c a IH]; [reflexivity|].
  rewrite str_app_cons. cbn [str_replace_char]. rewrite IH. reflexivity.
Qed.

Lemma take_while_all (p : ascii -> bool) (s : string) :
  str_forallb p s = true -> take_while p s = (s, EmptyString).
Proof.
  intros H. induction s as [|c s IH]; simpl; [reflexivity|].
  simpl in H. apply andb_prop in H as [Hc Hs]. rewrite Hc, (IH Hs). reflexivity.
Qed.

Lemma HITS_PATTERN_match_spelling (prefix digits : string) :
  In prefix HITS_PREFIXES -> digits <> EmptyString -> str_forallb is_digit digits = true ->
  HITS_PATTERN_match (prefix ++ digits) = Some digits.
Proof.
  intros Hin Hne Hd. unfold HITS_PATTERN_match.
  assert (Halt : match_alternatives ["hits_at_"; "hits@"; "h@"] (prefix ++ digits)
                 = Some (prefix, digits)).
  { simpl in Hin. destruct Hin as [<-|[<-|[<-|[]]]]; reflexivity. }
  rewrite Halt, (take_while_all is_digit digits Hd). destruct digits; congruence.
Qed.

Lemma resolve_name_spelling (prefix digits : string) (side rank_type k : option string)
    (rest : string) :
  In prefix HITS_PREFIXES -> digits <> EmptyString -> str_forallb is_digit digits = true ->
  MetricKey.resolve_name (mkMetricMatch (prefix ++ digits) side rank_type k rest)
  = match py_int digits with
    | Some z => inr (HITS_AT_K, Some z)
    | None => inl (InvalidK digits)
    end.
Proof.
  intros Hin Hne Hd.
  unfold MetricKey.resolve_name. cbn [group_name group_k].
  assert (Hname : str_replace_char " " "_" (str_lower (prefix ++ digits)) = (prefix ++ digits)%string).
  { rewrite str_lower_app, str_replace_char_app, (str_lower_digits digits Hd),
      (str_replace_digits digits Hd).
    simpl in Hin. destruct Hin as [<-|[<-|[<-|[]]]]; reflexivity. }
  rewrite Hname, (HITS_PATTERN_match_spelling prefix digits Hin Hne Hd).
  assert (Hnonempty : String.eqb (prefix ++ digits) "" = false).
  { simpl in Hin. destruct Hin as [<-|[<-|[<-|[]]]]; reflexivity. }
  rewrite Hnonempty. cbn [String.eqb Ascii.eqb HITS_AT_K].
  change (String.eqb HITS_AT_K HITS_AT_K) with true. cbv iota.
  pose proof (py_int_digits digits Hne Hd) as Hint.
  unfold MetricKey.resolve_hits_k.
  destruct (String.length digits <=? int_max_str_digits)%nat.
  - destruct Hint as (z & -> & Hpos). cbn.
    destruct (Z.ltb_spec z 0) as [?|_]; [lia|]. reflexivity.
  - rewrite Hint. reflexivity.
Qed.

(** X3.  On ASCII text, the three spellings of hits at k that carry the
    number in the name, [hits_at_5], [hits@5] and [h@5], are
    interchangeable: they give the same key, or the same error.  The key has
    the name [hits_at_k] and the number of the name as [k], also when a
    component [.k] follows, which is then not read. *)
Theorem lookup_hits_spelling (synonyms : list (string * string))
    (prefix digits rest : string) :
  In prefix HITS_PREFIXES ->
  digits <> EmptyString -> str_forallb is_digit digits = true ->
  str_forallb is_ascii rest = true ->
  starts_with_name rest = false ->
  MetricKey.lookup synonyms (prefix ++ digits ++ rest)
  = MetricKey.lookup synonyms ("hits_at_" ++ digits ++ rest)
  /\ forall key,
       MetricKey.lookup synonyms (prefix ++ digits ++ rest) = inr key ->
       MetricKey.name key = HITS_AT_K /\ MetricKey.k key = py_int digits.
Proof.
  intros Hin Hne Hd _ Hrest.
  assert (Hshape : forall p, In p HITS_PREFIXES ->
            MetricKey.lookup synonyms (p ++ digits ++ rest)
            = let '(side, s2) := match_dot_alternatives SIDES rest in
              let '(rank_type, s3) :=
                match_dot_alternatives (MetricKey.TYPE_ALTERNATIVES synonyms) s2 in
              let '(k, s4) := match_dot_digits s3 in
              let m := mkMetricMatch (p ++ digits) side rank_type k s4 in
              match py_int digits with
              | Some z =>
                  try sd <- MetricKey.resolve_side m in
                  try rt <- MetricKey.resolve_rank_type synonyms HITS_AT_K m in
                  inr (MetricKey.mk HITS_AT_K sd rt (Some z))
              | None => inl (InvalidK digits)
              end).
  { intros p Hp.
    unfold MetricKey.lookup. rewrite <- str_app_assoc.
    rewrite METRIC_PATTERN_match_app; [| | |assumption].
    - destruct (match_dot_alternatives SIDES rest) as [side s2].
      destruct (match_dot_alternatives (MetricKey.TYPE_ALTERNATIVES synonyms) s2)
        as [rank_type s3].
      destruct (match_dot_digits s3) as [k s4].
      rewrite (resolve_name_spelling p digits side rank_type k s4 Hp Hne Hd).
      destruct (py_int digits); reflexivity.
    - simpl in Hp. destruct Hp as [<-|[<-|[<-|[]]]]; discriminate.
    - rewrite str_forallb_app, (str_forallb_impl is_digit is_name_char digits is_digit_name_char Hd).
      simpl in Hp. destruct Hp as [<-|[<-|[<-|[]]]]; reflexivity. }
  pose proof (Hshape prefix Hin) as Hp.
  pose proof (Hshape "hits_at_" ltac:(simpl; tauto)) as Hq.
  split.
  - rewrite Hp, Hq.
    destruct (match_dot_alternatives SIDES rest) as [side s2].
    destruct (match_dot_alternatives (MetricKey.TYPE_ALTERNATIVES synonyms) s2)
      as [rank_type s3].
    destruct (match_dot_digits s3) as [k s4].
    unfold MetricKey.resolve_side, MetricKey.resolve_rank_type. reflexivity.
  - intros key. rewrite Hp.
    destruct (match_dot_alternatives SIDES rest) as [side s2].
    destruct (match_dot_alternatives (MetricKey.TYPE_ALTERNATIVES synonyms) s2)
      as [rank_type s3].
    destruct (match_dot_digits s3) as [k s4].
    cbv zeta. destruct (py_int digits) as [z|]; [|discriminate].
    match goal with |- bind ?m _ = _ -> _ => destruct m as [e|sd] end; [discriminate|].
    cbn [bind].
    match goal with |- bind ?m _ = _ -> _ => destruct m as [e|rt] end; [discriminate|].
    cbn [bind]. intros [= <-]. split; reflexivity.
Qed.

Lemma lookup_hits_spelling_witness :
  MetricKey.lookup example_rank_type_synonyms "h@3.head.7"
  = inr (MetricKey.mk HITS_AT_K LABEL_HEAD RANK_REALISTIC (Some 3%Z))
  /\ (MetricKey.lookup example_rank_type_synonyms ("h@" ++ "3" ++ ".head.7")
      = MetricKey.lookup example_rank_type_synonyms ("hits_at_" ++ "3" ++ ".head.7")
      /\ forall key,
           MetricKey.lookup example_rank_type_synonyms ("h@" ++ "3" ++ ".head.7") = inr key ->
           MetricKey.name key = HITS_AT_K /\ MetricKey.k key = py_int "3").
Proof.
  split; [reflexivity|].
  apply (lookup_hits_spelling example_rank_type_synonyms "h@" "3" ".head.7").
  - simpl. tauto.
  - discriminate.
  - reflexivity.
  - reflexivity.
  - reflexivity.
Defined.

(** *** The decimal text of a positive integer *)










(** *** Names *)


Lemma ascii_lower_name_char (c : ascii) :
  is_name_char c = true -> is_name_char (ascii_lower c) = true.
Proof.
  destruct c as [[] [] [] [] [] [] [] []]; vm_compute; intros H; (exact H || reflexivity).
Qed.

Lemma ascii_lower_idem (c : ascii) : ascii_lower (ascii_lower c) = ascii_lower c.
Proof. destruct c as [[] [] [] [] [] [] [] []]; reflexivity. Qed.

Lemma str_lower_name (s : string) :
  str_forallb is_name_char s = true -> str_forallb is_name_char (str_lower s) = true.
Proof.
  induction s as [|c s IH]; cbn [str_lower str_forallb]; [reflexivity|].
  intros H. apply andb_prop in H as [Hc Hs].
  rewrite (ascii_lower_name_char c Hc), (IH Hs). reflexivity.
Qed.

Lemma str_lower_idem (s : string) : str_lower (str_lower s) = str_lower s.
Proof.
  induction s as [|c s IH]; cbn [str_lower]; [reflexivity|].
  rewrite ascii_lower_idem, IH. reflexivity.
Qed.


Lemma str_lower_nonempty (s : string) : s <> EmptyString -> str_lower s <> EmptyString.
Proof. destruct s; [congruence|discriminate]. Qed.



(** *** The text of a key, read again *)










(** ** Weighted statistics *)

Lemma insert_by_Permutation {A : Type} (key : A -> Q) (x : A) (xs : list A) :
  insert_by key x xs ≡ₚ x :: xs.
Proof.
  induction xs as [|y ys IH]; simpl; [reflexivity|].
  destruct (Qle_bool (key x) (key y)); [reflexivity|].
  rewrite IH. apply Permutation_swap.
Qed.

Lemma sort_by_Permutation {A : Type} (key : A -> Q) (xs : list A) :
  sort_by key xs ≡ₚ xs.
Proof.
  unfold sort_by. induction xs as [|x xs IH]; simpl; [reflexivity|].
  rewrite insert_by_Permutation, IH. reflexivity.
Qed.

Lemma insert_by_ascending {A : Type} (key : A -> Q) (x : A) (xs : list A) :
  ascending_by key xs -> ascending_by key (insert_by key x xs).
Proof.
  induction xs as [|y ys IH]; simpl.
  - intros _. split; [|exact I]. intros z Hz. inversion Hz.
  - intros [Hy Hys].
    destruct (Qle_bool (key x) (key y)) eqn:Hle.
    + apply Qle_bool_iff in Hle. simpl. repeat split; [|assumption..].
      intros z Hz. apply elem_of_cons in Hz as [->|Hz]; [assumption|].
      eapply Qle_trans; eauto.
    + assert (Hlt : key y <= key x).
      { destruct (Qlt_le_dec (key y) (key x)) as [H|H]; [apply Qlt_le_weak, H|].
        apply Qle_bool_iff in H. congruence. }
      simpl. split; [|auto].
      intros z Hz. rewrite insert_by_Permutation in Hz.
      apply elem_of_cons in Hz as [->|Hz]; auto.
Qed.

Lemma sort_by_ascending {A : Type} (key : A -> Q) (xs : list A) :
  ascending_by key (sort_by key xs).
Proof.
  unfold sort_by. induction xs as [|x xs IH]; simpl; [exact I|].
  apply insert_by_ascending, IH.
Qed.

Lemma ascending_by_lookup {A : Type} (key : A -> Q) (xs : list A) (i j : nat) (x y : A) :
  ascending_by key xs -> (i < j)%nat -> xs !! i = Some x -> xs !! j = Some y ->
  key x <= key y.
Proof.
  revert i j. induction xs as [|z zs IH]; intros i j Hasc Hij Hi Hj; [discriminate|].
  destruct Hasc as [Hz Hzs].
  destruct i as [|i], j as [|j]; try lia.
  - cbn in Hi, Hj. injection Hi as <-. apply Hz. eapply list_elem_of_lookup_2; eauto.
  - cbn in Hi, Hj. eapply (IH i j); eauto. lia.
Qed.

Lemma np_take_lookup {A : Type} (a : list A) (indices : list nat) (xs : list A) :
  np_take a indices = inr xs ->
  forall p x, xs !! p = Some x -> exists i, indices !! p = Some i /\ a !! i = Some x.
Proof.
  revert xs. induction indices as [|i indices IH]; simpl; intros xs.
  - intros [= <-] p x Hp. discriminate.
  - destruct (a !! i) as [y|] eqn:Hy; [|discriminate].
    destruct (np_take a indices) as [e|ys]; [discriminate|].
    cbn [bind]. intros [= <-] p x Hp.
    destruct p as [|p]; cbn in Hp.
    + injection Hp as <-. exists i. split; [reflexivity|assumption].
    + cbn. eapply IH; eauto.
Qed.

Lemma zip_seq_lookup {A : Type} (a : list A) (start i : nat) (x : A) :
  (i, x) ∈ zip (seq start (length a)) a -> (start <= i)%nat /\ a !! (i - start)%nat = Some x.
Proof.
  revert start. induction a as [|y a IH]; intros start; simpl.
  - intros H. inversion H.
  - intros H. apply elem_of_cons in H as [Heq|H].
    + injection Heq as -> ->. split; [lia|]. replace (start - start)%nat with O by lia. reflexivity.
    + apply IH in H as [Hle Hx]. split; [lia|].
      replace (i - start)%nat with (S (i - S start)) by lia. exact Hx.
Qed.

Lemma Qlen_cons {A : Type} (x : A) (xs : list A) : Qlen (x :: xs) == 1 + Qlen xs.
Proof.
  unfold Qlen. cbn [length]. rewrite Nat2Z.inj_succ, <- Z.add_1_l, inject_Z_plus. reflexivity.
Qed.

Lemma Qlen_nonneg {A : Type} (xs : list A) : 0 <= Qlen xs.
Proof. unfold Qlen, Qle. cbn. lia. Qed.

Lemma Qlen_pos {A : Type} (xs : list A) : xs <> [] -> 0 < Qlen xs.
Proof. destruct xs; [congruence|]. intros _. unfold Qlen, Qlt. cbn. lia. Qed.

Lemma Qsum_lower (c : Q) (xs : list Q) :
  Forall (fun x => c <= x) xs -> c * Qlen xs <= Qsum xs.
Proof.
  induction 1 as [|x xs Hx _ IH].
  - rewrite Qsum_nil. unfold Qlen. cbn [length]. rewrite Qmult_0_r. apply Qle_refl.
  - rewrite Qsum_cons, Qlen_cons, Qmult_plus_distr_r, Qmult_1_r.
    apply Qplus_le_compat; assumption.
Qed.

Lemma Qsum_upper (c : Q) (xs : list Q) :
  Forall (fun x => x <= c) xs -> Qsum xs <= c * Qlen xs.
Proof.
  induction 1 as [|x xs Hx _ IH].
  - rewrite Qsum_nil. unfold Qlen. cbn [length]. rewrite Qmult_0_r. apply Qle_refl.
  - rewrite Qsum_cons, Qlen_cons, Qmult_plus_distr_r, Qmult_1_r.
    apply Qplus_le_compat; assumption.
Qed.

Lemma Qsum_pos (xs : list Q) :
  xs <> [] -> Forall (fun x => 0 < x) xs -> 0 < Qsum xs.
Proof.
  intros Hne Hall. destruct Hall as [|x xs Hx Hxs]; [congruence|].
  rewrite Qsum_cons.
  apply Qlt_le_trans with (x + 0); [rewrite Qplus_0_r; assumption|].
  apply Qplus_le_compat; [apply Qle_refl|].
  apply Qle_trans with (0 * Qlen xs); [rewrite Qmult_0_l; apply Qle_refl|].
  apply Qsum_lower. eapply Forall_impl; [exact Hxs|]. intros y Hy. apply Qlt_le_weak, Hy.
Qed.

(** *** The binary search of [np.searchsorted] *)

(** On an array where the entries below [v] come first, the binary search
    ends at the position that parts them. *)
Lemma binsearch_left_sorted (a : list NpFloat) (v : Q) (fuel min_idx max_idx : nat) :
  (forall i j x y, (i <= j)%nat -> a !! i = Some x -> a !! j = Some y ->
     np_less y v = true -> np_less x v = true) ->
  (min_idx <= max_idx <= length a)%nat -> (max_idx - min_idx <= fuel)%nat ->
  (forall i x, (i < min_idx)%nat -> a !! i = Some x -> np_less x v = true) ->
  (forall i x, (max_idx <= i)%nat -> a !! i = Some x -> np_less x v = false) ->
  (min_idx <= binsearch_left fuel a v min_idx max_idx <= max_idx)%nat
  /\ (forall i x, (i < binsearch_left fuel a v min_idx max_idx)%nat ->
        a !! i = Some x -> np_less x v = true)
  /\ (forall i x, (binsearch_left fuel a v min_idx max_idx <= i)%nat ->
        a !! i = Some x -> np_less x v = false).
Proof.
  intros Hmono. revert min_idx max_idx.
  induction fuel as [|fuel IH]; intros lo hi Hb Hfuel Hlo Hhi; cbn [binsearch_left].
  - assert (lo = hi) by lia. subst. split; [lia|]. split; assumption.
  - destruct (Nat.ltb_spec lo hi) as [Hlt|Hge].
    + set (mid := (lo + (hi - lo) / 2)%nat).
      assert (Hmid : (lo <= mid < hi)%nat).
      { subst mid. pose proof (Nat.Div0.div_lt_upper_bound (hi - lo) 2 (hi - lo)). lia. }
      destruct (a !! mid) as [x|] eqn:Hx.
      * destruct (np_less x v) eqn:Hless.
        -- destruct (IH (S mid) hi) as (Hp & Hbelow & Habove); [lia|lia| |assumption|].
           ++ intros i y Hi Hy. apply (Hmono i mid y x); [lia|assumption..].
           ++ split; [lia|]. split; assumption.
        -- destruct (IH lo mid) as (Hp & Hbelow & Habove); [lia|lia|assumption| |].
           ++ intros i y Hi Hy. destruct (np_less y v) eqn:Hy'; [|reflexivity].
              rewrite (Hmono mid i x y Hi Hx Hy Hy') in Hless. discriminate Hless.
           ++ split; [lia|]. split; assumption.
      * apply lookup_ge_None in Hx. lia.
    + assert (lo = hi) by lia. subst. split; [lia|]. split; assumption.
Qed.

Lemma np_searchsorted_sorted (a : list NpFloat) (v : Q) :
  (forall i j x y, (i <= j)%nat -> a !! i = Some x -> a !! j = Some y ->
     np_less y v = true -> np_less x v = true) ->
  (np_searchsorted a v <= length a)%nat
  /\ (forall i x, (i < np_searchsorted a v)%nat -> a !! i = Some x -> np_less x v = true)
  /\ (forall i x, (np_searchsorted a v <= i)%nat -> a !! i = Some x -> np_less x v = false).
Proof.
  intros Hmono. unfold np_searchsorted.
  destruct (binsearch_left_sorted a v (length a) 0 (length a) Hmono) as (Hp & Hbelow & Habove);
    [lia|lia| | |].
  - intros i x Hi. lia.
  - intros i x Hi Hx. apply lookup_lt_Some in Hx. lia.
  - split; [lia|]. split; assumption.
Qed.

(** *** Cumulative sums *)

Lemma cumsum_from_length (xs : list Q) (acc : Q) :
  length (cumsum_from acc xs) = length xs.
Proof. revert acc. induction xs as [|x xs IH]; intros acc; cbn; [reflexivity|]. now rewrite IH. Qed.

Lemma cumsum_from_lookup (xs : list Q) (acc : Q) (i : nat) (c : Q) :
  cumsum_from acc xs !! i = Some c -> c == acc + Qsum (take (S i) xs).
Proof.
  revert acc i c. induction xs as [|x xs IH]; intros acc i c; cbn [cumsum_from];
    [discriminate|].
  destruct i as [|i]; cbn [lookup list_lookup].
  - intros [= <-]. change (take 1 (x :: xs)) with [x]. unfold Qsum. cbn [foldr]. ring.
  - intros H. apply IH in H. rewrite H.
    change (take (S (S i)) (x :: xs)) with (x :: take (S i) xs).
    unfold Qsum. cbn [foldr]. ring.
Qed.

Lemma cumsum_from_last (xs : list Q) (acc d : Q) :
  List.last (acc :: cumsum_from acc xs) d == acc + Qsum xs.
Proof.
  revert acc. induction xs as [|x xs IH]; intros acc.
  - cbn [cumsum_from List.last]. unfold Qsum. cbn [foldr]. ring.
  - cbn [cumsum_from]. change (List.last (acc :: (acc + x) :: cumsum_from (acc + x) xs) d)
      with (List.last ((acc + x) :: cumsum_from (acc + x) xs) d).
    rewrite IH. unfold Qsum. cbn [foldr]. fold (Qsum xs). ring.
Qed.

Lemma Qsum_take_le (ws : list Q) (i j : nat) :
  Forall (fun w => 0 < w) ws -> (i <= j)%nat -> Qsum (take i ws) <= Qsum (take j ws).
Proof.
  intros Hpos. revert i j. induction Hpos as [|w ws Hw Hws IH]; intros i j Hij.
  - rewrite !take_nil. apply Qle_refl.
  - destruct i as [|i], j as [|j]; try lia.
    + apply Qle_refl.
    + change (take 0 (w :: ws)) with (@nil Q).
      change (take (S j) (w :: ws)) with (w :: take j ws).
      rewrite Qsum_cons, Qsum_nil.
      specialize (IH 0%nat j ltac:(lia)). change (take 0 ws) with (@nil Q) in IH.
      rewrite Qsum_nil in IH. apply Qlt_le_weak in Hw.
      apply Qle_trans with (0 + 0); [rewrite Qplus_0_r; apply Qle_refl|].
      apply Qplus_le_compat; assumption.
    + change (take (S i) (w :: ws)) with (w :: take i ws).
      change (take (S j) (w :: ws)) with (w :: take j ws).
      rewrite !Qsum_cons. apply Qplus_le_compat; [apply Qle_refl|].
      apply IH. lia.
Qed.

Lemma Qlt_bool_iff (x y : Q) : Qlt_bool x y = true <-> x < y.
Proof.
  unfold Qlt_bool. rewrite negb_true_iff. split.
  - intros H. destruct (Qlt_le_dec x y) as [Hlt|Hle]; [assumption|].
    apply Qle_bool_iff in Hle. congruence.
  - intros Hlt. destruct (Qle_bool y x) eqn:E; [|reflexivity].
    apply Qle_bool_iff in E. exfalso. exact (Qlt_not_le _ _ Hlt E).
Qed.

(** The cumulative fractions of positive weights, and the position the
    search finds in them: the first one before which half of the total
    weight lies. *)
Section Fractions.

Variable ws : list Q.
Hypothesis ws_positive : Forall (fun w => 0 < w) ws.
Hypothesis ws_nonempty : ws <> [].

Let cum_sum : list Q := np_cumsum (0 :: ws).
Let total : Q := List.last cum_sum 0.
Let fractions : list NpFloat := map (fun c => np_divide c total) cum_sum.

Lemma total_eq : total == Qsum ws.
Proof.
  subst total cum_sum. unfold np_cumsum. cbn [cumsum_from].
  rewrite cumsum_from_last. ring.
Qed.

Lemma total_positive : 0 < total.
Proof. rewrite total_eq. apply Qsum_pos; assumption. Qed.

Lemma fractions_length : length fractions = S (length ws).
Proof.
  subst fractions cum_sum. rewrite length_map. unfold np_cumsum.
  rewrite cumsum_from_length. reflexivity.
Qed.

Lemma fractions_lookup (i : nat) (x : NpFloat) :
  fractions !! i = Some x ->
  (i <= length ws)%nat
  /\ (np_less x (1 # 2) = true <-> 2 * Qsum (take i ws) < Qsum ws).
Proof.
  intros Hx. pose proof (lookup_lt_Some _ _ _ Hx) as Hlt.
  rewrite fractions_length in Hlt. split; [lia|].
  subst fractions. change (map (fun c => np_divide c total) cum_sum)
    with ((fun c => np_divide c total) <$> cum_sum) in Hx.
  rewrite list_lookup_fmap in Hx.
  destruct (cum_sum !! i) as [c|] eqn:Hc; [|discriminate].
  cbn [fmap option_fmap option_map] in Hx. injection Hx as <-.
  apply cumsum_from_lookup in Hc.
  change (take (S i) (0 :: ws)) with (0 :: take i ws) in Hc.
  assert (Hc' : c == Qsum (take i ws)) by (rewrite Hc; unfold Qsum; cbn [foldr]; ring).
  pose proof total_positive as Hpos. pose proof total_eq as Htotal.
  unfold np_divide.
  destruct (Qeq_bool total 0) eqn:Hzero.
  { apply Qeq_bool_eq in Hzero. rewrite Hzero in Hpos. inversion Hpos. }
  cbn [np_less]. rewrite Qlt_bool_iff, <- Htotal, <- Hc'. split.
  - intros H. apply (Qmult_lt_compat_r _ _ total Hpos) in H.
    unfold Qdiv in H. rewrite <- Qmult_assoc, (Qmult_comm (/ total)), Qmult_inv_r in H
      by (intros E; rewrite E in Hpos; inversion Hpos).
    apply (Qmult_lt_l _ _ 2) in H; [|reflexivity].
    setoid_replace (2 * ((1 # 2) * total)) with total using relation Qeq in H by ring.
    setoid_replace (2 * (c * 1)) with (2 * c) using relation Qeq in H by ring.
    exact H.
  - intros H. apply Qlt_shift_div_r; [assumption|].
    apply (Qmult_lt_l _ _ 2); [reflexivity|].
    setoid_replace (2 * ((1 # 2) * total)) with total using relation Qeq by ring.
    exact H.
Qed.

Lemma fractions_sorted (i j : nat) (x y : NpFloat) :
  (i <= j)%nat -> fractions !! i = Some x -> fractions !! j = Some y ->
  np_less y (1 # 2) = true -> np_less x (1 # 2) = true.
Proof.
  intros Hij Hx Hy Hless.
  apply fractions_lookup in Hx as [_ Hx]. apply fractions_lookup in Hy as [_ Hy].
  apply Hx. apply Hy in Hless.
  eapply Qle_lt_trans; [|exact Hless].
  apply Qmult_le_l; [reflexivity|]. apply Qsum_take_le; assumption.
Qed.

(** The position found: at least 1 and at most the number of weights; the
    weights before an earlier position are less than half of the total, and
    the weights before it, or before a later position, at least half. *)
Lemma searchsorted_fractions :
  (1 <= np_searchsorted fractions (1 # 2) <= length ws)%nat
  /\ (forall i, (i < np_searchsorted fractions (1 # 2))%nat ->
        2 * Qsum (take i ws) < Qsum ws)
  /\ (forall i, (np_searchsorted fractions (1 # 2) <= i <= length ws)%nat ->
        Qsum ws <= 2 * Qsum (take i ws)).
Proof.
  destruct (np_searchsorted_sorted fractions (1 # 2)) as (Hlen & Hbelow & Habove).
  { intros i j x y. apply fractions_sorted. }
  set (idx := np_searchsorted fractions (1 # 2)) in *.
  rewrite fractions_length in Hlen.
  assert (Hget : forall i, (i <= length ws)%nat -> exists x, fractions !! i = Some x).
  { intros i Hi. apply lookup_lt_is_Some. rewrite fractions_length. lia. }
  pose proof total_positive as Hpos. rewrite total_eq in Hpos.
  assert (Hbelow' : forall i, (i < idx)%nat -> 2 * Qsum (take i ws) < Qsum ws).
  { intros i Hi. destruct (Hget i ltac:(lia)) as [x Hx].
    apply (fractions_lookup i x Hx). eapply Hbelow; eauto. }
  assert (Habove' : forall i, (idx <= i <= length ws)%nat -> Qsum ws <= 2 * Qsum (take i ws)).
  { intros i Hi. destruct (Hget i ltac:(lia)) as [x Hx].
    pose proof (Habove i x ltac:(lia) Hx) as Hfalse.
    destruct (Qlt_le_dec (2 * Qsum (take i ws)) (Qsum ws)) as [Hlt|Hle]; [|assumption].
    apply (fractions_lookup i x Hx) in Hlt. congruence. }
  split; [|split; assumption]. split.
  - destruct idx as [|idx]; [|lia]. exfalso.
    specialize (Habove' 0%nat ltac:(lia)). change (take 0 ws) with (@nil Q) in Habove'.
    unfold Qsum at 2 in Habove'. cbn [foldr] in Habove'.
    setoid_replace (2 * 0) with 0 using relation Qeq in Habove' by ring.
    exact (Qlt_not_le _ _ Hpos Habove').
  - destruct (decide (idx <= length ws)%nat) as [?|Hgt]; [assumption|]. exfalso.
    specialize (Hbelow' (length ws) ltac:(lia)). rewrite firstn_all in Hbelow'.
    assert (H : Qsum ws < 2 * Qsum ws).
    { setoid_replace (Qsum ws) with (Qsum ws + 0) using relation Qeq at 1 by ring.
      setoid_replace (2 * Qsum ws) with (Qsum ws + Qsum ws) using relation Qeq by ring.
      apply Qplus_lt_r. assumption. }
    exact (Qlt_irrefl _ (Qlt_trans _ _ _ H Hbelow')).
Qed.

End Fractions.

(** *** The sorted values and their weights *)

Lemma np_take_pairs {A : Type} (a : list A) (l : list (nat * A)) :
  (forall p, p ∈ l -> a !! p.1 = Some p.2) -> np_take a (map fst l) = inr (map snd l).
Proof.
  induction l as [|p l IH]; intros Hl; cbn [map np_take]; [reflexivity|].
  rewrite (Hl p) by left. rewrite IH by (intros q Hq; apply Hl; now right).
  reflexivity.
Qed.

Lemma argsort_pairs (a : list Q) (p : nat * Q) :
  p ∈ sort_by snd (zip (seq 0 (length a)) a) -> a !! p.1 = Some p.2.
Proof.
  rewrite sort_by_Permutation. destruct p as [i x]. intros H.
  apply zip_seq_lookup in H as [_ H]. rewrite Nat.sub_0_r in H. exact H.
Qed.

Lemma ascending_by_map {A B : Type} (key : B -> Q) (f : A -> B) (xs : list A) :
  ascending_by (fun x => key (f x)) xs -> ascending_by key (map f xs).
Proof.
  induction xs as [|x xs IH]; cbn [map ascending_by]; [auto|].
  intros [Hx Hxs]. split; [|auto].
  intros y Hy. change (map f xs) with (f <$> xs) in Hy.
  apply list_elem_of_fmap in Hy as (z & -> & Hz). auto.
Qed.

Lemma map_nth_seq (l : list Q) (d : Q) :
  map (fun i => nth i l d) (seq 0 (length l)) = l.
Proof.
  apply list_eq. intros i.
  change (map (fun i => nth i l d) (seq 0 (length l)))
    with ((fun i => nth i l d) <$> seq 0 (length l)).
  rewrite list_lookup_fmap.
  destruct (decide (i < length l)%nat) as [Hlt|Hge].
  - rewrite lookup_seq_lt by exact Hlt. cbn.
    destruct (lookup_lt_is_Some_2 l i Hlt) as [x Hx]. rewrite Hx.
    f_equal. apply nth_lookup_Some with (d := d) in Hx. exact Hx.
  - rewrite lookup_seq_ge by lia. rewrite lookup_ge_None_2 by lia. reflexivity.
Qed.

(** What [weighted_median] sorts: the values in ascending order, and the
    weights in the order of their values.  Both are rearrangements of what
    was given. *)
Lemma weighted_median_sorted (a weights : list Q) :
  length weights = length a ->
  exists s_ranks s_weights,
    np_take a (np_argsort a) = inr s_ranks
    /\ np_take weights (np_argsort a) = inr s_weights
    /\ s_ranks ≡ₚ a
    /\ ascending_by id s_ranks
    /\ s_weights ≡ₚ weights.
Proof.
  intros Hlen. unfold np_argsort.
  set (sorted := sort_by snd (zip (seq 0 (length a)) a)).
  assert (Hperm : sorted ≡ₚ zip (seq 0 (length a)) a) by apply sort_by_Permutation.
  exists (map snd sorted), (map (fun p : nat * Q => nth p.1 weights 0) sorted).
  split; [|split; [|split; [|split]]].
  - apply np_take_pairs. intros p Hp. apply argsort_pairs, Hp.
  - replace (map fst sorted)
      with (map fst (map (fun p : nat * Q => (p.1, nth p.1 weights 0)) sorted))
      by (rewrite map_map; reflexivity).
    replace (map (fun p : nat * Q => nth p.1 weights 0) sorted)
      with (map snd (map (fun p : nat * Q => (p.1, nth p.1 weights 0)) sorted))
      by (rewrite map_map; reflexivity).
    apply np_take_pairs. intros q Hq.
    change (map (fun p : nat * Q => (p.1, nth p.1 weights 0)) sorted)
      with ((fun p : nat * Q => (p.1, nth p.1 weights 0)) <$> sorted) in Hq.
    apply list_elem_of_fmap in Hq as (p & -> & Hp). cbn [fst snd].
    apply argsort_pairs in Hp. apply lookup_lt_Some in Hp. rewrite <- Hlen in Hp.
    destruct (lookup_lt_is_Some_2 weights p.1 Hp) as [w Hw]. rewrite Hw. f_equal.
    symmetry. apply nth_lookup_Some with (d := 0) in Hw. exact Hw.
  - change (map snd sorted) with (snd <$> sorted). rewrite Hperm.
    rewrite snd_zip by (rewrite length_seq; lia). reflexivity.
  - apply ascending_by_map. apply (sort_by_ascending snd).
  - change (map (fun p : nat * Q => nth p.1 weights 0) sorted)
      with ((fun p : nat * Q => nth p.1 weights 0) <$> sorted).
    rewrite Hperm.
    assert (Heq : (fun p : nat * Q => nth p.1 weights 0) <$> zip (seq 0 (length a)) a
                  = (fun i => nth i weights 0) <$> (zip (seq 0 (length a)) a).*1)
      by (rewrite <- list_fmap_compose; reflexivity).
    rewrite Heq, fst_zip by (rewrite length_seq; lia).
    rewrite <- Hlen. rewrite <- (map_nth_seq weights 0) at 2. reflexivity.
Qed.

Lemma Qsum_Permutation (xs ys : list Q) : xs ≡ₚ ys -> Qsum xs == Qsum ys.
Proof.
  induction 1 as [|x xs ys _ IH|x y xs|xs ys zs _ IH1 _ IH2].
  - reflexivity.
  - rewrite !Qsum_cons, IH. reflexivity.
  - rewrite !Qsum_cons. ring.
  - rewrite IH1. exact IH2.
Qed.

(** With positive weights [weighted_median] reads the sorted values at the
    first position before which at least half of the total weight lies. *)
Lemma weighted_median_positive (a weights : list Q) :
  length weights = length a -> Forall (fun w => 0 < w) weights -> a <> [] ->
  exists s_ranks s_weights idx,
    np_take a (np_argsort a) = inr s_ranks
    /\ s_ranks ≡ₚ a
    /\ ascending_by id s_ranks
    /\ s_weights ≡ₚ weights
    /\ (1 <= idx <= length a)%nat
    /\ (forall i, (i < idx)%nat -> 2 * Qsum (take i s_weights) < Qsum weights)
    /\ (forall i, (idx <= i <= length a)%nat -> Qsum weights <= 2 * Qsum (take i s_weights))
    /\ weighted_median a weights
       = match s_ranks !! idx with
         | Some v => inr v
         | None => inl IndexError
         end.
Proof.
  intros Hlen Hpos Hne.
  destruct (weighted_median_sorted a weights Hlen)
    as (s_ranks & s_weights & Hr & Hw & Hpr & Hasc & Hpw).
  assert (Hpos' : Forall (fun w => 0 < w) s_weights) by (rewrite Hpw; exact Hpos).
  assert (Hlen' : length s_weights = length a)
    by (rewrite Hpw; exact Hlen).
  assert (Hne' : s_weights <> []).
  { intros ->. cbn in Hlen'. destruct a; [congruence|discriminate]. }
  destruct (searchsorted_fractions s_weights Hpos' Hne') as (Hidx & Hbelow & Habove).
  pose proof (Qsum_Permutation _ _ Hpw) as Hsum.
  eexists s_ranks, s_weights, _.
  split; [exact Hr|]. split; [exact Hpr|]. split; [exact Hasc|]. split; [exact Hpw|].
  split; [rewrite <- Hlen'; exact Hidx|].
  split; [intros i Hi; rewrite <- Hsum; apply Hbelow, Hi|].
  split; [intros i Hi; rewrite <- Hsum; apply Habove; lia|].
  unfold weighted_median. rewrite Hr, Hw. cbn [bind]. reflexivity.
Qed.

(** *** Uniform weights *)







(** The position [weighted_median] reads is at least one. *)
Lemma weighted_median_position (a weights : list Q) (v : Q) :
  length weights = length a ->
  Forall (fun w => 0 < w) weights ->
  weighted_median a weights = inr v ->
  exists s_ranks idx,
    np_take a (np_argsort a) = inr s_ranks
    /\ (1 <= idx)%nat
    /\ s_ranks !! idx = Some v.
Proof.
  intros Hlen Hpos Hv.
  assert (Hne : a <> []).
  { intros ->. destruct weights; [|discriminate]. vm_compute in Hv. discriminate Hv. }
  destruct (weighted_median_positive a weights Hlen Hpos Hne)
    as (s_ranks & s_weights & idx & Hr & _ & _ & _ & Hidx & _ & _ & Heq).
  rewrite Heq in Hv. destruct (s_ranks !! idx) as [x|] eqn:Hx; [|discriminate].
  injection Hv as ->. exists s_ranks, idx. split; [exact Hr|]. split; [lia|exact Hx].
Qed.

(** X5.  With positive weights, whenever [weighted_median] returns an entry,
    another position of the array holds a value that is not above it: the
    position read in the sorted values is never the first one, so the least
    value is never the result, however much weight it carries. *)
Theorem weighted_median_never_the_least (a weights : list Q) (v : Q) :
  length weights = length a ->
  Forall (fun w => 0 < w) weights ->
  weighted_median a weights = inr v ->
  exists i j u,
    i <> j /\ a !! i = Some v /\ a !! j = Some u /\ u <= v.
Proof.
  intros Hlen Hpos Hv.
  destruct (weighted_median_position a weights v Hlen Hpos Hv)
    as (s_ranks & idx & Hr & Hidx & Hx).
  assert (H0 : exists u, s_ranks !! 0%nat = Some u).
  { destruct s_ranks as [|u s]; [discriminate|]. exists u. reflexivity. }
  destruct H0 as [u Hu].
  destruct (np_take_lookup a _ s_ranks Hr idx v Hx) as (i & Hi & Hai).
  destruct (np_take_lookup a _ s_ranks Hr 0%nat u Hu) as (j & Hj & Haj).
  unfold np_argsort in Hi, Hj.
  set (sorted := sort_by snd (zip (seq 0 (length a)) a)) in *.
  change (map fst sorted) with (fst <$> sorted) in Hi, Hj.
  rewrite list_lookup_fmap in Hi, Hj.
  destruct (sorted !! idx) as [[i' x]|] eqn:Hsi; [|discriminate].
  destruct (sorted !! 0%nat) as [[j' y]|] eqn:Hsj; [|discriminate].
  cbn in Hi, Hj. injection Hi as ->. injection Hj as ->.
  assert (Hperm : sorted ≡ₚ zip (seq 0 (length a)) a) by apply sort_by_Permutation.
  assert (Hxi : a !! i = Some x).
  { apply list_elem_of_lookup_2 in Hsi. rewrite Hperm in Hsi.
    apply zip_seq_lookup in Hsi as [_ Hsi]. rewrite Nat.sub_0_r in Hsi. exact Hsi. }
  assert (Hyj : a !! j = Some y).
  { apply list_elem_of_lookup_2 in Hsj. rewrite Hperm in Hsj.
    apply zip_seq_lookup in Hsj as [_ Hsj]. rewrite Nat.sub_0_r in Hsj. exact Hsj. }
  assert (x = v) as -> by congruence. assert (y = u) as -> by congruence.
  exists i, j, u. split; [|split; [assumption|split; [assumption|]]].
  - assert (Hnodup : NoDup (fst <$> sorted)).
    { rewrite Hperm, fst_zip by (rewrite length_seq; lia). apply NoDup_seq. }
    intros ->.
    assert (Hfi : (fst <$> sorted) !! idx = Some j) by (rewrite list_lookup_fmap, Hsi; reflexivity).
    assert (Hfj : (fst <$> sorted) !! 0%nat = Some j) by (rewrite list_lookup_fmap, Hsj; reflexivity).
    pose proof (NoDup_lookup _ _ _ _ Hnodup Hfi Hfj). lia.
  - apply (ascending_by_lookup snd sorted 0 idx (j, u) (i, v)); [|lia|assumption..].
    apply sort_by_ascending.
Qed.

Lemma weighted_median_never_the_least_witness :
  weighted_median [3; 1; 2] [1; 1; 1] = inr 3
  /\ exists i j u,
       i <> j /\ [3; 1; 2] !! i = Some 3 /\ [3; 1; 2] !! j = Some u /\ u <= 3.
Proof.
  split; [reflexivity|].
  apply (weighted_median_never_the_least [3; 1; 2] [1; 1; 1] 3).
  - reflexivity.
  - repeat (constructor; [reflexivity|]). constructor.
  - reflexivity.
Defined.

Lemma weighted_median_single_observation (x w : Q) :
  0 < w -> weighted_median [x] [w] = inl IndexError.
Proof.
  intros Hw.
  destruct (weighted_median_positive [x] [w]) as
    (s_ranks & s_weights & idx & _ & Hperm & _ & _ & Hidx & _ & _ & ->);
    [reflexivity|repeat constructor; exact Hw|discriminate|].
  apply Permutation_length in Hperm. cbn [length] in Hperm, Hidx.
  rewrite lookup_ge_None_2 by lia. reflexivity.
Qed.

(** X6.  For a single observation with a positive weight, [weighted_median]
    reads one position past the end and raises an index error, and with it
    [get_macro_ranking_metrics]. *)
Theorem macro_metrics_single_observation (fns : Irrational) (x w : Q) :
  0 < w ->
  weighted_median [x] [w] = inl IndexError
  /\ get_macro_ranking_metrics fns [x] [w] = inl IndexError.
Proof.
  intros Hw. split; [apply weighted_median_single_observation, Hw|].
  unfold get_macro_ranking_metrics, np_average.
  destruct (Qeq_bool (Qsum [w]) 0) eqn:Hzero.
  - apply Qeq_bool_eq in Hzero. unfold Qsum in Hzero. cbn [foldr] in Hzero.
    rewrite Qplus_0_r in Hzero. rewrite Hzero in Hw. inversion Hw.
  - cbn [bind]. cbv zeta. rewrite (weighted_median_single_observation x w Hw). reflexivity.
Qed.

Lemma macro_metrics_single_observation_witness :
  weighted_median [7] [1] = inl IndexError
  /\ get_macro_ranking_metrics example_fns [7] [1] = inl IndexError.
Proof. apply (macro_metrics_single_observation example_fns 7 1). reflexivity. Defined.

(** ** The registry and the annotated ranges *)

Lemma np_mean_lower (c : Q) (xs : list Q) :
  xs <> [] -> Forall (fun x => c <= x) xs -> c <= np_mean xs.
Proof.
  intros Hne Hall. unfold np_mean.
  apply Qle_shift_div_l; [apply Qlen_pos, Hne|]. apply Qsum_lower, Hall.
Qed.

Lemma np_mean_upper (c : Q) (xs : list Q) :
  xs <> [] -> Forall (fun x => x <= c) xs -> np_mean xs <= c.
Proof.
  intros Hne Hall. unfold np_mean.
  apply Qle_shift_div_r; [apply Qlen_pos, Hne|]. apply Qsum_upper, Hall.
Qed.

Lemma np_sort_Forall (P : Q -> Prop) (xs : list Q) :
  Forall P xs -> Forall P (np_sort xs).
Proof. unfold np_sort. rewrite (sort_by_Permutation id xs). auto. Qed.

Lemma np_sort_length (xs : list Q) : length (np_sort xs) = length xs.
Proof. unfold np_sort. rewrite (sort_by_Permutation id xs). reflexivity. Qed.

Lemma np_median_lower (c : Q) (xs : list Q) :
  xs <> [] -> Forall (fun x => c <= x) xs -> c <= np_median xs.
Proof.
  intros Hne Hall. unfold np_median.
  pose proof (np_sort_Forall _ xs Hall) as Hsorted.
  pose proof (np_sort_length xs) as Hlen.
  assert (Hpos : (0 < length (np_sort xs))%nat)
    by (rewrite Hlen; destruct xs; [congruence|cbn; lia]).
  set (s := np_sort xs) in *. set (n := length s) in *.
  rewrite (Forall_nth _ 0 s) in Hsorted.
  assert (Hhalf : (n / 2 < n)%nat) by (apply Nat.div_lt; lia).
  destruct (Nat.even n) eqn:Heven.
  - apply Qle_shift_div_l; [reflexivity|].
    assert (H1 : c <= nth (n / 2 - 1) s 0) by (apply Hsorted; fold n; lia).
    assert (H2 : c <= nth (n / 2) s 0) by (apply Hsorted; fold n; lia).
    setoid_replace (c * 2) with (c + c) using relation Qeq by ring.
    apply Qplus_le_compat; assumption.
  - apply Hsorted. fold n. lia.
Qed.

Lemma Qinv_unit_range (m : Q) : 1 <= m -> 0 < / m /\ / m <= 1.
Proof.
  intros Hm.
  assert (Hpos : 0 < m) by (apply Qlt_le_trans with 1; [reflexivity|assumption]).
  split; [apply Qinv_lt_0_compat, Hpos|].
  apply Qle_shift_inv_r; [assumption|]. rewrite Qmult_1_l. assumption.
Qed.

Lemma stats_hmean_lower (xs : list Q) :
  xs <> [] -> Forall (fun x => 1 <= x) xs -> 1 <= stats_hmean xs.
Proof.
  intros Hne Hall. unfold stats_hmean.
  assert (Hinv : Forall (fun y => 0 < y /\ y <= 1) (map Qinv xs)).
  { apply Forall_map. eapply Forall_impl; [exact Hall|]. intros x Hx.
    apply Qinv_unit_range, Hx. }
  assert (Hne' : map Qinv xs <> []) by (destruct xs; [congruence|discriminate]).
  apply Qle_shift_div_l.
  - apply Qsum_pos; [assumption|]. eapply Forall_impl; [exact Hinv|]. intros y [Hy _]. exact Hy.
  - rewrite Qmult_1_l.
    apply Qle_trans with (1 * Qlen (map Qinv xs)).
    + apply Qsum_upper. eapply Forall_impl; [exact Hinv|]. intros y [_ Hy]. exact Hy.
    + rewrite Qmult_1_l. unfold Qlen. rewrite length_map. apply Qle_refl.
Qed.

Lemma np_var_nonneg (xs : list Q) : xs <> [] -> 0 <= np_var xs.
Proof.
  intros Hne. unfold np_var. apply np_mean_lower.
  - destruct xs; [congruence|discriminate].
  - apply Forall_map, Forall_forall. intros x _.
    destruct (Qlt_le_dec (x - np_mean xs) 0) as [Hneg|Hpos].
    + setoid_replace ((x - np_mean xs) * (x - np_mean xs))
        with ((- (x - np_mean xs)) * (- (x - np_mean xs))) using relation Qeq by ring.
      assert (H : 0 <= - (x - np_mean xs)).
      { apply Qlt_le_weak in Hneg. apply Qopp_le_compat in Hneg. exact Hneg. }
      apply Qmult_le_0_compat; assumption.
    + apply Qmult_le_0_compat; assumption.
Qed.

Lemma stats_mad_nonneg (xs : list Q) : xs <> [] -> 0 <= stats_median_abs_deviation xs.
Proof.
  intros Hne. unfold stats_median_abs_deviation. apply np_median_lower.
  - destruct xs; [congruence|discriminate].
  - apply Forall_map, Forall_forall. intros x _. apply Qabs_nonneg.
Qed.

(** X7.  For ranks that are all at least 1, the values [get_ranking_metrics]
    computes lie in the ranges that [RANKING_METRICS] annotates: the means
    and the median are at least 1, their reciprocals lie above 0 and not
    above 1, the variance and the median absolute deviation are not
    negative, and the count is at least 1.  The geometric mean and the
    standard deviation are not rational and are left out. *)
Theorem ranking_metrics_in_range (fns : Irrational) (ranks : list Q) (name : string)
    (value : Q) (annotation : MetricAnnotation) :
  ranks <> [] ->
  Forall (fun r => 1 <= r) ranks ->
  In name RATIONAL_METRICS ->
  dict_get (get_ranking_metrics fns ranks) name = Some value ->
  dict_get RANKING_METRICS name = Some annotation ->
  in_value_range (value_range annotation) value.
Proof.
  intros Hne Hall Hin Hvalue Hann.
  pose proof (np_mean_lower 1 ranks Hne Hall) as Hmean.
  pose proof (stats_hmean_lower ranks Hne Hall) as Hhmean.
  pose proof (np_median_lower 1 ranks Hne Hall) as Hmedian.
  simpl in Hin.
  destruct Hin as [<-|[<-|[<-|[<-|[<-|[<-|[<-|[<-|[<-|[]]]]]]]]]];
    injection Hvalue as <-; injection Hann as <-;
    unfold in_value_range;
    cbn [value_range lower upper lower_inclusive upper_inclusive unit_range_open_below];
    try (split; [assumption|exact I]).
  - apply Qinv_unit_range, Hmean.
  - apply Qinv_unit_range, Hhmean.
  - apply Qinv_unit_range, Hmedian.
  - split; [apply np_var_nonneg, Hne|exact I].
  - split; [apply stats_mad_nonneg, Hne|exact I].
  - split; [|exact I]. destruct ranks; [congruence|].
    rewrite Qlen_cons. rewrite <- (Qplus_0_r 1) at 1.
    apply Qplus_le_compat; [apply Qle_refl|apply Qlen_nonneg].
Qed.

Lemma ranking_metrics_in_range_witness :
  dict_get (get_ranking_metrics example_fns [1; 3; 2]) INVERSE_HARMONIC_MEAN_RANK
  = Some (/ stats_hmean [1; 3; 2])
  /\ / stats_hmean [1; 3; 2] == 11 # 18
  /\ in_value_range unit_range_open_below (/ stats_hmean [1; 3; 2]).
Proof.
  split; [reflexivity|]. split; [reflexivity|].
  apply (ranking_metrics_in_range example_fns [1; 3; 2] INVERSE_HARMONIC_MEAN_RANK
           (/ stats_hmean [1; 3; 2])
           (mkMetricAnnotation "Mean Reciprocal Rank (MRR)" true unit_range_open_below)).
  - discriminate.
  - repeat (constructor; [unfold Qle; cbn; lia|]). constructor.
  - simpl. tauto.
  - reflexivity.
  - reflexivity.
Defined.

(** ** The micro accumulator *)

Lemma batch_ranks_of_cons (rank_type' : string) (v : list Q) (batch : list (string * list Q))
    (rank_type : string) :
  batch_ranks_of ((rank_type', v) :: batch) rank_type
  = ((if decide (rank_type' = rank_type) then v else []) ++ batch_ranks_of batch rank_type)%list.
Proof.
  unfold batch_ranks_of. rewrite filter_cons. cbn [fst].
  destruct (decide (rank_type' = rank_type)); reflexivity.
Qed.

Lemma extend_ranks_fold (target : string) (batch : list (string * list Q))
    (ranks : gmap (string * string) (list Q)) (side rank_type : string) :
  default [] (foldl (RankBasedEvaluator.extend_ranks target) ranks batch !! (side, rank_type))
  = (default [] (ranks !! (side, rank_type))
     ++ (if decide (side = target) then batch_ranks_of batch rank_type else []))%list.
Proof.
  revert ranks. induction batch as [|[rank_type' v] batch IH]; intros ranks.
  - cbn [foldl]. destruct (decide (side = target)); rewrite app_nil_r; reflexivity.
  - cbn [foldl]. rewrite IH, batch_ranks_of_cons.
    unfold RankBasedEvaluator.extend_ranks.
    destruct (decide ((target, rank_type') = (side, rank_type))) as [[= -> ->]|Hne].
    + rewrite lookup_insert_eq. cbn [default].
      destruct (decide (side = side)); [|congruence].
      destruct (decide (rank_type = rank_type)); [|congruence].
      rewrite app_assoc. reflexivity.
    + rewrite lookup_insert_ne by exact Hne.
      destruct (decide (side = target)) as [->|]; [|reflexivity].
      destruct (decide (rank_type' = rank_type)) as [->|]; [congruence|reflexivity].
Qed.

(** X8.  [process_scores_] of the micro accumulator refuses a batch without
    true scores and otherwise only appends: every buffer keeps what it held,
    the buffers of the target receive after it the ranks of the batch for
    their rank type, the buffers of the other sides are untouched, and the
    number of candidates becomes the number of columns of the scores. *)
Theorem process_scores_appends (Ranks_from_scores : RanksFromScores)
    (self : RankBasedEvaluator.t) (target : string) (scores : Tensor Q) :
  RankBasedEvaluator.process_scores_ Ranks_from_scores self target scores None
  = inl (ValueError TrueScoresMissing)
  /\ forall true_scores,
       exists self',
         RankBasedEvaluator.process_scores_ Ranks_from_scores self target scores
           (Some true_scores) = inr self'
         /\ RankBasedEvaluator.ks self' = RankBasedEvaluator.ks self
         /\ RankBasedEvaluator.num_entities self' = Some (shape1 scores)
         /\ forall side rank_type,
              default [] (RankBasedEvaluator.ranks self' !! (side, rank_type))
              = (default [] (RankBasedEvaluator.ranks self !! (side, rank_type))
                 ++ (if decide (side = target)
                     then batch_ranks_of (Ranks_from_scores true_scores scores) rank_type
                     else []))%list.
Proof.
  split; [reflexivity|]. intros true_scores. eexists. split; [reflexivity|].
  cbn [RankBasedEvaluator.ks RankBasedEvaluator.num_entities RankBasedEvaluator.ranks].
  split; [reflexivity|]. split; [reflexivity|].
  intros side rank_type. apply extend_ranks_fold.
Qed.

Section MicroFinalize.

Variable fns : Irrational.

Lemma hits_write_metrics (side rank_type : string) (metrics : list (string * Q))
    (res : MetricResults) :
  hits_at_k (foldl (fun res '(metric_name, metric_value) =>
                      set_metric metric_name side rank_type (Num metric_value) res)
                   res metrics)
  = hits_at_k res.
Proof.
  revert res. induction metrics as [|[m v] metrics IH]; intros res; [reflexivity|].
  cbn [foldl]. rewrite IH. reflexivity.
Qed.

Lemma write_metrics_lookup (side rank_type : string) (metrics : list (string * Q))
    (res : MetricResults) (name : string) (v : Q) :
  NoDup (map fst metrics) -> (name, v) ∈ metrics ->
  data (foldl (fun res '(metric_name, metric_value) =>
                 set_metric metric_name side rank_type (Num metric_value) res)
              res metrics) !! (name, side, rank_type)
  = Some (Num v).
Proof.
  revert res. induction metrics as [|[m w] metrics IH]; intros res Hnodup Hin;
    [inversion Hin|].
  cbn [map fst] in Hnodup. apply NoDup_cons in Hnodup as [Hfresh Hnodup].
  cbn [foldl].
  apply elem_of_cons in Hin as [[= -> ->]|Hin].
  - rewrite write_metrics_other by (right; exact Hfresh).
    rewrite data_set_metric. apply lookup_insert_eq.
  - apply IH; assumption.
Qed.

Lemma registry_names_NoDup (ranks : list Q) :
  NoDup (map fst (get_ranking_metrics fns ranks)).
Proof.
  unfold get_ranking_metrics, ALL_TYPE_FUNCS. cbn [map fst].
  apply (bool_decide_unpack _). vm_compute. reflexivity.
Qed.

Lemma registry_entry (ranks : list Q) (name : string) (f : list Q -> Q) :
  (name, f) ∈ ALL_TYPE_FUNCS fns -> (name, f ranks) ∈ get_ranking_metrics fns ranks.
Proof.
  intros Hin. unfold get_ranking_metrics.
  change (map ?g ?l) with (g <$> l).
  apply list_elem_of_fmap. exists (name, f). split; [reflexivity|assumption].
Qed.

(** One turn of the loop of [finalize], for the metrics of the registry and
    for hits at k. *)
Lemma finalize_pair_registry (self : RankBasedEvaluator.t) (n : Z) (res res' : MetricResults)
    (side rank_type : string) :
  RankBasedEvaluator.finalize_pair fns self n res (side, rank_type) = inr res' ->
  (RankBasedEvaluator._get_ranks self side rank_type = [] -> res' = res)
  /\ (RankBasedEvaluator._get_ranks self side rank_type <> [] ->
      (forall name f,
          (name, f) ∈ ALL_TYPE_FUNCS fns ->
          data res' !! (name, side, rank_type)
          = Some (Num (f (RankBasedEvaluator._get_ranks self side rank_type))))
      /\ hits_at_k res' !! (side, rank_type)
         = Some (map (fun k => (k, hits_fraction n
                                     (RankBasedEvaluator._get_ranks self side rank_type) k))
                     (RankBasedEvaluator.ks self)))
  /\ (forall s r, (s, r) <> (side, rank_type) ->
        hits_at_k res' !! (s, r) = hits_at_k res !! (s, r)).
Proof.
  unfold RankBasedEvaluator.finalize_pair.
  set (ranks := RankBasedEvaluator._get_ranks self side rank_type).
  destruct (Nat.ltb_spec (length ranks) 1) as [Hempty|Hsome].
  { intros [= <-]. split; [reflexivity|]. split; [|reflexivity].
    intros Hne. destruct ranks; [contradiction|simpl in Hempty; lia]. }
  set (hits := map _ (RankBasedEvaluator.ks self)).
  set (res2 := foldl _ (set_hits side rank_type hits res) (get_ranking_metrics fns ranks)).
  assert (Hdata : forall name f,
            (name, f) ∈ ALL_TYPE_FUNCS fns ->
            data res2 !! (name, side, rank_type) = Some (Num (f ranks))).
  { intros name f Hin. subst res2.
    apply write_metrics_lookup; [apply registry_names_NoDup|apply registry_entry, Hin]. }
  assert (Hhits : hits_at_k res2 = <[(side, rank_type) := hits]> (hits_at_k res)).
  { subst res2. rewrite hits_write_metrics. reflexivity. }
  assert (Hnames : forall name f,
            (name, f) ∈ ALL_TYPE_FUNCS fns ->
            name <> ADJUSTED_ARITHMETIC_MEAN_RANK
            /\ name <> ADJUSTED_ARITHMETIC_MEAN_RANK_INDEX).
  { intros name f Hin. destruct (adjusted_not_written fns ranks) as [Ha Hb].
    assert (Hname : name ∈ map fst (get_ranking_metrics fns ranks)).
    { change (map ?g ?l) with (g <$> l). apply list_elem_of_fmap.
      exists (name, f ranks). split; [reflexivity|apply registry_entry, Hin]. }
    split; intros ->; contradiction. }
  assert (Hgoal : forall res3,
            hits_at_k res3 = hits_at_k res2 ->
            (forall name f, (name, f) ∈ ALL_TYPE_FUNCS fns ->
               data res3 !! (name, side, rank_type) = data res2 !! (name, side, rank_type)) ->
            (ranks = [] -> res3 = res)
            /\ (ranks <> [] ->
                (forall name f,
                    (name, f) ∈ ALL_TYPE_FUNCS fns ->
                    data res3 !! (name, side, rank_type) = Some (Num (f ranks)))
                /\ hits_at_k res3 !! (side, rank_type)
                   = Some (map (fun k => (k, hits_fraction n ranks k))
                               (RankBasedEvaluator.ks self)))
            /\ (forall s r, (s, r) <> (side, rank_type) ->
                  hits_at_k res3 !! (s, r) = hits_at_k res !! (s, r))).
  { intros res3 H3 Hd3. split; [|split].
    - intros Hnil. rewrite Hnil in Hsome. simpl in Hsome. lia.
    - intros _. split.
      + intros name f Hin. rewrite (Hd3 name f Hin). apply Hdata, Hin.
      + rewrite H3, Hhits. apply lookup_insert_eq.
    - intros s r Hne. rewrite H3, Hhits. apply lookup_insert_ne. congruence. }
  destruct (dict_get EXPECTED_RANKS rank_type) as [expected_rank_type|].
  - destruct (0 <? length _)%nat.
    + destruct (get_number _ _ _ res2) as [e|mean_rank]; [discriminate|]. cbn [bind].
      destruct (py_div mean_rank _) as [e|adjusted]; [discriminate|]. cbn [bind].
      destruct (get_number _ _ _ _) as [e|mean_rank']; [discriminate|]. cbn [bind].
      destruct (py_div _ _) as [e|ratio]; [discriminate|]. cbn [bind].
      intros [= <-]. apply Hgoal; [reflexivity|].
      intros name f Hin. destruct (Hnames name f Hin) as [Ha Hb].
      rewrite !data_set_metric.
      rewrite !lookup_insert_ne by congruence. reflexivity.
    + intros [= <-]. apply Hgoal; reflexivity.
  - intros [= <-]. apply Hgoal; reflexivity.
Qed.

(** The loop of [finalize] over distinct pairs. *)
Lemma finalize_pairs_registry (self : RankBasedEvaluator.t) (n : Z)
    (pairs : list (string * string)) (res res' : MetricResults) :
  NoDup pairs ->
  foldM (RankBasedEvaluator.finalize_pair fns self n) res pairs = inr res' ->
  (forall s r, (s, r) ∉ pairs -> hits_at_k res' !! (s, r) = hits_at_k res !! (s, r))
  /\ forall side rank_type,
       (side, rank_type) ∈ pairs ->
       (RankBasedEvaluator._get_ranks self side rank_type = [] ->
        (forall name, data res' !! (name, side, rank_type) = data res !! (name, side, rank_type))
        /\ hits_at_k res' !! (side, rank_type) = hits_at_k res !! (side, rank_type))
       /\ (RankBasedEvaluator._get_ranks self side rank_type <> [] ->
           (forall name f,
               (name, f) ∈ ALL_TYPE_FUNCS fns ->
               data res' !! (name, side, rank_type)
               = Some (Num (f (RankBasedEvaluator._get_ranks self side rank_type))))
           /\ hits_at_k res' !! (side, rank_type)
              = Some (map (fun k => (k, hits_fraction n
                                          (RankBasedEvaluator._get_ranks self side rank_type) k))
                          (RankBasedEvaluator.ks self))).
Proof.
  revert res. induction pairs as [|[s0 r0] pairs IH]; intros res Hnodup.
  - intros [= <-]. split; [reflexivity|]. intros side rank_type Hin. inversion Hin.
  - apply NoDup_cons in Hnodup as [Hfresh Hnodup].
    rewrite foldM_cons.
    destruct (RankBasedEvaluator.finalize_pair fns self n res (s0, r0)) as [e|res1] eqn:Hstep;
      [discriminate|].
    cbn [bind]. intros Hfold.
    pose proof (finalize_pair_spec fns self n res res1 s0 r0 Hstep) as (Hother1 & _ & _).
    pose proof (finalize_pair_registry self n res res1 s0 r0 Hstep) as (Hnil1 & Hsome1 & Hhits1).
    pose proof (finalize_pairs_spec fns self n pairs res1 res' Hfold) as (Hother & _ & _).
    destruct (IH res1 Hnodup Hfold) as (Hhits & Hrest).
    split.
    + intros s r Hnot. apply not_elem_of_cons in Hnot as [Hne Hnot].
      rewrite (Hhits s r Hnot). apply Hhits1, Hne.
    + intros side rank_type Hin.
      apply elem_of_cons in Hin as [[= -> ->]|Hin].
      * split.
        -- intros Hnil. rewrite (Hnil1 Hnil) in *. split.
           ++ intros name. apply Hother, Hfresh.
           ++ apply Hhits, Hfresh.
        -- intros Hne. destruct (Hsome1 Hne) as [Hd Hh]. split.
           ++ intros name f Hf. rewrite (Hother name s0 r0 Hfresh). apply Hd, Hf.
           ++ rewrite (Hhits s0 r0 Hfresh). exact Hh.
      * assert (Hne : (side, rank_type) <> (s0, r0)) by (intros [= -> ->]; contradiction).
        destruct (Hrest side rank_type Hin) as [Hnil Hsome]. split; [|exact Hsome].
        intros Hempty. destruct (Hnil Hempty) as [Hd Hh]. split.
        -- intros name. rewrite Hd. apply Hother1, Hne.
        -- rewrite Hh. apply Hhits1, Hne.
Qed.

End MicroFinalize.

Lemma product_sides_rank_types_NoDup : NoDup (product SIDES RANK_TYPES).
Proof. apply (bool_decide_unpack _). vm_compute. reflexivity. Qed.

Lemma product_sides_rank_types_elem (side rank_type : string) :
  side ∈ SIDES -> rank_type ∈ RANK_TYPES -> (side, rank_type) ∈ product SIDES RANK_TYPES.
Proof.
  intros Hs Hr. unfold product.
  apply list_elem_of_bind. exists side. split; [|assumption].
  apply list_elem_of_bind. exists rank_type. split; [|assumption].
  apply list_elem_of_singleton. reflexivity.
Qed.

(** X9.  What [finalize] of the micro accumulator reports for a side and a
    base rank type: nothing at all when the pair has no observation, and
    otherwise, for every function of the registry, its value on the ranks of
    the pair, and for hits at k one fraction for each configured [k], in the
    order of [ks]. *)
Theorem finalize_registry_metrics (fns : Irrational) (self self' : RankBasedEvaluator.t)
    (res : MetricResults) (n : Z) (side rank_type : string) :
  RankBasedEvaluator.finalize fns self = inr (res, self') ->
  RankBasedEvaluator.num_entities self = Some n ->
  side ∈ SIDES -> rank_type ∈ RANK_TYPES ->
  (RankBasedEvaluator._get_ranks self side rank_type = [] ->
   (forall name, data res !! (name, side, rank_type) = None)
   /\ hits_at_k res !! (side, rank_type) = None)
  /\ (RankBasedEvaluator._get_ranks self side rank_type <> [] ->
      (forall name f,
          (name, f) ∈ ALL_TYPE_FUNCS fns ->
          data res !! (name, side, rank_type)
          = Some (Num (f (RankBasedEvaluator._get_ranks self side rank_type))))
      /\ hits_at_k res !! (side, rank_type)
         = Some (map (fun k => (k, hits_fraction n
                                     (RankBasedEvaluator._get_ranks self side rank_type) k))
                     (RankBasedEvaluator.ks self))).
Proof.
  unfold RankBasedEvaluator.finalize. intros Hfin Hn Hside Hrt. rewrite Hn in Hfin.
  destruct (foldM _ empty_results (product SIDES RANK_TYPES)) as [e|res0] eqn:Hfold;
    [discriminate|].
  cbn [bind] in Hfin. injection Hfin as <- _.
  destruct (finalize_pairs_registry fns self n _ _ _ product_sides_rank_types_NoDup Hfold)
    as [_ Hpairs].
  destruct (Hpairs side rank_type (product_sides_rank_types_elem side rank_type Hside Hrt))
    as [Hnil Hsome].
  split; [|exact Hsome].
  intros Hempty. destruct (Hnil Hempty) as [Hd Hh]. split.
  - intros name. rewrite Hd. apply lookup_empty.
  - rewrite Hh. apply lookup_empty.
Qed.

Lemma finalize_registry_metrics_witness :
  exists self res self',
    example_adjusted_run = inr self
    /\ RankBasedEvaluator.finalize example_fns self = inr (res, self')
    /\ np_mean (RankBasedEvaluator._get_ranks self LABEL_HEAD RANK_REALISTIC) == 2
    /\ RankBasedEvaluator._get_ranks self LABEL_TAIL RANK_REALISTIC = []
    /\ ((RankBasedEvaluator._get_ranks self LABEL_HEAD RANK_REALISTIC = [] ->
         (forall name, data res !! (name, LABEL_HEAD, RANK_REALISTIC) = None)
         /\ hits_at_k res !! (LABEL_HEAD, RANK_REALISTIC) = None)
        /\ (RankBasedEvaluator._get_ranks self LABEL_HEAD RANK_REALISTIC <> [] ->
            (forall name f,
                (name, f) ∈ ALL_TYPE_FUNCS example_fns ->
                data res !! (name, LABEL_HEAD, RANK_REALISTIC)
                = Some (Num (f (RankBasedEvaluator._get_ranks self LABEL_HEAD RANK_REALISTIC))))
            /\ hits_at_k res !! (LABEL_HEAD, RANK_REALISTIC)
               = Some (map (fun k => (k, hits_fraction 7
                                           (RankBasedEvaluator._get_ranks self LABEL_HEAD
                                              RANK_REALISTIC) k))
                           (RankBasedEvaluator.ks self)))).
Proof.
  pose (blank := RankBasedEvaluator.mk [] ∅ None).
  pose (self := from_ok blank example_adjusted_run).
  pose (out := from_ok (empty_results, blank)
                       (RankBasedEvaluator.finalize example_fns self)).
  assert (Hrun : example_adjusted_run = inr self)
    by (apply is_ok_inr; vm_compute; reflexivity).
  assert (Hfin : RankBasedEvaluator.finalize example_fns self = inr (out.1, out.2)).
  { rewrite <- surjective_pairing. apply is_ok_inr. vm_compute. reflexivity. }
  exists self, out.1, out.2.
  split; [exact Hrun|]. split; [exact Hfin|].
  split; [vm_compute; reflexivity|]. split; [vm_compute; reflexivity|].
  apply (finalize_registry_metrics example_fns self out.2 out.1 7 LABEL_HEAD RANK_REALISTIC Hfin).
  - vm_compute. reflexivity.
  - apply (bool_decide_unpack _). vm_compute. exact I.
  - apply (bool_decide_unpack _). vm_compute. exact I.
Defined.

(** *** Hits at k *)

Lemma Qsum_map_le {A : Type} (f g : A -> Q) (xs : list A) :
  (forall x, x ∈ xs -> f x <= g x) -> Qsum (map f xs) <= Qsum (map g xs).
Proof.
  induction xs as [|x xs IH]; intros H; cbn [map]; [apply Qle_refl|].
  rewrite !Qsum_cons. apply Qplus_le_compat.
  - apply H. left.
  - apply IH. intros y Hy. apply H. now right.
Qed.

Lemma hits_fraction_eq (n : Z) (ranks : list Q) (k : HitsK) :
  hits_fraction n ranks k
  = Qsum (map (fun r => if Qle_bool r (inject_Z (hits_threshold n k)) then 1 else 0) ranks)
    / Qlen ranks.
Proof.
  unfold hits_fraction, np_mean_bool, np_mean. rewrite map_map.
  unfold Qlen. rewrite length_map. reflexivity.
Qed.

Lemma hits_fraction_range (n : Z) (ranks : list Q) (k : HitsK) :
  ranks <> [] -> 0 <= hits_fraction n ranks k /\ hits_fraction n ranks k <= 1.
Proof.
  intros Hne. unfold hits_fraction, np_mean_bool.
  assert (Hne' : map (fun b : bool => if b then 1 else 0)
                     (map (fun r => Qle_bool r (inject_Z (hits_threshold n k))) ranks) <> [])
    by (destruct ranks; [congruence|discriminate]).
  split.
  - apply np_mean_lower; [assumption|].
    apply Forall_map, Forall_forall. intros [] _; [discriminate|apply Qle_refl].
  - apply np_mean_upper; [assumption|].
    apply Forall_map, Forall_forall. intros [] _; [apply Qle_refl|discriminate].
Qed.

Lemma hits_fraction_mono (n : Z) (ranks : list Q) (k1 k2 : HitsK) :
  (hits_threshold n k1 <= hits_threshold n k2)%Z ->
  hits_fraction n ranks k1 <= hits_fraction n ranks k2.
Proof.
  intros Hle. rewrite !hits_fraction_eq. unfold Qdiv.
  apply Qmult_le_compat_r; [|apply Qinv_le_0_compat, Qlen_nonneg].
  apply Qsum_map_le. intros r _.
  destruct (Qle_bool r (inject_Z (hits_threshold n k1))) eqn:H1.
  - apply Qle_bool_iff in H1.
    assert (H2 : Qle_bool r (inject_Z (hits_threshold n k2)) = true).
    { apply Qle_bool_iff. eapply Qle_trans; [exact H1|]. rewrite <- Zle_Qle. exact Hle. }
    rewrite H2. apply Qle_refl.
  - destruct (Qle_bool r (inject_Z (hits_threshold n k2))); [discriminate|apply Qle_refl].
Qed.

(** The bound of a relative [k] is the truncation of the rounded product:
    of 50 entities, [k = 0.58] bounds the ranks by 28, and of 10 entities,
    [k = 0.7] bounds them by 7. *)
Example hits_threshold_relative :
  hits_threshold 50 (FloatK (58 # 100)) = 28%Z
  /\ hits_threshold 10 (FloatK (7 # 10)) = 7%Z
  /\ hits_threshold 50 (IntK 29) = 29%Z.
Proof. repeat split; vm_compute; reflexivity. Qed.

(** X10.  Every table of hits at k that [finalize] reports has one entry for
    each configured [k]; each value lies between 0 and 1, and a [k] with a
    larger bound never has a smaller value. *)
Theorem finalize_hits_monotone (fns : Irrational) (self self' : RankBasedEvaluator.t)
    (res : MetricResults) (n : Z) (side rank_type : string) (hits : list (HitsK * Q)) :
  RankBasedEvaluator.finalize fns self = inr (res, self') ->
  RankBasedEvaluator.num_entities self = Some n ->
  hits_at_k res !! (side, rank_type) = Some hits ->
  map fst hits = RankBasedEvaluator.ks self
  /\ forall k1 v1,
       (k1, v1) ∈ hits ->
       0 <= v1 /\ v1 <= 1
       /\ forall k2 v2,
            (k2, v2) ∈ hits ->
            (hits_threshold n k1 <= hits_threshold n k2)%Z ->
            v1 <= v2.
Proof.
  unfold RankBasedEvaluator.finalize. intros Hfin Hn Hhits. rewrite Hn in Hfin.
  destruct (foldM _ empty_results (product SIDES RANK_TYPES)) as [e|res0] eqn:Hfold;
    [discriminate|].
  cbn [bind] in Hfin. injection Hfin as <- _.
  destruct (finalize_pairs_registry fns self n _ _ _ product_sides_rank_types_NoDup Hfold)
    as [Hout Hpairs].
  destruct (decide ((side, rank_type) ∈ product SIDES RANK_TYPES)) as [Hin|Hnot];
    [|rewrite (Hout side rank_type Hnot) in Hhits; discriminate Hhits].
  destruct (Hpairs side rank_type Hin) as [Hnil Hsome].
  set (ranks := RankBasedEvaluator._get_ranks self side rank_type) in *.
  destruct (decide (ranks = [])) as [Hempty|Hne].
  { destruct (Hnil Hempty) as [_ Hh]. rewrite Hh in Hhits. discriminate Hhits. }
  destruct (Hsome Hne) as [_ Hh]. rewrite Hh in Hhits. injection Hhits as <-.
  split.
  { rewrite map_map. cbn [fst]. apply map_id. }
  intros k1 v1 H1.
  change (map ?g ?l) with (g <$> l) in H1.
  apply list_elem_of_fmap in H1 as (k1' & [= -> ->] & _).
  destruct (hits_fraction_range n ranks k1' Hne) as [Hlo Hhi].
  split; [assumption|]. split; [assumption|].
  intros k2 v2 H2 Hle.
  change (map ?g ?l) with (g <$> l) in H2.
  apply list_elem_of_fmap in H2 as (k2' & [= -> ->] & _).
  apply hits_fraction_mono, Hle.
Qed.

Lemma finalize_hits_monotone_witness :
  exists self res self' hits,
    example_adjusted_run = inr self
    /\ RankBasedEvaluator.finalize example_fns self = inr (res, self')
    /\ hits_at_k res !! (LABEL_HEAD, RANK_REALISTIC) = Some hits
    /\ (map fst hits = RankBasedEvaluator.ks self
        /\ forall k1 v1,
             (k1, v1) ∈ hits ->
             0 <= v1 /\ v1 <= 1
             /\ forall k2 v2,
                  (k2, v2) ∈ hits ->
                  (hits_threshold 7 k1 <= hits_threshold 7 k2)%Z ->
                  v1 <= v2).
Proof.
  pose (blank := RankBasedEvaluator.mk [] ∅ None).
  pose (self := from_ok blank example_adjusted_run).
  pose (out := from_ok (empty_results, blank)
                       (RankBasedEvaluator.finalize example_fns self)).
  pose (hits := default [] (hits_at_k out.1 !! (LABEL_HEAD, RANK_REALISTIC))).
  assert (Hrun : example_adjusted_run = inr self)
    by (apply is_ok_inr; vm_compute; reflexivity).
  assert (Hfin : RankBasedEvaluator.finalize example_fns self = inr (out.1, out.2)).
  { rewrite <- surjective_pairing. apply is_ok_inr. vm_compute. reflexivity. }
  assert (Hhits : hits_at_k out.1 !! (LABEL_HEAD, RANK_REALISTIC) = Some hits).
  { subst hits. destruct (hits_at_k out.1 !! (LABEL_HEAD, RANK_REALISTIC)) eqn:E;
      [reflexivity|]. vm_compute in E. discriminate E. }
  exists self, out.1, out.2, hits.
  split; [exact Hrun|]. split; [exact Hfin|]. split; [exact Hhits|].
  apply (finalize_hits_monotone example_fns self out.2 out.1 7 LABEL_HEAD RANK_REALISTIC
           hits Hfin).
  - vm_compute. reflexivity.
  - exact Hhits.
Defined.

(** X11.  [finalize] keeps the number of candidates while it clears the
    buffers: a second [finalize] with no batch in between does not raise the
    state error, it returns results without any entry. *)
Theorem finalize_again_reports_nothing (fns : Irrational)
    (self self' : RankBasedEvaluator.t) (res : MetricResults) :
  RankBasedEvaluator.finalize fns self = inr (res, self') ->
  RankBasedEvaluator.num_entities self' = RankBasedEvaluator.num_entities self
  /\ RankBasedEvaluator.finalize fns self' = inr (empty_results, self').
Proof.
  unfold RankBasedEvaluator.finalize at 1.
  destruct (RankBasedEvaluator.num_entities self) as [n|] eqn:Hn; [|discriminate].
  destruct (foldM _ empty_results (product SIDES RANK_TYPES)) as [e|res0]; [discriminate|].
  cbn [bind]. intros [= <- <-].
  cbn [RankBasedEvaluator.num_entities]. split; [reflexivity|].
  rewrite (micro_finalize_empty fns _ n); reflexivity.
Qed.

Lemma finalize_again_reports_nothing_witness :
  exists self res self',
    example_micro_run = inr self
    /\ RankBasedEvaluator.finalize example_fns self = inr (res, self')
    /\ RankBasedEvaluator.num_entities self' = RankBasedEvaluator.num_entities self
    /\ RankBasedEvaluator.finalize example_fns self' = inr (empty_results, self').
Proof.
  pose (blank := RankBasedEvaluator.mk [] ∅ None).
  pose (self := from_ok blank example_micro_run).
  pose (out := from_ok (empty_results, blank)
                       (RankBasedEvaluator.finalize example_fns self)).
  assert (Hrun : example_micro_run = inr self)
    by (apply is_ok_inr; vm_compute; reflexivity).
  assert (Hfin : RankBasedEvaluator.finalize example_fns self = inr (out.1, out.2)).
  { rewrite <- surjective_pairing. apply is_ok_inr. vm_compute. reflexivity. }
  exists self, out.1, out.2.
  split; [exact Hrun|]. split; [exact Hfin|].
  apply (finalize_again_reports_nothing example_fns self out.2 out.1 Hfin).
Defined.

(** ** The macro accumulator *)

Section MacroFinalize.

Variable fns : Irrational.

Lemma np_take_error {A : Type} (a : list A) (indices : list nat) (e : Exception) :
  np_take a indices = inl e -> e = IndexError.
Proof.
  induction indices as [|i indices IH]; simpl; [discriminate|].
  destruct (a !! i); [|intros [= <-]; reflexivity].
  destruct (np_take a indices) as [e'|xs]; [|discriminate].
  cbn [bind]. intros [= <-]. apply IH. reflexivity.
Qed.

Lemma weighted_median_error (a weights : list Q) (e : Exception) :
  weighted_median a weights = inl e -> e = IndexError.
Proof.
  unfold weighted_median.
  destruct (np_take a (np_argsort a)) as [e'|s_ranks] eqn:Hr.
  { cbn [bind]. intros [= <-]. eapply np_take_error; eauto. }
  cbn [bind].
  destruct (np_take weights (np_argsort a)) as [e'|s_weights] eqn:Hw.
  { cbn [bind]. intros [= <-]. eapply np_take_error; eauto. }
  cbn [bind].
  match goal with |- context [s_ranks !! ?i] => destruct (s_ranks !! i) end;
    [discriminate|intros [= <-]; reflexivity].
Qed.

(** The loop of hits at k of the macro [finalize] does not raise when the
    weights do not sum to zero. *)
Lemma macro_hits_ok (num_entities : Z) (ranks weights : list Q) (ks : list HitsK)
    (acc : list (HitsK * Q)) :
  ~ Qsum weights == 0 ->
  exists hits,
    foldM (fun acc k =>
             try v <- np_average
                        (map (fun r => if Qle_bool r (inject_Z (hits_threshold num_entities k))
                                       then 1 else 0) ranks)
                        weights in
             inr (acc ++ [(k, v)])%list)
          acc ks = inr hits.
Proof.
  intros Hw. revert acc. induction ks as [|k ks IH]; intros acc; [eexists; reflexivity|].
  rewrite foldM_cons. unfold np_average at 1.
  destruct (Qeq_bool (Qsum weights) 0) eqn:Hzero.
  - apply Qeq_bool_eq in Hzero. contradiction.
  - cbn [bind]. apply IH.
Qed.

Lemma macro_weights_positive (keys : list (Z * Z)) :
  Forall (fun w => 0 < w) (map (fun key => / inject_Z (Z.of_nat (count_row key keys))) keys).
Proof.
  apply Forall_map, Forall_forall. intros key Hkey.
  apply Qinv_lt_0_compat. pose proof (count_row_pos key keys Hkey) as Hpos.
  unfold Qlt. cbn. lia.
Qed.

Lemma Qsum_positive_nonzero (ws : list Q) :
  ws <> [] -> Forall (fun w => 0 < w) ws -> ~ Qsum ws == 0.
Proof.
  intros Hne Hall Hzero. pose proof (Qsum_pos ws Hne Hall) as Hpos.
  rewrite Hzero in Hpos. inversion Hpos.
Qed.

Lemma np_average_ok (xs ws : list Q) :
  ~ Qsum ws == 0 -> exists v, np_average xs ws = inr v.
Proof.
  intros Hw. unfold np_average.
  destruct (Qeq_bool (Qsum ws) 0) eqn:Hzero; [|eexists; reflexivity].
  apply Qeq_bool_eq in Hzero. contradiction.
Qed.

Lemma get_macro_ranking_metrics_positive (ranks weights : list Q) (e : Exception) :
  ~ Qsum weights == 0 ->
  get_macro_ranking_metrics fns ranks weights = inl e -> e = IndexError.
Proof.
  intros Hw. unfold get_macro_ranking_metrics.
  destruct (np_average_ok ranks weights Hw) as [mean ->]. cbn [bind]. cbv zeta.
  destruct (weighted_median ranks weights) as [e'|median] eqn:Hmedian.
  { cbn [bind]. intros [= <-]. eapply weighted_median_error; eauto. }
  cbn [bind].
  match goal with |- context [np_average ?xs weights] =>
    destruct (np_average_ok xs weights Hw) as [variance ->]
  end.
  discriminate.
Qed.

Lemma finalize_rank_type_error (self : MacroRankBasedEvaluator.t) (n : Z) (side : string)
    (weights : list Q) (res : MetricResults) (rank_type : string) (e : Exception) :
  length (RankBasedEvaluator._get_ranks (MacroRankBasedEvaluator.base self) side rank_type)
  = length weights ->
  Forall (fun w => 0 < w) weights ->
  MacroRankBasedEvaluator.finalize_rank_type fns self n side weights res rank_type = inl e ->
  e = IndexError.
Proof.
  intros Hlen Hpos. unfold MacroRankBasedEvaluator.finalize_rank_type.
  rewrite Hlen, Nat.eqb_refl. cbn [negb].
  destruct (Nat.ltb_spec (length weights) 1) as [|Hsome]; [discriminate|].
  assert (Hw : ~ Qsum weights == 0).
  { apply Qsum_positive_nonzero; [|assumption]. destruct weights; [simpl in Hsome; lia|discriminate]. }
  match goal with |- context [foldM ?f [] ?ks] =>
    destruct (macro_hits_ok n (RankBasedEvaluator._get_ranks (MacroRankBasedEvaluator.base self)
                                 side rank_type) weights ks [] Hw) as [hits Hhits]
  end.
  rewrite Hhits. cbn [bind].
  destruct (get_macro_ranking_metrics fns _ weights) as [e'|metrics] eqn:Hm; [|discriminate].
  cbn [bind]. intros [= <-]. eapply get_macro_ranking_metrics_positive; eauto.
Qed.

Lemma foldM_error {E A B : Type} (f : B -> A -> E + B) (xs : list A) (acc : B) (e : E) :
  foldM f acc xs = inl e -> exists acc' x, x ∈ xs /\ f acc' x = inl e.
Proof.
  revert acc. induction xs as [|x xs IH]; intros acc; [discriminate|].
  rewrite foldM_cons. destruct (f acc x) as [e'|acc1] eqn:Hstep.
  - cbn [bind]. intros [= <-]. exists acc, x. split; [left|assumption].
  - cbn [bind]. intros H. destruct (IH acc1 H) as (acc' & y & Hy & Hf).
    exists acc', y. split; [now right|assumption].
Qed.

Lemma read_keys_default (keys : gmap string (list (Z * Z))) (side s : string) :
  default [] ((MacroRankBasedEvaluator.read_keys keys side).2 !! s) = default [] (keys !! s).
Proof.
  unfold MacroRankBasedEvaluator.read_keys. cbn [snd].
  destruct (decide (side = s)) as [->|Hne].
  - rewrite lookup_insert_eq. reflexivity.
  - rewrite lookup_insert_ne by exact Hne. reflexivity.
Qed.

(** [_get_keys] on one of the three sides: the keys of the side, head before
    tail for both, and a dictionary that reads as before. *)
Lemma get_keys_side (keys : gmap string (list (Z * Z))) (side : string) :
  side ∈ SIDES ->
  exists keys',
    MacroRankBasedEvaluator._get_keys keys side
    = inr (if String.eqb side SIDE_BOTH
           then (default [] (keys !! LABEL_HEAD) ++ default [] (keys !! LABEL_TAIL))%list
           else default [] (keys !! side),
           keys')
    /\ forall s, default [] (keys' !! s) = default [] (keys !! s).
Proof.
  intros Hside. unfold SIDES in Hside.
  repeat (apply elem_of_cons in Hside as [->|Hside]); [| | |inversion Hside].
  - eexists. split; [reflexivity|]. intros s. apply read_keys_default.
  - eexists. split; [reflexivity|]. intros s. apply read_keys_default.
  - eexists. split.
    + unfold MacroRankBasedEvaluator._get_keys, MacroRankBasedEvaluator.read_keys.
      change (String.eqb SIDE_BOTH SIDE_BOTH) with true. cbv iota.
      change (String.eqb LABEL_HEAD LABEL_HEAD || String.eqb LABEL_HEAD LABEL_TAIL) with true.
      change (String.eqb LABEL_TAIL LABEL_HEAD || String.eqb LABEL_TAIL LABEL_TAIL) with true.
      cbv iota. cbn [bind].
      rewrite lookup_insert_ne by discriminate. reflexivity.
    + intros s.
      destruct (decide (LABEL_TAIL = s)) as [<-|Htail].
      * rewrite lookup_insert_eq. reflexivity.
      * rewrite lookup_insert_ne by exact Htail.
        destruct (decide (LABEL_HEAD = s)) as [<-|Hhead].
        -- rewrite lookup_insert_eq. reflexivity.
        -- rewrite lookup_insert_ne by exact Hhead. reflexivity.
Qed.

(** The lengths of the buffers of ranks and of keys agree, for a dictionary
    of keys that may differ from the one of the accumulator. *)
Let lengths_match (base : RankBasedEvaluator.t) (keys : gmap string (list (Z * Z))) : Prop :=
  forall side rank_type,
    side ∈ [LABEL_HEAD; LABEL_TAIL] -> rank_type ∈ RANK_TYPES ->
    length (default [] (RankBasedEvaluator.ranks base !! (side, rank_type)))
    = length (default [] (keys !! side)).

Lemma get_ranks_length (base : RankBasedEvaluator.t) (keys : gmap string (list (Z * Z)))
    (side rank_type : string) :
  lengths_match base keys -> side ∈ SIDES -> rank_type ∈ RANK_TYPES ->
  length (RankBasedEvaluator._get_ranks base side rank_type)
  = length (if String.eqb side SIDE_BOTH
            then (default [] (keys !! LABEL_HEAD) ++ default [] (keys !! LABEL_TAIL))%list
            else default [] (keys !! side)).
Proof.
  intros Hmatch Hside Hrt. unfold SIDES in Hside.
  assert (Hh : LABEL_HEAD ∈ [LABEL_HEAD; LABEL_TAIL]) by left.
  assert (Ht : LABEL_TAIL ∈ [LABEL_HEAD; LABEL_TAIL]) by (right; left).
  repeat (apply elem_of_cons in Hside as [->|Hside]); [| | |inversion Hside].
  - apply (Hmatch LABEL_HEAD rank_type Hh Hrt).
  - apply (Hmatch LABEL_TAIL rank_type Ht Hrt).
  - unfold RankBasedEvaluator._get_ranks.
    change (String.eqb SIDE_BOTH SIDE_BOTH) with true. cbv iota.
    cbn [map concat]. rewrite app_nil_r, !length_app.
    rewrite (Hmatch LABEL_HEAD rank_type Hh Hrt), (Hmatch LABEL_TAIL rank_type Ht Hrt).
    reflexivity.
Qed.

Lemma finalize_side_inv (self : MacroRankBasedEvaluator.t) (n : Z) (res : MetricResults)
    (keys : gmap string (list (Z * Z))) (side : string) :
  lengths_match (MacroRankBasedEvaluator.base self) keys -> side ∈ SIDES ->
  match MacroRankBasedEvaluator.finalize_side fns self n (res, keys) side with
  | inl e => e = IndexError
  | inr (_, keys') => forall s, default [] (keys' !! s) = default [] (keys !! s)
  end.
Proof.
  intros Hmatch Hside. unfold MacroRankBasedEvaluator.finalize_side.
  destruct (get_keys_side keys side Hside) as (keys' & -> & Hkeys'). cbn [bind].
  rewrite macro_weights_eq. cbn [bind].
  match goal with |- context [foldM ?f res RANK_TYPES] =>
    destruct (foldM f res RANK_TYPES) as [e|res'] eqn:Hfold
  end.
  - cbn [bind]. apply foldM_error in Hfold as (acc & rank_type & Hrt & Hstep).
    eapply finalize_rank_type_error; [|apply macro_weights_positive|exact Hstep].
    rewrite length_map. apply get_ranks_length; assumption.
  - cbn [bind]. exact Hkeys'.
Qed.

Lemma finalize_sides_inv (self : MacroRankBasedEvaluator.t) (n : Z) (sides : list string)
    (res : MetricResults) (keys : gmap string (list (Z * Z))) (e : Exception) :
  lengths_match (MacroRankBasedEvaluator.base self) keys ->
  (forall side, side ∈ sides -> side ∈ SIDES) ->
  foldM (MacroRankBasedEvaluator.finalize_side fns self n) (res, keys) sides = inl e ->
  e = IndexError.
Proof.
  revert res keys. induction sides as [|side sides IH]; intros res keys Hmatch Hsides;
    [discriminate|].
  rewrite foldM_cons.
  pose proof (finalize_side_inv self n res keys side Hmatch (Hsides side ltac:(left))) as Hstep.
  destruct (MacroRankBasedEvaluator.finalize_side fns self n (res, keys) side)
    as [e'|[res' keys']].
  - cbn [bind]. intros [= <-]. exact Hstep.
  - cbn [bind]. apply IH.
    + intros s rank_type Hs Hrt. rewrite Hstep. apply Hmatch; assumption.
    + intros s Hs. apply Hsides. now right.
Qed.

End MacroFinalize.

(** X14.  On an accumulator whose keys are aligned with its ranks, the macro
    [finalize] raises nothing but the state error for a number of candidates
    never set and the index error of the weighted median: the assertion on
    the shapes holds for the three sides, and no weighted average divides by
    zero. *)
Theorem macro_finalize_raises (fns : Irrational) (self : MacroRankBasedEvaluator.t)
    (e : Exception) :
  aligned self ->
  MacroRankBasedEvaluator.finalize fns self = inl e ->
  e = ValueError NumEntitiesUnset \/ e = IndexError.
Proof.
  intros Haligned. unfold MacroRankBasedEvaluator.finalize.
  destruct (RankBasedEvaluator.num_entities (MacroRankBasedEvaluator.base self)) as [n|];
    [|intros [= <-]; auto].
  destruct (foldM _ (empty_results, MacroRankBasedEvaluator.keys self) SIDES)
    as [e'|[res keys]] eqn:Hfold; [|discriminate].
  cbn [bind]. intros [= <-]. right.
  eapply finalize_sides_inv; [exact Haligned| |exact Hfold]. auto.
Qed.

(** X13.  [process_scores_] of the macro accumulator keeps the keys aligned
    with the ranks: when the rank computation yields one rank of each base
    rank type for each triple of the batch, an accumulator with as many keys
    as ranks on the head and on the tail side has as many afterwards. *)
Theorem macro_process_scores_keeps_aligned (Ranks_from_scores : RanksFromScores)
    (self self' : MacroRankBasedEvaluator.t) (hrt_batch : list Triple) (target : string)
    (scores true_scores : Tensor Q) :
  aligned self ->
  (forall rank_type,
      rank_type ∈ RANK_TYPES ->
      length (batch_ranks_of (Ranks_from_scores true_scores scores) rank_type)
      = length hrt_batch) ->
  MacroRankBasedEvaluator.process_scores_ Ranks_from_scores self hrt_batch target scores
    (Some true_scores) = inr self' ->
  aligned self'.
Proof.
  intros Haligned Hbatch. unfold MacroRankBasedEvaluator.process_scores_.
  cbn [RankBasedEvaluator.process_scores_ bind].
  destruct (dict_get TARGET_TO_INDEX target) as [idx|]; [|discriminate].
  intros [= <-] side rank_type Hside Hrt.
  cbn [MacroRankBasedEvaluator.base MacroRankBasedEvaluator.keys RankBasedEvaluator.ranks].
  rewrite extend_ranks_fold, length_app, (Haligned side rank_type Hside Hrt).
  destruct (decide (side = target)) as [->|Hne].
  - rewrite lookup_insert_eq. unfold default at 2. cbn [from_option id].
    rewrite length_app, length_map, (Hbatch rank_type Hrt). reflexivity.
  - rewrite lookup_insert_ne by congruence. cbn [length]. lia.
Qed.

Lemma get_macro_ranking_metrics_single (fns : Irrational) (x w : Q) :
  0 < w -> get_macro_ranking_metrics fns [x] [w] = inl IndexError.
Proof.
  intros Hw. unfold get_macro_ranking_metrics.
  destruct (np_average_ok [x] [w]) as [mean ->].
  { unfold Qsum. cbn [foldr]. rewrite Qplus_0_r.
    intros Hzero. rewrite Hzero in Hw. inversion Hw. }
  cbn [bind]. cbv zeta. rewrite (weighted_median_single_observation x w Hw). reflexivity.
Qed.

(** X12.  A macro accumulator that received, after its construction, one
    batch of a single triple for the head side cannot be finalized: the
    weighted median of the one optimistic rank reads past the end, and
    [finalize] raises an index error, whatever the scores and the [ks]. *)
Theorem macro_finalize_single_observation (fns : Irrational)
    (Ranks_from_scores : RanksFromScores) (ks : option (list HitsK))
    (self0 self : MacroRankBasedEvaluator.t) (hrt : Triple) (scores true_scores : Tensor Q)
    (r : Q) :
  MacroRankBasedEvaluator.init ks = inr self0 ->
  MacroRankBasedEvaluator.process_scores_ Ranks_from_scores self0 [hrt] LABEL_HEAD scores
    (Some true_scores) = inr self ->
  batch_ranks_of (Ranks_from_scores true_scores scores) RANK_OPTIMISTIC = [r] ->
  MacroRankBasedEvaluator.finalize fns self = inl IndexError.
Proof.
  unfold MacroRankBasedEvaluator.init.
  destruct (RankBasedEvaluator.init ks) as [e|base0] eqn:Hinit; [discriminate|].
  cbn [bind]. intros [= <-].
  apply micro_init_inv in Hinit as [Hranks _].
  unfold MacroRankBasedEvaluator.process_scores_.
  cbn [RankBasedEvaluator.process_scores_ bind MacroRankBasedEvaluator.base
       MacroRankBasedEvaluator.keys].
  change (dict_get TARGET_TO_INDEX LABEL_HEAD) with (Some 0%nat).
  intros [= <-] Hr.
  unfold MacroRankBasedEvaluator.finalize.
  cbn [MacroRankBasedEvaluator.base RankBasedEvaluator.num_entities MacroRankBasedEvaluator.keys].
  unfold SIDES. rewrite foldM_cons.
  unfold MacroRankBasedEvaluator.finalize_side at 1.
  match goal with |- context [MacroRankBasedEvaluator._get_keys ?k LABEL_HEAD] =>
    destruct (get_keys_side k LABEL_HEAD ltac:(left)) as (keys' & -> & _)
  end.
  cbn [bind]. change (String.eqb LABEL_HEAD SIDE_BOTH) with false. cbv iota.
  rewrite lookup_insert_eq, lookup_empty. cbn [default from_option id app map].
  rewrite macro_weights_eq. cbn [bind map].
  set (w := / inject_Z (Z.of_nat (count_row (key_columns 0 hrt) [key_columns 0 hrt]))).
  assert (Hw : 0 < w).
  { pose proof (macro_weights_positive [key_columns 0 hrt]) as Hpos.
    cbn [map] in Hpos. apply Forall_cons in Hpos as [Hpos _]. exact Hpos. }
  assert (Hw' : ~ w == 0) by (intros Hzero; rewrite Hzero in Hw; inversion Hw).
  unfold RANK_TYPES. rewrite foldM_cons.
  unfold MacroRankBasedEvaluator.finalize_rank_type at 1.
  cbn [MacroRankBasedEvaluator.base RankBasedEvaluator.ks].
  assert (Hget : RankBasedEvaluator._get_ranks
                   (RankBasedEvaluator.mk (RankBasedEvaluator.ks base0)
                      (foldl (RankBasedEvaluator.extend_ranks LABEL_HEAD)
                             (RankBasedEvaluator.ranks base0)
                             (Ranks_from_scores true_scores scores))
                      (Some (shape1 scores)))
                   LABEL_HEAD RANK_OPTIMISTIC = [r]).
  { unfold RankBasedEvaluator._get_ranks.
    change (String.eqb LABEL_HEAD SIDE_BOTH) with false. cbv iota.
    cbn [RankBasedEvaluator.ranks].
    rewrite extend_ranks_fold, Hranks, lookup_empty, Hr.
    destruct (decide (LABEL_HEAD = LABEL_HEAD)); [reflexivity|congruence]. }
  rewrite Hget. cbn [length Nat.eqb negb Nat.ltb Nat.leb].
  destruct (macro_hits_ok (shape1 scores) [r] [w] (RankBasedEvaluator.ks base0) []) as [hits ->].
  { unfold Qsum. cbn [foldr]. rewrite Qplus_0_r. exact Hw'. }
  cbn [bind]. rewrite (get_macro_ranking_metrics_single fns r w Hw). reflexivity.
Qed.

Lemma macro_finalize_single_observation_witness :
  exists self0 self,
    MacroRankBasedEvaluator.init (Some [IntK 1]) = inr self0
    /\ MacroRankBasedEvaluator.process_scores_ example_ranks_from_scores self0 [(0, 0, 1)%Z]
         LABEL_HEAD (mkTensor 3 [[3; 2; 1]]) (Some (mkTensor 1 [[3]])) = inr self
    /\ batch_ranks_of (example_ranks_from_scores (mkTensor 1 [[3]]) (mkTensor 3 [[3; 2; 1]]))
         RANK_OPTIMISTIC = [1]
    /\ MacroRankBasedEvaluator.finalize example_fns self = inl IndexError.
Proof.
  pose (blank := MacroRankBasedEvaluator.mk (RankBasedEvaluator.mk [] ∅ None) ∅).
  pose (self0 := from_ok blank (MacroRankBasedEvaluator.init (Some [IntK 1]))).
  pose (self := from_ok blank
                  (MacroRankBasedEvaluator.process_scores_ example_ranks_from_scores self0
                     [(0, 0, 1)%Z] LABEL_HEAD (mkTensor 3 [[3; 2; 1]])
                     (Some (mkTensor 1 [[3]])))).
  assert (Hinit : MacroRankBasedEvaluator.init (Some [IntK 1]) = inr self0)
    by (apply is_ok_inr; vm_compute; reflexivity).
  assert (Hrun : MacroRankBasedEvaluator.process_scores_ example_ranks_from_scores self0
                   [(0, 0, 1)%Z] LABEL_HEAD (mkTensor 3 [[3; 2; 1]])
                   (Some (mkTensor 1 [[3]])) = inr self)
    by (apply is_ok_inr; vm_compute; reflexivity).
  assert (Hr : batch_ranks_of (example_ranks_from_scores (mkTensor 1 [[3]])
                                 (mkTensor 3 [[3; 2; 1]])) RANK_OPTIMISTIC = [1])
    by (vm_compute; reflexivity).
  exists self0, self.
  split; [exact Hinit|]. split; [exact Hrun|]. split; [exact Hr|].
  exact (macro_finalize_single_observation example_fns example_ranks_from_scores
           (Some [IntK 1]) self0 self (0, 0, 1)%Z (mkTensor 3 [[3; 2; 1]]) (mkTensor 1 [[3]])
           1 Hinit Hrun Hr).
Defined.

Lemma macro_process_scores_keeps_aligned_witness :
  exists self0 self,
    MacroRankBasedEvaluator.init (Some [IntK 1]) = inr self0
    /\ aligned self0
    /\ MacroRankBasedEvaluator.process_scores_ example_ranks_from_scores self0 example_batch
         LABEL_HEAD example_scores (Some example_true_scores) = inr self
    /\ aligned self.
Proof.
  pose (blank := MacroRankBasedEvaluator.mk (RankBasedEvaluator.mk [] ∅ None) ∅).
  pose (self0 := from_ok blank (MacroRankBasedEvaluator.init (Some [IntK 1]))).
  pose (self := from_ok blank
                  (MacroRankBasedEvaluator.process_scores_ example_ranks_from_scores self0
                     example_batch LABEL_HEAD example_scores (Some example_true_scores))).
  assert (Hinit : MacroRankBasedEvaluator.init (Some [IntK 1]) = inr self0)
    by (apply is_ok_inr; vm_compute; reflexivity).
  assert (Hrun : MacroRankBasedEvaluator.process_scores_ example_ranks_from_scores self0
                   example_batch LABEL_HEAD example_scores (Some example_true_scores)
                 = inr self)
    by (apply is_ok_inr; vm_compute; reflexivity).
  assert (Haligned : aligned self0).
  { intros side rank_type _ _. vm_compute. reflexivity. }
  exists self0, self.
  split; [exact Hinit|]. split; [exact Haligned|]. split; [exact Hrun|].
  apply (macro_process_scores_keeps_aligned example_ranks_from_scores self0 self example_batch
           LABEL_HEAD example_scores example_true_scores Haligned); [|exact Hrun].
  intros rank_type Hrt. unfold RANK_TYPES in Hrt.
  repeat (apply elem_of_cons in Hrt as [->|Hrt]); [| | |inversion Hrt];
    vm_compute; reflexivity.
Defined.

Lemma macro_finalize_raises_witness :
  exists self,
    MacroRankBasedEvaluator.process_scores_ example_ranks_from_scores
      (MacroRankBasedEvaluator.mk (RankBasedEvaluator.mk [IntK 1] ∅ None) ∅) [(0, 0, 1)%Z]
      LABEL_HEAD (mkTensor 3 [[3; 2; 1]]) (Some (mkTensor 1 [[3]])) = inr self
    /\ aligned self
    /\ MacroRankBasedEvaluator.finalize example_fns self = inl IndexError
    /\ (IndexError = ValueError NumEntitiesUnset \/ IndexError = IndexError).
Proof.
  pose (blank := MacroRankBasedEvaluator.mk (RankBasedEvaluator.mk [IntK 1] ∅ None) ∅).
  pose (self := from_ok blank
                  (MacroRankBasedEvaluator.process_scores_ example_ranks_from_scores blank
                     [(0, 0, 1)%Z] LABEL_HEAD (mkTensor 3 [[3; 2; 1]])
                     (Some (mkTensor 1 [[3]])))).
  assert (Hrun : MacroRankBasedEvaluator.process_scores_ example_ranks_from_scores blank
                   [(0, 0, 1)%Z] LABEL_HEAD (mkTensor 3 [[3; 2; 1]])
                   (Some (mkTensor 1 [[3]])) = inr self)
    by (apply is_ok_inr; vm_compute; reflexivity).
  assert (Haligned : aligned self).
  { intros side rank_type Hside Hrt. unfold RANK_TYPES in Hrt.
    repeat (apply elem_of_cons in Hside as [->|Hside]); [| |inversion Hside];
      (repeat (apply elem_of_cons in Hrt as [->|Hrt]); [| | |inversion Hrt]);
      vm_compute; reflexivity. }
  assert (Hfin : MacroRankBasedEvaluator.finalize example_fns self = inl IndexError)
    by (vm_compute; reflexivity).
  exists self. split; [exact Hrun|]. split; [exact Haligned|]. split; [exact Hfin|].
  exact (macro_finalize_raises example_fns self IndexError Haligned Hfin).
Defined.

(** ** Reading the results *)

(** What [lookup] guarantees of a key it returns. *)
Lemma lookup_inr_inv (synonyms : list (string * string)) (s : string) (key : MetricKey.t) :
  MetricKey.lookup synonyms s = inr key ->
  (is_Some (MetricKey.k key) <-> MetricKey.name key = HITS_AT_K)
  /\ MetricKey.side key ∈ SIDES
  /\ MetricKey.rank_type key ∈ RANK_TYPES.
Proof.
  unfold MetricKey.lookup.
  destruct (MetricKey.METRIC_PATTERN_match synonyms s) as [m|] eqn:Hm; [|discriminate].
  apply METRIC_PATTERN_match_Some in Hm as (Hname & Hside & Htype & Hk).
  pose proof (resolve_name_inv m Hname Hk) as Hn.
  destruct (MetricKey.resolve_name m) as [e|[name k]]; [discriminate|].
  destruct Hn as [Hiff _]. cbn [bind].
  destruct (MetricKey.resolve_side m) as [e|side] eqn:Es; [discriminate|].
  cbn [bind].
  destruct (MetricKey.resolve_rank_type synonyms name m) as [e|rank_type] eqn:Er;
    [discriminate|].
  cbn [bind]. intros [= <-].
  cbn [MetricKey.k MetricKey.name MetricKey.side MetricKey.rank_type].
  split; [exact Hiff|]. split.
  - apply list_elem_of_In. eapply resolve_side_inr; eauto.
  - apply list_elem_of_In. eapply resolve_rank_type_inr; eauto.
Qed.

(** X15.  [get_metric] fails with the assertion on [k] for every
    specification whose name begins with hits and is not resolved to
    [hits_at_k]: such a key has no [k].  The specification [hits@k] of the
    documentation of [get_metric] is one of them. *)
Theorem get_metric_hits_without_k (synonyms : list (string * string)) (res : MetricResults)
    (s : string) (key : MetricKey.t) :
  MetricKey.lookup synonyms s = inr key ->
  str_startswith "hits" (MetricKey.name key) = true ->
  MetricKey.name key <> HITS_AT_K ->
  RankBasedMetricResults.get_metric synonyms res s = inl (Raised AssertionError).
Proof.
  intros Hkey Hstarts Hname.
  destruct (lookup_inr_inv synonyms s key Hkey) as (Hiff & _ & _).
  unfold RankBasedMetricResults.get_metric. rewrite Hkey.
  unfold RankBasedMetricResults._get_metric. rewrite Hstarts. cbn [negb].
  destruct (MetricKey.k key) as [z|] eqn:Hk; [|reflexivity].
  exfalso. apply Hname, Hiff. eauto.
Qed.

Lemma get_metric_hits_without_k_witness :
  MetricKey.lookup example_rank_type_synonyms "hits@k"
  = inr (MetricKey.mk "hits@k" SIDE_BOTH RANK_REALISTIC None)
  /\ RankBasedMetricResults.get_metric example_rank_type_synonyms empty_results "hits@k"
     = inl (Raised AssertionError).
Proof.
  split; [reflexivity|].
  apply (get_metric_hits_without_k example_rank_type_synonyms empty_results "hits@k"
           (MetricKey.mk "hits@k" SIDE_BOTH RANK_REALISTIC None)).
  - reflexivity.
  - reflexivity.
  - discriminate.
Defined.

Lemma registry_name_not_hits (fns : Irrational) (name : string) (f : list Q -> Q) :
  (name, f) ∈ ALL_TYPE_FUNCS fns -> str_startswith "hits" name = false.
Proof.
  intros Hin.
  assert (Hname : name ∈ map fst (ALL_TYPE_FUNCS fns)).
  { change (map ?g ?l) with (g <$> l). apply list_elem_of_fmap.
    exists (name, f). split; [reflexivity|assumption]. }
  unfold ALL_TYPE_FUNCS in Hname. cbn [map fst] in Hname.
  repeat (apply elem_of_cons in Hname as [->|Hname]; [reflexivity|]).
  inversion Hname.
Qed.

(** X16.  Reading a metric of the registry back from the results of
    [finalize]: for a specification that [lookup] resolves to a name of the
    registry, [get_metric] returns the value of the function of this name on
    the ranks of the side and rank type of the key, and raises a key error
    when there is no such rank. *)
Theorem get_metric_registry (fns : Irrational) (synonyms : list (string * string))
    (self self' : RankBasedEvaluator.t) (res : MetricResults) (s : string)
    (key : MetricKey.t) (f : list Q -> Q) :
  RankBasedEvaluator.finalize fns self = inr (res, self') ->
  MetricKey.lookup synonyms s = inr key ->
  (MetricKey.name key, f) ∈ ALL_TYPE_FUNCS fns ->
  RankBasedMetricResults.get_metric synonyms res s
  = match RankBasedEvaluator._get_ranks self (MetricKey.side key) (MetricKey.rank_type key) with
    | [] => inl (Raised KeyError)
    | ranks => inr (Num (f ranks))
    end.
Proof.
  unfold RankBasedEvaluator.finalize. intros Hfin Hkey Hf.
  destruct (RankBasedEvaluator.num_entities self) as [n|]; [|discriminate].
  destruct (foldM _ empty_results (product SIDES RANK_TYPES)) as [e|res0] eqn:Hfold;
    [discriminate|].
  cbn [bind] in Hfin. injection Hfin as <- _.
  destruct (lookup_inr_inv synonyms s key Hkey) as (_ & Hside & Hrt).
  destruct (finalize_pairs_registry fns self n _ _ _ product_sides_rank_types_NoDup Hfold)
    as [_ Hpairs].
  destruct (Hpairs _ _ (product_sides_rank_types_elem _ _ Hside Hrt)) as [Hnil Hsome].
  unfold RankBasedMetricResults.get_metric. rewrite Hkey.
  unfold RankBasedMetricResults._get_metric.
  rewrite (registry_name_not_hits fns _ f Hf). cbn [negb].
  destruct (RankBasedEvaluator._get_ranks self (MetricKey.side key) (MetricKey.rank_type key))
    as [|r ranks] eqn:Hranks.
  - destruct (Hnil eq_refl) as [Hd _]. rewrite Hd.
    unfold empty_results. cbn [data]. rewrite lookup_empty. reflexivity.
  - destruct (Hsome ltac:(discriminate)) as [Hd _]. rewrite (Hd _ f Hf). reflexivity.
Qed.

(** *** Hits at k by its number *)

Lemma relative_k_in_range (ks : list HitsK) (q : Q) :
  relative_k_out_of_range (Some ks) = false -> FloatK q ∈ ks -> 0 < q /\ q < 1.
Proof.
  unfold relative_k_out_of_range. intros Hks Hq.
  assert (Hall : forall k, k ∈ ks ->
            match k with
            | FloatK k => negb (Qlt_bool 0 k && Qlt_bool k 1)
            | IntK _ => false
            end = false).
  { intros k Hk. destruct (match k with FloatK _ => _ | IntK _ => _ end) eqn:E; [|reflexivity].
    assert (Hex : existsb (fun k => match k with
                                    | FloatK k => negb (Qlt_bool 0 k && Qlt_bool k 1)
                                    | IntK _ => false
                                    end) ks = true).
    { apply existsb_exists. exists k. split; [apply list_elem_of_In, Hk|exact E]. }
    congruence. }
  specialize (Hall (FloatK q) Hq). cbn in Hall.
  apply negb_false_iff, andb_prop in Hall as [H0 H1].
  unfold Qlt_bool in H0, H1. apply negb_true_iff in H0, H1.
  split.
  - destruct (Qlt_le_dec 0 q) as [H|H]; [exact H|]. apply Qle_bool_iff in H. congruence.
  - destruct (Qlt_le_dec q 1) as [H|H]; [exact H|]. apply Qle_bool_iff in H. congruence.
Qed.

Lemma hits_key_eqb_true (ks : list HitsK) (z : Z) (k : HitsK) :
  relative_k_out_of_range (Some ks) = false -> k ∈ ks ->
  hits_key_eqb z k = true -> k = IntK z.
Proof.
  intros Hks Hk. destruct k as [z'|q]; cbn [hits_key_eqb].
  - intros H. apply Z.eqb_eq in H. congruence.
  - intros H. apply Qeq_bool_eq in H.
    destruct (relative_k_in_range ks q Hks Hk) as [H0 H1].
    rewrite <- H in H0, H1. unfold Qlt in H0, H1. cbn in H0, H1. lia.
Qed.

Lemma hits_get_map (ks : list HitsK) (v : HitsK -> Q) (z : Z) :
  relative_k_out_of_range (Some ks) = false ->
  hits_get (map (fun k => (k, v k)) ks) z
  = if existsb (hits_key_eqb z) ks then Some (v (IntK z)) else None.
Proof.
  intros Hks.
  assert (Hgen : forall ks', (forall k, k ∈ ks' -> k ∈ ks) ->
            hits_get (map (fun k => (k, v k)) ks') z
            = if existsb (hits_key_eqb z) ks' then Some (v (IntK z)) else None);
    [|apply Hgen; auto].
  induction ks' as [|k ks' IH]; intros Hsub; [reflexivity|].
  cbn [map hits_get existsb].
  rewrite IH by (intros k' Hk'; apply Hsub; now right).
  destruct (existsb (hits_key_eqb z) ks'); [rewrite orb_true_r; reflexivity|].
  rewrite orb_false_r.
  destruct (hits_key_eqb z k) eqn:Heq; [|reflexivity].
  rewrite (hits_key_eqb_true ks z k Hks (Hsub k ltac:(left)) Heq). reflexivity.
Qed.

(** X17.  Reading hits at k back from the results of [finalize], when every
    relative [k] configured lies between 0 and 1: for a specification that
    [lookup] resolves to a key with the number [z], [get_metric] returns the
    fraction of the ranks of the side and rank type that are not above [z]
    when [z] is among [ks], and raises a key error when it is not or when
    there is no rank. *)
Theorem get_metric_hits (fns : Irrational) (synonyms : list (string * string))
    (self self' : RankBasedEvaluator.t) (res : MetricResults) (n : Z) (s : string)
    (key : MetricKey.t) (z : Z) :
  RankBasedEvaluator.finalize fns self = inr (res, self') ->
  RankBasedEvaluator.num_entities self = Some n ->
  relative_k_out_of_range (Some (RankBasedEvaluator.ks self)) = false ->
  MetricKey.lookup synonyms s = inr key ->
  MetricKey.k key = Some z ->
  RankBasedMetricResults.get_metric synonyms res s
  = match RankBasedEvaluator._get_ranks self (MetricKey.side key) (MetricKey.rank_type key) with
    | [] => inl (Raised KeyError)
    | ranks =>
        if existsb (hits_key_eqb z) (RankBasedEvaluator.ks self)
        then inr (Num (hits_fraction n ranks (IntK z)))
        else inl (Raised KeyError)
    end.
Proof.
  unfold RankBasedEvaluator.finalize. intros Hfin Hn Hks Hkey Hk. rewrite Hn in Hfin.
  destruct (foldM _ empty_results (product SIDES RANK_TYPES)) as [e|res0] eqn:Hfold;
    [discriminate|].
  cbn [bind] in Hfin. injection Hfin as <- _.
  destruct (lookup_inr_inv synonyms s key Hkey) as (Hiff & Hside & Hrt).
  assert (Hname : MetricKey.name key = HITS_AT_K) by (apply Hiff; rewrite Hk; eauto).
  destruct (finalize_pairs_registry fns self n _ _ _ product_sides_rank_types_NoDup Hfold)
    as [_ Hpairs].
  destruct (Hpairs _ _ (product_sides_rank_types_elem _ _ Hside Hrt)) as [Hnil Hsome].
  unfold RankBasedMetricResults.get_metric. rewrite Hkey.
  unfold RankBasedMetricResults._get_metric. rewrite Hname, Hk.
  change (str_startswith "hits" HITS_AT_K) with true. cbn [negb].
  destruct (RankBasedEvaluator._get_ranks self (MetricKey.side key) (MetricKey.rank_type key))
    as [|r ranks] eqn:Hranks.
  - destruct (Hnil eq_refl) as [_ Hh]. rewrite Hh.
    unfold empty_results. cbn [hits_at_k]. rewrite lookup_empty. reflexivity.
  - destruct (Hsome ltac:(discriminate)) as [_ Hh]. rewrite Hh.
    rewrite (hits_get_map _ (fun k => hits_fraction n (r :: ranks) k) z Hks).
    destruct (existsb (hits_key_eqb z) (RankBasedEvaluator.ks self)); reflexivity.
Qed.

Lemma get_metric_registry_witness :
  exists self res self',
    example_adjusted_run = inr self
    /\ RankBasedEvaluator.finalize example_fns self = inr (res, self')
    /\ RankBasedMetricResults.get_metric example_rank_type_synonyms res "mr.head"
       = match RankBasedEvaluator._get_ranks self LABEL_HEAD RANK_REALISTIC with
         | [] => inl (Raised KeyError)
         | ranks => inr (Num (np_mean ranks))
         end
    /\ RankBasedMetricResults.get_metric example_rank_type_synonyms res "mr.tail"
       = inl (Raised KeyError)
    /\ exists v,
         RankBasedMetricResults.get_metric example_rank_type_synonyms res "mr.head"
         = inr (Num v)
         /\ v == 2.
Proof.
  pose (blank := RankBasedEvaluator.mk [] ∅ None).
  pose (self := from_ok blank example_adjusted_run).
  pose (out := from_ok (empty_results, blank)
                       (RankBasedEvaluator.finalize example_fns self)).
  assert (Hrun : example_adjusted_run = inr self)
    by (apply is_ok_inr; vm_compute; reflexivity).
  assert (Hfin : RankBasedEvaluator.finalize example_fns self = inr (out.1, out.2)).
  { rewrite <- surjective_pairing. apply is_ok_inr. vm_compute. reflexivity. }
  exists self, out.1, out.2.
  split; [exact Hrun|]. split; [exact Hfin|]. split.
  - apply (get_metric_registry example_fns example_rank_type_synonyms self out.2 out.1
             "mr.head" (MetricKey.mk ARITHMETIC_MEAN_RANK LABEL_HEAD RANK_REALISTIC None)
             np_mean Hfin).
    + reflexivity.
    + left.
  - split; [vm_compute; reflexivity|].
    exists (np_mean (RankBasedEvaluator._get_ranks self LABEL_HEAD RANK_REALISTIC)).
    split; vm_compute; reflexivity.
Defined.

Lemma get_metric_hits_witness :
  exists self res self',
    example_adjusted_run = inr self
    /\ RankBasedEvaluator.finalize example_fns self = inr (res, self')
    /\ RankBasedMetricResults.get_metric example_rank_type_synonyms res "hits@1.head"
       = match RankBasedEvaluator._get_ranks self LABEL_HEAD RANK_REALISTIC with
         | [] => inl (Raised KeyError)
         | ranks =>
             if existsb (hits_key_eqb 1) (RankBasedEvaluator.ks self)
             then inr (Num (hits_fraction 7 ranks (IntK 1)))
             else inl (Raised KeyError)
         end
    /\ RankBasedMetricResults.get_metric example_rank_type_synonyms res "hits@10.head"
       = inl (Raised KeyError)
    /\ exists v,
         RankBasedMetricResults.get_metric example_rank_type_synonyms res "hits@1.head"
         = inr (Num v)
         /\ v == 1 # 2.
Proof.
  pose (blank := RankBasedEvaluator.mk [] ∅ None).
  pose (self := from_ok blank example_adjusted_run).
  pose (out := from_ok (empty_results, blank)
                       (RankBasedEvaluator.finalize example_fns self)).
  assert (Hrun : example_adjusted_run = inr self)
    by (apply is_ok_inr; vm_compute; reflexivity).
  assert (Hfin : RankBasedEvaluator.finalize example_fns self = inr (out.1, out.2)).
  { rewrite <- surjective_pairing. apply is_ok_inr. vm_compute. reflexivity. }
  exists self, out.1, out.2.
  split; [exact Hrun|]. split; [exact Hfin|]. split.
  - apply (get_metric_hits example_fns example_rank_type_synonyms self out.2 out.1 7
             "hits@1.head" (MetricKey.mk HITS_AT_K LABEL_HEAD RANK_REALISTIC (Some 1%Z))
             1 Hfin).
    + vm_compute. reflexivity.
    + vm_compute. reflexivity.
    + reflexivity.
    + reflexivity.
  - split; [vm_compute; reflexivity|].
    exists (hits_fraction 7 (RankBasedEvaluator._get_ranks self LABEL_HEAD RANK_REALISTIC)
              (IntK 1)).
    split; vm_compute; reflexivity.
Defined.

(** ** Sampled negatives: when the sampling raises *)

Lemma foldM_ok_steps {E A B : Type} (f : B -> A -> E + B) (xs : list A) (acc r : B) :
  foldM f acc xs = inr r -> forall x, x ∈ xs -> exists acc' acc'', f acc' x = inr acc''.
Proof.
  revert acc. induction xs as [|y xs IH]; intros acc Hfold x Hx; [inversion Hx|].
  rewrite foldM_cons in Hfold.
  destruct (f acc y) as [e|acc1] eqn:Hstep; [discriminate|]. cbn [bind] in Hfold.
  apply elem_of_cons in Hx as [->|Hx]; [eauto|]. eapply IH; eauto.
Qed.

(** The pool of a group raises exactly when a sample is asked for and every
    identifier is an entity of the group. *)
Lemma group_pool_raises (all_ids : list Z) (num_samples : nat) (group : list MergedRow)
    (e : Exception) :
  group_pool all_ids num_samples group = inl e
  <-> e = ZeroDivisionError
      /\ (0 < num_samples)%nat
      /\ forall x, x ∈ all_ids -> x ∈ map row_side_all group.
Proof.
  unfold group_pool.
  set (pool := filter (fun e => e ∉ map row_side_all group) all_ids).
  assert (Hnil : pool = [] <-> forall x, x ∈ all_ids -> x ∈ map row_side_all group).
  { subst pool. split.
    - intros Hempty x Hx.
      destruct (decide (x ∈ map row_side_all group)) as [Hin|Hnot]; [assumption|].
      assert (Hp : x ∈ filter (fun e => e ∉ map row_side_all group) all_ids)
        by (apply list_elem_of_filter; auto).
      rewrite Hempty in Hp. inversion Hp.
    - intros Hall.
      destruct (filter (fun e => e ∉ map row_side_all group) all_ids) as [|x l] eqn:E;
        [reflexivity|].
      assert (Hp : x ∈ filter (fun e => e ∉ map row_side_all group) all_ids)
        by (rewrite E; left).
      apply list_elem_of_filter in Hp as [Hnot Hin]. exfalso. apply Hnot, Hall, Hin. }
  destruct (Nat.ltb_spec (length pool) num_samples) as [Hlt|Hge].
  - destruct (Nat.eqb_spec (length pool) 0) as [Hz|Hnz].
    + split.
      * intros [= <-]. split; [reflexivity|]. split; [lia|].
        apply Hnil. destruct pool; [reflexivity|discriminate Hz].
      * intros (-> & _ & _). reflexivity.
    + split; [discriminate|]. intros (_ & _ & Hall).
      apply Hnil in Hall. rewrite Hall in Hnz. contradiction.
  - split; [discriminate|]. intros (_ & Hpos & Hall).
    apply Hnil in Hall. rewrite Hall in Hge. simpl in Hge. lia.
Qed.

Lemma sample_group_raises (all_ids : list Z) (num_samples : nat) (acc : Table * Entropy)
    (group : list MergedRow) (e : Exception) :
  sample_group all_ids num_samples acc group = inl e
  <-> group_pool all_ids num_samples group = inl e.
Proof.
  destruct acc as [T entropy]. unfold sample_group.
  pose proof (group_pool_inv all_ids num_samples group) as Hpool.
  destruct (group_pool all_ids num_samples group) as [e'|pool]; [cbn [bind]; split; intros [= <-]; reflexivity|].
  destruct Hpool as [Hlen _]. cbn [bind].
  destruct (sample_rows_inv pool num_samples
              (unique_first [] (map row_index_eval group)) T entropy Hlen)
    as (T' & entropy' & -> & _).
  split; discriminate.
Qed.

Lemma sample_groups_raises (all_ids : list Z) (num_samples : nat)
    (groups : list (list MergedRow)) (acc : Table * Entropy) (e : Exception) :
  foldM (sample_group all_ids num_samples) acc groups = inl e
  <-> e = ZeroDivisionError
      /\ (0 < num_samples)%nat
      /\ exists group,
           group ∈ groups /\ forall x, x ∈ all_ids -> x ∈ map row_side_all group.
Proof.
  split.
  - intros Hfold. apply foldM_error in Hfold as (acc' & group & Hgroup & Hstep).
    apply sample_group_raises, group_pool_raises in Hstep as (-> & Hpos & Hall).
    eauto.
  - intros (-> & Hpos & group & Hgroup & Hall).
    destruct (foldM (sample_group all_ids num_samples) acc groups) as [e|r] eqn:Hfold.
    + apply foldM_error in Hfold as (acc' & group' & _ & Hstep).
      apply sample_group_raises, group_pool_raises in Hstep as (-> & _). reflexivity.
    + destruct (foldM_ok_steps _ _ _ _ Hfold group Hgroup) as (acc' & acc'' & Hstep).
      assert (Hraise : sample_group all_ids num_samples acc' group = inl ZeroDivisionError)
        by (apply sample_group_raises, group_pool_raises; auto).
      congruence.
Qed.

(** A group of the merge holds every identifier exactly when one of the
    evaluation triples has no candidate. *)
Lemma group_without_candidate (side_idx : nat) (evaluation_triples all_triples : list Triple)
    (n : Z) :
  (forall hrt, hrt ∈ evaluation_triples -> hrt ∈ all_triples) ->
  (exists group,
      group ∈ groupby_other (merge_on_other side_idx evaluation_triples all_triples)
      /\ forall x, x ∈ seqZ 0 n -> x ∈ map row_side_all group)
  <-> exists hrt, hrt ∈ evaluation_triples /\ no_candidate side_idx all_triples n hrt.
Proof.
  intros Hincl.
  set (merged := merge_on_other side_idx evaluation_triples all_triples).
  split.
  - intros (group & Hgroup & Hall).
    unfold groupby_other in Hgroup.
    apply list_elem_of_fmap in Hgroup as (key & -> & Hkey).
    apply unique_rows_elem, list_elem_of_fmap in Hkey as (row & -> & Hrow).
    apply merge_on_other_elem in Hrow as (i & hrt & known & Hi & _ & _ & ->).
    cbn [row_other] in Hall.
    exists hrt. split; [eapply list_elem_of_lookup_2; eauto|].
    intros x Hx.
    assert (Hid : x ∈ seqZ 0 n) by (apply elem_of_seqZ; lia).
    apply Hall, list_elem_of_fmap in Hid as (row' & -> & Hrow').
    apply list_elem_of_filter in Hrow' as [Hkey Hrow'].
    apply row_eqb_eq in Hkey.
    apply merge_on_other_elem in Hrow' as (i' & hrt' & known' & _ & Hknown' & Heq & ->).
    cbn [row_other row_side_all] in *.
    exists known'. split; [assumption|]. split; [congruence|reflexivity].
  - intros (hrt & Hhrt & Hnone).
    apply list_elem_of_lookup_1 in Hhrt as [i Hi].
    set (key := key_columns side_idx hrt).
    exists (filter (fun row => row_eqb (row_other row) key = true) merged).
    split.
    + unfold groupby_other. apply list_elem_of_fmap. exists key. split; [reflexivity|].
      apply unique_rows_elem, list_elem_of_fmap.
      exists (mkMergedRow i key (triple_column side_idx hrt)). split; [reflexivity|].
      apply merge_on_other_elem. exists i, hrt, hrt.
      split; [assumption|]. split; [|auto].
      apply Hincl. eapply list_elem_of_lookup_2; eauto.
    + intros x Hx. apply elem_of_seqZ in Hx.
      destruct (Hnone x ltac:(lia)) as (known & Hknown & Hkey & ->).
      apply list_elem_of_fmap.
      exists (mkMergedRow i key (triple_column side_idx known)). split; [reflexivity|].
      apply list_elem_of_filter. split; [cbn; now apply row_eqb_eq|].
      apply merge_on_other_elem. exists i, hrt, known. auto.
Qed.

Lemma sample_side_raises (side : string) (evaluation_triples all_triples : list Triple)
    (n : Z) (num_samples : nat) (acc : list (string * Table) * Entropy) (e : Exception) :
  (forall hrt, hrt ∈ evaluation_triples -> hrt ∈ all_triples) ->
  sample_side evaluation_triples all_triples (seqZ 0 n) num_samples acc side = inl e
  <-> e = ZeroDivisionError
      /\ (0 < num_samples)%nat
      /\ exists hrt,
           hrt ∈ evaluation_triples
           /\ no_candidate (column_position side columns) all_triples n hrt.
Proof.
  intros Hincl. destruct acc as [negatives entropy]. unfold sample_side.
  rewrite <- (group_without_candidate _ _ _ _ Hincl).
  rewrite <- (sample_groups_raises (seqZ 0 n) num_samples _
                (replicate (length evaluation_triples) None, entropy) e).
  destruct (foldM _ _ _) as [e'|[table entropy']]; cbn [bind].
  - split; intros [= <-]; reflexivity.
  - split; discriminate.
Qed.

(** X18.  With the number of entities resolved, [sample_negatives] raises
    exactly when a sample is asked for and some evaluation triple has, on the
    head or on the tail side, no candidate left: every identifier is the
    entity of a known triple with its grouping key.  The exception is then
    the division by the length of the empty pool; in every other case the
    tables are returned. *)
Theorem sample_negatives_raises (evaluation_triples : list Triple)
    (additional : FilterTriples) (num_samples : nat) (num_entities : option Z)
    (entropy : Entropy) (n : Z) (e : Exception) :
  resolve_num_entities num_entities (prepare_filter_triples evaluation_triples additional)
  = inr n ->
  sample_negatives evaluation_triples additional num_samples num_entities entropy = inl e
  <-> e = ZeroDivisionError
      /\ (0 < num_samples)%nat
      /\ exists side_idx hrt,
           side_idx ∈ [0; 2]%nat
           /\ hrt ∈ evaluation_triples
           /\ no_candidate side_idx (prepare_filter_triples evaluation_triples additional)
                n hrt.
Proof.
  intros Hn. unfold sample_negatives. rewrite Hn. cbn [bind].
  set (all_triples := prepare_filter_triples evaluation_triples additional).
  assert (Hincl : forall hrt, hrt ∈ evaluation_triples -> hrt ∈ all_triples)
    by (intros; now apply prepare_filter_triples_includes).
  pose proof (fun acc e => sample_side_raises LABEL_HEAD evaluation_triples all_triples n
                             num_samples acc e Hincl) as Hhead.
  pose proof (fun acc e => sample_side_raises LABEL_TAIL evaluation_triples all_triples n
                             num_samples acc e Hincl) as Htail.
  change (column_position LABEL_HEAD columns) with 0%nat in Hhead.
  change (column_position LABEL_TAIL columns) with 2%nat in Htail.
  rewrite foldM_cons.
  destruct (sample_side evaluation_triples all_triples (seqZ 0 n) num_samples ([], entropy)
                        LABEL_HEAD) as [e1|acc1] eqn:H1; cbn [bind].
  - apply Hhead in H1 as (-> & Hpos & hrt & Hhrt & Hnone).
    split.
    + intros [= <-]. split; [reflexivity|]. split; [assumption|].
      exists 0%nat, hrt. split; [left|]. auto.
    + intros (-> & _). reflexivity.
  - rewrite foldM_cons.
    destruct (sample_side evaluation_triples all_triples (seqZ 0 n) num_samples acc1
                          LABEL_TAIL) as [e2|acc2] eqn:H2; cbn [bind].
    + apply Htail in H2 as (-> & Hpos & hrt & Hhrt & Hnone).
      split.
      * intros [= <-]. split; [reflexivity|]. split; [assumption|].
        exists 2%nat, hrt. split; [right; left|]. auto.
      * intros (-> & _). reflexivity.
    + split; [discriminate|].
      intros (-> & Hpos & side_idx & hrt & Hside & Hhrt & Hnone).
      repeat (apply elem_of_cons in Hside as [->|Hside]); [| |inversion Hside].
      * assert (Hfail : sample_side evaluation_triples all_triples (seqZ 0 n) num_samples
                          ([], entropy) LABEL_HEAD = inl ZeroDivisionError)
          by (apply Hhead; eauto).
        congruence.
      * assert (Hfail : sample_side evaluation_triples all_triples (seqZ 0 n) num_samples
                          acc1 LABEL_TAIL = inl ZeroDivisionError)
          by (apply Htail; eauto).
        congruence.
Qed.

Lemma sample_negatives_raises_witness :
  resolve_num_entities (Some 2%Z)
    (prepare_filter_triples [(0, 0, 1)%Z] (FilterTensor [(1, 0, 1)%Z])) = inr 2%Z
  /\ sample_negatives [(0, 0, 1)%Z] (FilterTensor [(1, 0, 1)%Z]) 1 (Some 2%Z) []
     = inl ZeroDivisionError
  /\ is_ok (sample_negatives [(0, 0, 1)%Z] FilterNone 1 (Some 2%Z) []) = true
  /\ (sample_negatives [(0, 0, 1)%Z] (FilterTensor [(1, 0, 1)%Z]) 1 (Some 2%Z) []
      = inl ZeroDivisionError
      <-> ZeroDivisionError = ZeroDivisionError
          /\ (0 < 1)%nat
          /\ exists side_idx hrt,
               side_idx ∈ [0; 2]%nat
               /\ hrt ∈ [(0, 0, 1)%Z]
               /\ no_candidate side_idx
                    (prepare_filter_triples [(0, 0, 1)%Z] (FilterTensor [(1, 0, 1)%Z]))
                    2 hrt).
Proof.
  split; [reflexivity|]. split; [vm_compute; reflexivity|].
  split; [vm_compute; reflexivity|].
  apply (sample_negatives_raises [(0, 0, 1)%Z] (FilterTensor [(1, 0, 1)%Z]) 1 (Some 2%Z) []
           2 ZeroDivisionError).
  reflexivity.
Defined.

(** ** The sampled accumulator after its construction *)

Lemma sampled_init_given (factory : CoreTriplesFactory) (additional : FilterTriples)
    (num_negatives : option nat) (ks : option (list HitsK)) (entropy : Entropy)
    (self : SampledRankBasedEvaluator.t) :
  SampledRankBasedEvaluator.init factory additional num_negatives None None ks entropy
  = inr self ->
  exists base negatives entropy',
    RankBasedEvaluator.init ks = inr base
    /\ (Z.of_nat (requested_negatives num_negatives) <= factory_num_entities factory)%Z
    /\ sample_negatives (mapped_triples factory) additional
         (requested_negatives num_negatives) (Some (factory_num_entities factory)) entropy
       = inr (negatives, entropy')
    /\ self = SampledRankBasedEvaluator.mk
                (RankBasedEvaluator.mk (RankBasedEvaluator.ks base)
                   (RankBasedEvaluator.ranks base) (Some (factory_num_entities factory)))
                (dict_of_items (imap (fun i hrt => (hrt, i)) (mapped_triples factory)))
                negatives.
Proof.
  unfold SampledRankBasedEvaluator.init.
  destruct (RankBasedEvaluator.init ks) as [e|base]; [discriminate|]. cbn [bind].
  fold (requested_negatives num_negatives).
  destruct (Z.ltb_spec (factory_num_entities factory)
              (Z.of_nat (requested_negatives num_negatives))) as [Hlt|Hge];
    [discriminate|].
  destruct (sample_negatives _ _ _ _ _) as [e|[negatives entropy']] eqn:Hs; [discriminate|].
  cbn [bind].
  destruct (SampledRankBasedEvaluator.verify_negatives factory negatives) as [e|[]];
    [discriminate|].
  cbn [bind]. intros [= <-]. exists base, negatives, entropy'. auto.
Qed.

Lemma triple_to_index_last (triples : list Triple) (hrt : Triple) (i : nat) :
  dict_of_items (imap (fun i hrt => (hrt, i)) triples) !! hrt = Some i
  <-> triples !! i = Some hrt /\ forall j, (i < j)%nat -> triples !! j <> Some hrt.
Proof.
  revert i. induction triples as [|x l IH] using rev_ind; intros i.
  - cbn. rewrite lookup_empty. split; [discriminate|]. intros [H _]. discriminate H.
  - assert (Hsnoc : dict_of_items (imap (fun i hrt => (hrt, i)) (l ++ [x]))
                    = <[x := length l]> (dict_of_items (imap (fun i hrt => (hrt, i)) l))).
    { unfold dict_of_items. rewrite imap_app, foldl_app. cbn.
      rewrite Nat.add_0_r. reflexivity. }
    rewrite Hsnoc. destruct (decide (x = hrt)) as [->|Hne].
    + rewrite lookup_insert_eq. split.
      * intros [= <-]. split.
        -- rewrite lookup_app_r by lia. rewrite Nat.sub_diag. reflexivity.
        -- intros j Hj. rewrite lookup_ge_None_2; [discriminate|].
           rewrite length_app. cbn. lia.
      * intros [Hi Hlast]. f_equal.
        pose proof (lookup_lt_Some _ _ _ Hi) as Hlt. rewrite length_app in Hlt. cbn in Hlt.
        destruct (decide (i = length l)) as [->|Hneq]; [reflexivity|].
        exfalso. apply (Hlast (length l)); [lia|].
        rewrite lookup_app_r by lia. rewrite Nat.sub_diag. reflexivity.
    + rewrite lookup_insert_ne by exact Hne. rewrite IH. split.
      * intros [Hi Hlast]. split.
        -- rewrite lookup_app_l by (eapply lookup_lt_Some; eauto). exact Hi.
        -- intros j Hj Hjx. destruct (decide (j < length l)%nat) as [Hlt|Hge].
           ++ rewrite lookup_app_l in Hjx by exact Hlt. exact (Hlast j Hj Hjx).
           ++ rewrite lookup_app_r in Hjx by lia.
              destruct (j - length l)%nat; cbn in Hjx; [congruence|discriminate].
      * intros [Hi Hlast].
        assert (Hlt : (i < length l)%nat).
        { pose proof (lookup_lt_Some _ _ _ Hi) as Hlt. rewrite length_app in Hlt. cbn in Hlt.
          destruct (decide (i = length l)) as [->|Hneq]; [|lia].
          rewrite lookup_app_r in Hi by lia. rewrite Nat.sub_diag in Hi.
          cbn in Hi. congruence. }
        rewrite lookup_app_l in Hi by exact Hlt. split; [exact Hi|].
        intros j Hj Hjx. apply (Hlast j Hj).
        rewrite lookup_app_l by (eapply lookup_lt_Some; eauto). exact Hjx.
Qed.

(** X19.  A sampled accumulator constructed without tables of negatives
    holds the number of entities of the factory, an index that maps each
    evaluation triple to the last position holding it, and for the head and
    the tail side a table with, for every evaluation triple, as many
    identifiers as asked for (50 by default), none of them a known answer
    for the key of the triple. *)
Theorem sampled_init_negatives (factory : CoreTriplesFactory) (additional : FilterTriples)
    (num_negatives : option nat) (ks : option (list HitsK)) (entropy : Entropy)
    (self : SampledRankBasedEvaluator.t) :
  SampledRankBasedEvaluator.init factory additional num_negatives None None ks entropy
  = inr self ->
  RankBasedEvaluator.num_entities (SampledRankBasedEvaluator.base self)
  = Some (factory_num_entities factory)
  /\ (forall hrt i,
        SampledRankBasedEvaluator.triple_to_index self !! hrt = Some i
        <-> mapped_triples factory !! i = Some hrt
            /\ forall j, (i < j)%nat -> mapped_triples factory !! j <> Some hrt)
  /\ exists head_table tail_table,
       SampledRankBasedEvaluator.negative_samples self
       = [ (LABEL_HEAD, head_table); (LABEL_TAIL, tail_table) ]
       /\ negatives_avoid_known 0 (mapped_triples factory)
            (prepare_filter_triples (mapped_triples factory) additional)
            (requested_negatives num_negatives) (factory_num_entities factory) head_table
       /\ negatives_avoid_known 2 (mapped_triples factory)
            (prepare_filter_triples (mapped_triples factory) additional)
            (requested_negatives num_negatives) (factory_num_entities factory) tail_table.
Proof.
  intros Hinit.
  destruct (sampled_init_given _ _ _ _ _ _ Hinit)
    as (base & negatives & entropy' & _ & Hle & Hsample & ->).
  cbn [SampledRankBasedEvaluator.base SampledRankBasedEvaluator.triple_to_index
       SampledRankBasedEvaluator.negative_samples RankBasedEvaluator.num_entities].
  split; [reflexivity|]. split.
  - intros hrt i. apply triple_to_index_last.
  - pose proof (sample_negatives_inv (mapped_triples factory) additional
                  (requested_negatives num_negatives) (Some (factory_num_entities factory))
                  entropy) as Hinv.
    rewrite Hsample in Hinv.
    destruct Hinv as (n & head_table & tail_table & Hn & -> & Hhead & Htail).
    assert (Hpos : (0 < factory_num_entities factory)%Z).
    { unfold requested_negatives in Hle. destruct num_negatives as [[|m]|]; lia. }
    unfold resolve_num_entities in Hn.
    destruct (Z.eqb_spec (factory_num_entities factory) 0) as [?|_]; [lia|].
    injection Hn as <-.
    exists head_table, tail_table. auto.
Qed.

Lemma sampled_init_negatives_witness :
  exists self,
    SampledRankBasedEvaluator.init example_factory FilterNone (Some 2%nat) None None None
      [0; 1; 2; 3; 4; 5; 6; 7; 8; 9]%nat = inr self
    /\ SampledRankBasedEvaluator.negative_samples self
       = [ (LABEL_HEAD, [Some [1; 3]; Some [3; 1]; Some [0; 4]]%Z);
           (LABEL_TAIL, [Some [0; 4]; Some [4; 3]; Some [0; 2]]%Z) ]
    /\ (RankBasedEvaluator.num_entities (SampledRankBasedEvaluator.base self)
        = Some (factory_num_entities example_factory)
        /\ (forall hrt i,
              SampledRankBasedEvaluator.triple_to_index self !! hrt = Some i
              <-> mapped_triples example_factory !! i = Some hrt
                  /\ forall j, (i < j)%nat -> mapped_triples example_factory !! j <> Some hrt)
        /\ exists head_table tail_table,
             SampledRankBasedEvaluator.negative_samples self
             = [ (LABEL_HEAD, head_table); (LABEL_TAIL, tail_table) ]
             /\ negatives_avoid_known 0 (mapped_triples example_factory)
                  (prepare_filter_triples (mapped_triples example_factory) FilterNone)
                  (requested_negatives (Some 2%nat)) (factory_num_entities example_factory)
                  head_table
             /\ negatives_avoid_known 2 (mapped_triples example_factory)
                  (prepare_filter_triples (mapped_triples example_factory) FilterNone)
                  (requested_negatives (Some 2%nat)) (factory_num_entities example_factory)
                  tail_table).
Proof.
  pose (blank := SampledRankBasedEvaluator.mk (RankBasedEvaluator.mk [] ∅ None) ∅ []).
  pose (self := from_ok blank
                  (SampledRankBasedEvaluator.init example_factory FilterNone (Some 2%nat)
                     None None None [0; 1; 2; 3; 4; 5; 6; 7; 8; 9]%nat)).
  assert (Hinit : SampledRankBasedEvaluator.init example_factory FilterNone (Some 2%nat)
                    None None None [0; 1; 2; 3; 4; 5; 6; 7; 8; 9]%nat = inr self)
    by (apply is_ok_inr; vm_compute; reflexivity).
  exists self. split; [exact Hinit|]. split; [vm_compute; reflexivity|].
  exact (sampled_init_negatives example_factory FilterNone (Some 2%nat) None
           [0; 1; 2; 3; 4; 5; 6; 7; 8; 9]%nat self Hinit).
Defined.

(** ** Upper and lower case in a specification *)

Lemma resolve_name_lower (name : string) (side rank_type k : option string) (rest : string) :
  MetricKey.resolve_name (mkMetricMatch (str_lower name) side rank_type k rest)
  = MetricKey.resolve_name (mkMetricMatch name side rank_type k rest).
Proof.
  unfold MetricKey.resolve_name. cbn [group_name group_k].
  rewrite str_lower_idem.
  destruct name as [|c name]; reflexivity.
Qed.

(** X20. The name of a metric is read without regard to case: a
    specification that begins with a name, followed by text that does not
    continue the name, resolves as the specification with the name in lower
    case does, to the same key or with the same exception. *)
Theorem lookup_name_case (synonyms : list (string * string)) (name rest : string) :
  name <> EmptyString ->
  str_forallb is_name_char name = true ->
  starts_with_name rest = false ->
  MetricKey.lookup synonyms (name ++ rest) = MetricKey.lookup synonyms (str_lower name ++ rest).
Proof.
  intros Hne Hname Hrest. unfold MetricKey.lookup.
  rewrite !METRIC_PATTERN_match_app;
    [|apply str_lower_nonempty, Hne|apply str_lower_name, Hname|assumption..].
  destruct (match_dot_alternatives SIDES rest) as [side s2].
  destruct (match_dot_alternatives (MetricKey.TYPE_ALTERNATIVES synonyms) s2) as [rank_type s3].
  destruct (match_dot_digits s3) as [k s4].
  rewrite resolve_name_lower. reflexivity.
Qed.

Lemma lookup_name_case_witness :
  MetricKey.lookup example_rank_type_synonyms "MRR.tail"
  = inr (MetricKey.mk INVERSE_HARMONIC_MEAN_RANK LABEL_TAIL RANK_REALISTIC None)
  /\ MetricKey.lookup example_rank_type_synonyms "mrr.TAIL"
     = inr (MetricKey.mk INVERSE_HARMONIC_MEAN_RANK SIDE_BOTH RANK_REALISTIC None)
  /\ MetricKey.lookup example_rank_type_synonyms ("MRR" ++ ".tail")
     = MetricKey.lookup example_rank_type_synonyms (str_lower "MRR" ++ ".tail").
Proof.
  split; [reflexivity|]. split; [reflexivity|].
  apply (lookup_name_case example_rank_type_synonyms "MRR" ".tail").
  - discriminate.
  - reflexivity.
  - reflexivity.
Defined.

(** ** What the macro [finalize] reports *)

Section MacroReports.

Variable fns : Irrational.

Lemma write_values_other (side rank_type : string) (metrics : list (string * Value))
    (res : MetricResults) (name s r : string) :
  ((s, r) <> (side, rank_type)) \/ (name ∉ map fst metrics) ->
  data (foldl (fun res '(metric_name, metric_value) =>
                 set_metric metric_name side rank_type metric_value res)
              res metrics) !! (name, s, r)
  = data res !! (name, s, r).
Proof.
  revert res. induction metrics as [|[m v] metrics IH]; intros res H; [reflexivity|].
  cbn [foldl]. rewrite IH.
  - rewrite data_set_metric. apply lookup_insert_ne.
    intros [= -> -> ->]. destruct H as [H|H]; [congruence|].
    apply H. cbn. left.
  - destruct H as [H|H]; [now left|]. right. cbn in H.
    intros Hin. apply H. now right.
Qed.

Lemma write_values_lookup (side rank_type : string) (metrics : list (string * Value))
    (res : MetricResults) (name : string) (v : Value) :
  NoDup (map fst metrics) -> (name, v) ∈ metrics ->
  data (foldl (fun res '(metric_name, metric_value) =>
                 set_metric metric_name side rank_type metric_value res)
              res metrics) !! (name, side, rank_type)
  = Some v.
Proof.
  revert res. induction metrics as [|[m w] metrics IH]; intros res Hnodup Hin;
    [inversion Hin|].
  cbn [map fst] in Hnodup. apply NoDup_cons in Hnodup as [Hfresh Hnodup].
  cbn [foldl].
  apply elem_of_cons in Hin as [[= -> ->]|Hin].
  - rewrite write_values_other by (right; exact Hfresh).
    rewrite data_set_metric. apply lookup_insert_eq.
  - apply IH; assumption.
Qed.

Lemma write_values_hits (side rank_type : string) (metrics : list (string * Value))
    (res : MetricResults) :
  hits_at_k (foldl (fun res '(metric_name, metric_value) =>
                      set_metric metric_name side rank_type metric_value res)
                   res metrics)
  = hits_at_k res.
Proof.
  revert res. induction metrics as [|[m v] metrics IH]; intros res; [reflexivity|].
  cbn [foldl]. rewrite IH. reflexivity.
Qed.

Lemma macro_metrics_names (ranks weights : list Q) (metrics : list (string * Value)) :
  get_macro_ranking_metrics fns ranks weights = inr metrics ->
  NoDup (map fst metrics)
  /\ (HARMONIC_MEAN_RANK, NaN) ∈ metrics
  /\ (INVERSE_HARMONIC_MEAN_RANK, NaN) ∈ metrics
  /\ (RANK_MAD, NaN) ∈ metrics
  /\ (RANK_COUNT, Num (Qlen ranks)) ∈ metrics.
Proof.
  unfold get_macro_ranking_metrics.
  destruct (np_average ranks weights) as [e|mean]; [discriminate|]. cbn [bind]. cbv zeta.
  destruct (weighted_median ranks weights) as [e|median]; [discriminate|]. cbn [bind].
  match goal with |- bind ?m _ = _ -> _ => destruct m as [e|variance] end; [discriminate|].
  cbn [bind]. intros [= <-]. cbn [map fst]. split.
  - apply (bool_decide_unpack _). vm_compute. reflexivity.
  - repeat split; repeat (first [left; reflexivity | right]).
Qed.

(** The loop of hits at k of the macro [finalize]: one weighted fraction for
    each [k], in order. *)
Lemma macro_hits_spec (n : Z) (ranks weights : list Q) (ks : list HitsK)
    (acc hits : list (HitsK * Q)) :
  foldM (fun acc k =>
           try v <- np_average
                      (map (fun r => if Qle_bool r (inject_Z (hits_threshold n k))
                                     then 1 else 0) ranks)
                      weights in
           inr (acc ++ [(k, v)])%list)
        acc ks = inr hits ->
  hits = (acc ++ map (fun k => (k, weighted_hits_fraction n ranks weights k)) ks)%list.
Proof.
  revert acc. induction ks as [|k ks IH]; intros acc.
  - intros [= <-]. cbn [map]. rewrite app_nil_r. reflexivity.
  - rewrite foldM_cons. unfold np_average at 1.
    destruct (Qeq_bool (Qsum weights) 0); [discriminate|]. cbn [bind].
    intros Hfold. rewrite (IH _ Hfold), <- app_assoc. reflexivity.
Qed.

(** What one turn of the inner loop of the macro [finalize] writes. *)
Let reported (n : Z) (ranks weights : list Q) (ks : list HitsK) (side rank_type : string)
    (res : MetricResults) : Prop :=
  exists metrics,
    length weights = length ranks
    /\ get_macro_ranking_metrics fns ranks weights = inr metrics
    /\ (forall name v, (name, v) ∈ metrics -> data res !! (name, side, rank_type) = Some v)
    /\ hits_at_k res !! (side, rank_type)
       = Some (map (fun k => (k, weighted_hits_fraction n ranks weights k)) ks).

Lemma finalize_rank_type_spec (self : MacroRankBasedEvaluator.t) (n : Z) (side : string)
    (weights : list Q) (res res' : MetricResults) (rank_type : string) :
  MacroRankBasedEvaluator.finalize_rank_type fns self n side weights res rank_type = inr res' ->
  (forall name s r, (s, r) <> (side, rank_type) ->
      data res' !! (name, s, r) = data res !! (name, s, r))
  /\ (forall s r, (s, r) <> (side, rank_type) ->
        hits_at_k res' !! (s, r) = hits_at_k res !! (s, r))
  /\ (RankBasedEvaluator._get_ranks (MacroRankBasedEvaluator.base self) side rank_type = [] ->
      res' = res)
  /\ (RankBasedEvaluator._get_ranks (MacroRankBasedEvaluator.base self) side rank_type <> [] ->
      reported n (RankBasedEvaluator._get_ranks (MacroRankBasedEvaluator.base self) side
                    rank_type)
               weights (RankBasedEvaluator.ks (MacroRankBasedEvaluator.base self))
               side rank_type res').
Proof.
  unfold MacroRankBasedEvaluator.finalize_rank_type.
  set (ranks := RankBasedEvaluator._get_ranks (MacroRankBasedEvaluator.base self) side rank_type).
  destruct (Nat.eqb_spec (length ranks) (length weights)) as [Hlen|]; [|discriminate].
  cbn [negb].
  destruct (Nat.ltb_spec (length ranks) 1) as [Hempty|Hsome].
  { intros [= <-]. split; [reflexivity|]. split; [reflexivity|]. split; [reflexivity|].
    intros Hne. destruct ranks; [contradiction|simpl in Hempty; lia]. }
  match goal with |- bind ?m _ = _ -> _ => destruct m as [e|hits] eqn:Hhits end;
    [discriminate|].
  cbn [bind]. apply macro_hits_spec in Hhits. cbn [app] in Hhits.
  destruct (get_macro_ranking_metrics fns ranks weights) as [e|metrics] eqn:Hm;
    [discriminate|].
  cbn [bind]. intros [= <-].
  destruct (macro_metrics_names ranks weights metrics Hm) as [Hnodup _].
  split; [|split; [|split]].
  - intros name s r Hne. rewrite write_values_other by (left; exact Hne). reflexivity.
  - intros s r Hne. rewrite write_values_hits. cbn [set_hits hits_at_k].
    apply lookup_insert_ne. congruence.
  - intros Hnil. rewrite Hnil in Hsome. simpl in Hsome. lia.
  - intros _. exists metrics. split; [symmetry; exact Hlen|]. split; [exact Hm|]. split.
    + intros name v Hin. apply write_values_lookup; assumption.
    + rewrite write_values_hits. cbn [set_hits hits_at_k]. rewrite Hhits.
      apply lookup_insert_eq.
Qed.

(** The inner loop over distinct rank types. *)
Lemma finalize_rank_types_spec (self : MacroRankBasedEvaluator.t) (n : Z) (side : string)
    (weights : list Q) (rank_types : list string) (res res' : MetricResults) :
  NoDup rank_types ->
  foldM (MacroRankBasedEvaluator.finalize_rank_type fns self n side weights) res rank_types
  = inr res' ->
  (forall name s r, s <> side \/ r ∉ rank_types ->
      data res' !! (name, s, r) = data res !! (name, s, r)
      /\ hits_at_k res' !! (s, r) = hits_at_k res !! (s, r))
  /\ forall rank_type,
       rank_type ∈ rank_types ->
       (RankBasedEvaluator._get_ranks (MacroRankBasedEvaluator.base self) side rank_type = [] ->
        (forall name, data res' !! (name, side, rank_type) = data res !! (name, side, rank_type))
        /\ hits_at_k res' !! (side, rank_type) = hits_at_k res !! (side, rank_type))
       /\ (RankBasedEvaluator._get_ranks (MacroRankBasedEvaluator.base self) side rank_type <> [] ->
           reported n (RankBasedEvaluator._get_ranks (MacroRankBasedEvaluator.base self) side
                         rank_type)
                    weights (RankBasedEvaluator.ks (MacroRankBasedEvaluator.base self))
                    side rank_type res').
Proof.
  revert res. induction rank_types as [|r0 rank_types IH]; intros res Hnodup.
  - intros [= <-]. split; [auto|]. intros rank_type Hin. inversion Hin.
  - apply NoDup_cons in Hnodup as [Hfresh Hnodup]. rewrite foldM_cons.
    destruct (MacroRankBasedEvaluator.finalize_rank_type fns self n side weights res r0)
      as [e|res1] eqn:Hstep; [discriminate|].
    cbn [bind]. intros Hfold.
    apply finalize_rank_type_spec in Hstep as (Hd1 & Hh1 & Hnil1 & Hsome1).
    destruct (IH res1 Hnodup Hfold) as [Hother Hrest].
    assert (Hkeep : forall name, data res' !! (name, side, r0) = data res1 !! (name, side, r0)
                                 /\ hits_at_k res' !! (side, r0) = hits_at_k res1 !! (side, r0))
      by (intros name; apply Hother; right; exact Hfresh).
    split.
    + intros name s r Hout.
      assert (Hne : (s, r) <> (side, r0)).
      { intros [= -> ->]. destruct Hout as [H|H]; [congruence|]. apply H. left. }
      destruct (Hother name s r) as [Hd Hh].
      { destruct Hout as [H|H]; [now left|]. right. intros Hin. apply H. now right. }
      rewrite Hd, Hh. split; [apply Hd1, Hne|apply Hh1, Hne].
    + intros rank_type Hin. apply elem_of_cons in Hin as [->|Hin].
      * split.
        -- intros Hnil. rewrite (Hnil1 Hnil) in *. split.
           ++ intros name. apply Hkeep.
           ++ apply (Hkeep EmptyString).
        -- intros Hne. destruct (Hsome1 Hne) as (metrics & Hlen & Hm & Hd & Hh).
           exists metrics. split; [exact Hlen|]. split; [exact Hm|]. split.
           ++ intros name v Hv. destruct (Hkeep name) as [-> _]. apply Hd, Hv.
           ++ destruct (Hkeep EmptyString) as [_ ->]. exact Hh.
      * assert (Hne : (side, rank_type) <> (side, r0)) by (intros [= ->]; contradiction).
        destruct (Hrest rank_type Hin) as [Hnil Hsome]. split; [|exact Hsome].
        intros Hempty. destruct (Hnil Hempty) as [Hd Hh]. split.
        -- intros name. rewrite Hd. apply Hd1, Hne.
        -- rewrite Hh. apply Hh1, Hne.
Qed.

(** The outer loop over distinct sides. *)
Lemma finalize_sides_spec (self : MacroRankBasedEvaluator.t) (n : Z) (sides : list string)
    (res res' : MetricResults) (keys keys' : gmap string (list (Z * Z))) :
  NoDup sides -> (forall side, side ∈ sides -> side ∈ SIDES) ->
  foldM (MacroRankBasedEvaluator.finalize_side fns self n) (res, keys) sides
  = inr (res', keys') ->
  (forall name s r, s ∉ sides ->
      data res' !! (name, s, r) = data res !! (name, s, r)
      /\ hits_at_k res' !! (s, r) = hits_at_k res !! (s, r))
  /\ forall side rank_type,
       side ∈ sides -> rank_type ∈ RANK_TYPES ->
       (RankBasedEvaluator._get_ranks (MacroRankBasedEvaluator.base self) side rank_type = [] ->
        (forall name, data res' !! (name, side, rank_type) = data res !! (name, side, rank_type))
        /\ hits_at_k res' !! (side, rank_type) = hits_at_k res !! (side, rank_type))
       /\ (RankBasedEvaluator._get_ranks (MacroRankBasedEvaluator.base self) side rank_type <> [] ->
           reported n (RankBasedEvaluator._get_ranks (MacroRankBasedEvaluator.base self) side
                         rank_type)
                    (key_weights (macro_side_keys keys side))
                    (RankBasedEvaluator.ks (MacroRankBasedEvaluator.base self))
                    side rank_type res').
Proof.
  revert res keys. induction sides as [|s0 sides IH]; intros res keys Hnodup Hsides.
  - intros [= <- <-]. split; [auto|]. intros side rank_type Hin. inversion Hin.
  - apply NoDup_cons in Hnodup as [Hfresh Hnodup]. rewrite foldM_cons.
    unfold MacroRankBasedEvaluator.finalize_side at 1.
    destruct (get_keys_side keys s0 (Hsides s0 ltac:(left))) as (keys1 & -> & Hkeys1).
    cbn [bind]. rewrite macro_weights_eq. cbn [bind].
    fold (macro_side_keys keys s0). fold (key_weights (macro_side_keys keys s0)).
    match goal with |- context [foldM ?f res RANK_TYPES] =>
      destruct (foldM f res RANK_TYPES) as [e|res1] eqn:Hinner
    end; [discriminate|].
    cbn [bind]. intros Hfold.
    assert (Hrt : NoDup RANK_TYPES) by (apply (bool_decide_unpack _); vm_compute; reflexivity).
    destruct (finalize_rank_types_spec self n s0 _ RANK_TYPES res res1 Hrt Hinner)
      as [Hother1 Hdone1].
    destruct (IH res1 keys1 Hnodup (fun s Hs => Hsides s ltac:(now right)) Hfold)
      as [Hother Hrest].
    assert (Hsame : forall side, macro_side_keys keys1 side = macro_side_keys keys side)
      by (intros side; unfold macro_side_keys; rewrite !Hkeys1; reflexivity).
    split.
    + intros name s r Hout. apply not_elem_of_cons in Hout as [Hne Hout].
      destruct (Hother name s r Hout) as [-> ->]. apply Hother1. now left.
    + intros side rank_type Hin Hrank. apply elem_of_cons in Hin as [->|Hin].
      * destruct (Hdone1 rank_type Hrank) as [Hnil Hsome].
        destruct (Hother EmptyString s0 rank_type Hfresh) as [_ Hh].
        split.
        -- intros Hempty. destruct (Hnil Hempty) as [Hd Hh1]. split.
           ++ intros name. destruct (Hother name s0 rank_type Hfresh) as [-> _]. apply Hd.
           ++ rewrite Hh. exact Hh1.
        -- intros Hne. destruct (Hsome Hne) as (metrics & Hlen & Hm & Hd & Hh1).
           exists metrics. split; [exact Hlen|]. split; [exact Hm|]. split.
           ++ intros name v Hv. destruct (Hother name s0 rank_type Hfresh) as [-> _].
              apply Hd, Hv.
           ++ rewrite Hh. exact Hh1.
      * assert (Hne : side <> s0) by (intros ->; contradiction).
        destruct (Hrest side rank_type Hin Hrank) as [Hnil Hsome].
        rewrite Hsame in Hsome. split; [|exact Hsome].
        intros Hempty. destruct (Hnil Hempty) as [Hd Hh]. split.
        -- intros name. rewrite Hd. apply Hother1. now left.
        -- rewrite Hh. apply (Hother1 EmptyString). now left.
Qed.

End MacroReports.

Lemma macro_metrics_values (fns : Irrational) (ranks weights : list Q)
    (metrics : list (string * Value)) :
  get_macro_ranking_metrics fns ranks weights = inr metrics ->
  exists mean median variance,
    np_average ranks weights = inr mean
    /\ weighted_median ranks weights = inr median
    /\ np_average (map (fun r => (r - mean) * (r - mean)) ranks) weights = inr variance
    /\ metrics
       = [ (ARITHMETIC_MEAN_RANK, Num mean);
           (GEOMETRIC_MEAN_RANK, Num (stats_gmean fns ranks (Some weights)));
           (HARMONIC_MEAN_RANK, NaN);
           (MEDIAN_RANK, Num median);
           (INVERSE_ARITHMETIC_MEAN_RANK, Num (/ mean));
           (INVERSE_GEOMETRIC_MEAN_RANK, Num (/ stats_gmean fns ranks (Some weights)));
           (INVERSE_HARMONIC_MEAN_RANK, NaN);
           (INVERSE_MEDIAN_RANK, Num (/ median));
           (RANK_STD, Num (np_sqrt fns variance));
           (RANK_VARIANCE, Num variance);
           (RANK_MAD, NaN);
           (RANK_COUNT, Num (Qlen ranks)) ].
Proof.
  unfold get_macro_ranking_metrics.
  destruct (np_average ranks weights) as [e|mean]; [discriminate|]. cbn [bind]. cbv zeta.
  destruct (weighted_median ranks weights) as [e|median]; [discriminate|]. cbn [bind].
  match goal with |- bind ?m _ = _ -> _ => destruct m as [e|variance] eqn:Hv end;
    [discriminate|].
  cbn [bind]. intros [= <-]. exists mean, median, variance. auto.
Qed.

(** X21.  What the macro [finalize] reports when it returns, for a side and
    a base rank type.  Without ranks for the pair nothing is written for it.
    With ranks, the weights are the reciprocals of the number of observations
    that share the grouping key and there are as many as ranks; the
    arithmetic mean rank is the weighted mean of the ranks, the variance the
    weighted mean of the squared deviations from it, the standard deviation
    its root; the median rank is one of the ranks; the inverse metrics are
    the reciprocals of what is stored for the mean, the geometric mean and
    the median; the harmonic mean, its reciprocal and the median absolute
    deviation are [nan]; the count is the number of ranks; and hits at k is,
    for each k of the evaluator in order, the weighted fraction of the ranks
    not above the bound of k. *)
Theorem macro_finalize_reports (fns : Irrational) (self self' : MacroRankBasedEvaluator.t)
    (res : MetricResults) (n : Z) (side rank_type : string) :
  MacroRankBasedEvaluator.finalize fns self = inr (res, self') ->
  RankBasedEvaluator.num_entities (MacroRankBasedEvaluator.base self) = Some n ->
  side ∈ SIDES -> rank_type ∈ RANK_TYPES ->
  let ranks := RankBasedEvaluator._get_ranks (MacroRankBasedEvaluator.base self) side rank_type in
  let weights := key_weights (macro_side_keys (MacroRankBasedEvaluator.keys self) side) in
  (ranks = [] ->
   (forall name, data res !! (name, side, rank_type) = None)
   /\ hits_at_k res !! (side, rank_type) = None)
  /\ (ranks <> [] ->
      length weights = length ranks
      /\ (exists mean median variance,
            np_average ranks weights = inr mean
            /\ In median ranks
            /\ np_average (map (fun r => (r - mean) * (r - mean)) ranks) weights
               = inr variance
            /\ data res !! (ARITHMETIC_MEAN_RANK, side, rank_type) = Some (Num mean)
            /\ data res !! (INVERSE_ARITHMETIC_MEAN_RANK, side, rank_type)
               = Some (Num (/ mean))
            /\ data res !! (MEDIAN_RANK, side, rank_type) = Some (Num median)
            /\ data res !! (INVERSE_MEDIAN_RANK, side, rank_type) = Some (Num (/ median))
            /\ data res !! (RANK_VARIANCE, side, rank_type) = Some (Num variance)
            /\ data res !! (RANK_STD, side, rank_type) = Some (Num (np_sqrt fns variance))
            /\ data res !! (GEOMETRIC_MEAN_RANK, side, rank_type)
               = Some (Num (stats_gmean fns ranks (Some weights)))
            /\ data res !! (INVERSE_GEOMETRIC_MEAN_RANK, side, rank_type)
               = Some (Num (/ stats_gmean fns ranks (Some weights))))
      /\ data res !! (HARMONIC_MEAN_RANK, side, rank_type) = Some NaN
      /\ data res !! (INVERSE_HARMONIC_MEAN_RANK, side, rank_type) = Some NaN
      /\ data res !! (RANK_MAD, side, rank_type) = Some NaN
      /\ data res !! (RANK_COUNT, side, rank_type) = Some (Num (Qlen ranks))
      /\ hits_at_k res !! (side, rank_type)
         = Some (map (fun k => (k, weighted_hits_fraction n ranks weights k))
                     (RankBasedEvaluator.ks (MacroRankBasedEvaluator.base self)))).
Proof.
  unfold MacroRankBasedEvaluator.finalize. intros Hfin Hn Hside Hrt. rewrite Hn in Hfin.
  destruct (foldM _ (empty_results, MacroRankBasedEvaluator.keys self) SIDES)
    as [e|[res0 keys0]] eqn:Hfold; [discriminate|].
  cbn [bind] in Hfin. injection Hfin as <- _.
  assert (Hnodup : NoDup SIDES) by (apply (bool_decide_unpack _); vm_compute; reflexivity).
  destruct (finalize_sides_spec fns self n SIDES _ _ _ _ Hnodup (fun s Hs => Hs) Hfold)
    as [_ Hpairs].
  destruct (Hpairs side rank_type Hside Hrt) as [Hnil Hsome]. clear Hpairs.
  cbv zeta.
  set (ranks := RankBasedEvaluator._get_ranks (MacroRankBasedEvaluator.base self) side
                  rank_type) in *.
  set (weights := key_weights (macro_side_keys (MacroRankBasedEvaluator.keys self) side))
    in *.
  split.
  - intros Hempty. destruct (Hnil Hempty) as [Hd Hh]. split.
    + intros name. rewrite Hd. apply lookup_empty.
    + rewrite Hh. apply lookup_empty.
  - intros Hne. destruct (Hsome Hne) as (metrics & Hlen & Hm & Hd & Hh).
    destruct (macro_metrics_values fns ranks weights metrics Hm)
      as (mean & median & variance & Hmean & Hmedian & Hvariance & ->).
    assert (Hget : forall name v,
              In (name, v)
                 [ (ARITHMETIC_MEAN_RANK, Num mean);
                   (GEOMETRIC_MEAN_RANK, Num (stats_gmean fns ranks (Some weights)));
                   (HARMONIC_MEAN_RANK, NaN);
                   (MEDIAN_RANK, Num median);
                   (INVERSE_ARITHMETIC_MEAN_RANK, Num (/ mean));
                   (INVERSE_GEOMETRIC_MEAN_RANK,
                    Num (/ stats_gmean fns ranks (Some weights)));
                   (INVERSE_HARMONIC_MEAN_RANK, NaN);
                   (INVERSE_MEDIAN_RANK, Num (/ median));
                   (RANK_STD, Num (np_sqrt fns variance));
                   (RANK_VARIANCE, Num variance);
                   (RANK_MAD, NaN);
                   (RANK_COUNT, Num (Qlen ranks)) ] ->
              data res0 !! (name, side, rank_type) = Some v).
    { intros name v Hin. apply Hd, list_elem_of_In, Hin. }
    split; [exact Hlen|]. split.
    + exists mean, median, variance. split; [exact Hmean|].
      split; [eapply weighted_median_is_an_entry; exact Hmedian|].
      split; [exact Hvariance|].
      repeat (split; [apply Hget; cbn [In]; tauto|]). apply Hget. cbn [In]. tauto.
    + repeat (split; [apply Hget; cbn [In]; tauto|]). exact Hh.
Qed.

Lemma macro_finalize_reports_witness :
  exists self res self',
    example_macro_run = inr self
    /\ MacroRankBasedEvaluator.finalize example_fns self = inr (res, self')
    /\ key_weights (macro_side_keys (MacroRankBasedEvaluator.keys self) LABEL_HEAD)
       = [1 # 2; 1 # 2]
    /\ data res !! (RANK_COUNT, LABEL_HEAD, RANK_OPTIMISTIC) = Some (Num 2)
    /\ data res !! (HARMONIC_MEAN_RANK, LABEL_HEAD, RANK_OPTIMISTIC) = Some NaN
    /\ hits_at_k res !! (LABEL_TAIL, RANK_OPTIMISTIC) = None.
Proof.
  pose (blank := MacroRankBasedEvaluator.mk (RankBasedEvaluator.mk [] ∅ None) ∅).
  pose (self := from_ok blank example_macro_run).
  pose (out := from_ok (empty_results, blank)
                       (MacroRankBasedEvaluator.finalize example_fns self)).
  assert (Hrun : example_macro_run = inr self)
    by (apply is_ok_inr; vm_compute; reflexivity).
  assert (Hfin : MacroRankBasedEvaluator.finalize example_fns self = inr (out.1, out.2)).
  { rewrite <- surjective_pairing. apply is_ok_inr. vm_compute. reflexivity. }
  assert (Hn : RankBasedEvaluator.num_entities (MacroRankBasedEvaluator.base self) = Some 3%Z)
    by (vm_compute; reflexivity).
  assert (Hhead : LABEL_HEAD ∈ SIDES) by (apply (bool_decide_unpack _); vm_compute; exact I).
  assert (Htail : LABEL_TAIL ∈ SIDES) by (apply (bool_decide_unpack _); vm_compute; exact I).
  assert (Hrt : RANK_OPTIMISTIC ∈ RANK_TYPES)
    by (apply (bool_decide_unpack _); vm_compute; exact I).
  destruct (macro_finalize_reports example_fns self out.2 out.1 3 LABEL_HEAD RANK_OPTIMISTIC
              Hfin Hn Hhead Hrt) as [_ Hsome].
  destruct (macro_finalize_reports example_fns self out.2 out.1 3 LABEL_TAIL RANK_OPTIMISTIC
              Hfin Hn Htail Hrt) as [Hnil _].
  destruct Hsome as (_ & _ & Hharmonic & _ & _ & Hcount & _).
  { intros H. vm_compute in H. discriminate H. }
  destruct Hnil as [_ Hhits]; [vm_compute; reflexivity|].
  exists self, out.1, out.2.
  split; [exact Hrun|]. split; [exact Hfin|]. split; [vm_compute; reflexivity|].
  split; [exact Hcount|]. split; [exact Hharmonic|exact Hhits].
Defined.

(** ** When the macro [finalize] returns *)

Lemma Qsum_app (xs ys : list Q) : Qsum (xs ++ ys) == Qsum xs + Qsum ys.
Proof.
  induction xs as [|x xs IH]; cbn [app].
  - rewrite Qsum_nil. ring.
  - rewrite !Qsum_cons, IH. ring.
Qed.

(** With positive weights of which none exceeds half of the total,
    [weighted_median] returns one of the values. *)
Lemma weighted_median_returns (a weights : list Q) :
  length weights = length a -> a <> [] ->
  Forall (fun w => 0 < w) weights ->
  Forall (fun w => 2 * w <= Qsum weights) weights ->
  exists v, weighted_median a weights = inr v.
Proof.
  intros Hlen Hne Hpos Hhalf.
  destruct (weighted_median_positive a weights Hlen Hpos Hne)
    as (s_ranks & s_weights & idx & _ & Hperm & _ & Hpw & Hidx & Hbelow & _ & ->).
  assert (Hin : (idx < length a)%nat).
  { destruct (decide (idx < length a)%nat) as [?|Hge]; [assumption|]. exfalso.
    assert (Hn : (length s_weights = length a)%nat) by (rewrite Hpw; exact Hlen).
    assert (Hpos_len : (0 < length a)%nat) by (destruct a; [congruence|cbn; lia]).
    specialize (Hbelow (length a - 1)%nat ltac:(lia)).
    pose proof (take_drop (length a - 1) s_weights) as Hsplit.
    assert (Hdrop : length (drop (length a - 1) s_weights) = 1%nat)
      by (rewrite length_drop; lia).
    destruct (drop (length a - 1) s_weights) as [|x [|y l]] eqn:Hd; try discriminate Hdrop.
    assert (Hx : x ∈ weights).
    { rewrite <- Hpw, <- Hsplit. apply elem_of_app. right. left. }
    rewrite Forall_forall in Hhalf. specialize (Hhalf x Hx).
    pose proof (Qsum_Permutation _ _ Hpw) as Hsum.
    rewrite <- Hsplit, Qsum_app, Qsum_cons, Qsum_nil in Hsum.
    rewrite <- Hsum in Hbelow, Hhalf.
    apply (Qlt_not_le _ _ Hbelow).
    setoid_replace (2 * Qsum (take (length a - 1) s_weights))
      with (Qsum (take (length a - 1) s_weights) + (x + 0)
            + (Qsum (take (length a - 1) s_weights) - (x + 0))) using relation Qeq by ring.
    setoid_replace (Qsum (take (length a - 1) s_weights) + (x + 0))
      with (Qsum (take (length a - 1) s_weights) + (x + 0) + 0) using relation Qeq at 1 by ring.
    apply Qplus_le_compat; [apply Qle_refl|].
    apply (Qplus_le_l _ _ (2 * x)).
    setoid_replace (0 + 2 * x) with (2 * x) using relation Qeq by ring.
    setoid_replace (Qsum (take (length a - 1) s_weights) - (x + 0) + 2 * x)
      with (Qsum (take (length a - 1) s_weights) + (x + 0)) using relation Qeq by ring.
    exact Hhalf. }
  rewrite <- (Permutation_length Hperm) in Hin.
  destruct (lookup_lt_is_Some_2 s_ranks idx Hin) as [v Hv]. rewrite Hv. eauto.
Qed.

Lemma key_weights_le_one (keys : list (Z * Z)) :
  Forall (fun w => w <= 1) (key_weights keys).
Proof.
  unfold key_weights. apply Forall_map, Forall_forall. intros key Hkey. cbv beta.
  apply count_row_pos in Hkey.
  assert (H1 : 1 <= inject_Z (Z.of_nat (count_row key keys)))
    by (change 1 with (inject_Z 1); rewrite <- Zle_Qle; lia).
  apply Qinv_unit_range, H1.
Qed.

Lemma key_weights_total (keys : list (Z * Z)) :
  Qsum (key_weights keys) == Qlen (unique_rows keys).
Proof. apply (total_mass keys (map (fun _ => 0) keys)). apply length_map. Qed.

(** The weighted median of the macro aggregation returns as soon as the
    observations are of at least two keys. *)
Lemma macro_weighted_median_returns (keys : list (Z * Z)) (ranks : list Q) :
  length ranks = length keys -> (2 <= length (unique_rows keys))%nat ->
  exists v, weighted_median ranks (key_weights keys) = inr v.
Proof.
  intros Hlen Hkeys.
  assert (Hne : ranks <> []).
  { intros ->. destruct keys; [cbn in Hkeys; lia|discriminate]. }
  apply weighted_median_returns; [|exact Hne|apply macro_weights_positive|].
  - unfold key_weights. rewrite length_map. symmetry. exact Hlen.
  - eapply Forall_impl; [apply key_weights_le_one|]. intros w Hw. cbv beta.
    rewrite key_weights_total.
    apply Qle_trans with 2.
    + setoid_replace 2 with (2 * 1) using relation Qeq at 2 by ring.
      apply Qmult_le_l; [reflexivity|exact Hw].
    + unfold Qlen. change 2 with (inject_Z 2). rewrite <- Zle_Qle. lia.
Qed.

Lemma unique_rows_app_l (xs ys : list (Z * Z)) :
  (length (unique_rows xs) <= length (unique_rows (xs ++ ys)))%nat.
Proof.
  apply submseteq_length, NoDup_submseteq; [apply unique_rows_NoDup|].
  intros x Hx. apply unique_rows_elem, elem_of_app. left.
  apply (proj1 (unique_rows_elem x xs) Hx).
Qed.

Lemma unique_rows_app_r (xs ys : list (Z * Z)) :
  (length (unique_rows ys) <= length (unique_rows (xs ++ ys)))%nat.
Proof.
  apply submseteq_length, NoDup_submseteq; [apply unique_rows_NoDup|].
  intros x Hx. apply unique_rows_elem, elem_of_app. right.
  apply (proj1 (unique_rows_elem x ys) Hx).
Qed.

Section MacroProgress.

Variable fns : Irrational.

(** An exception of [get_macro_ranking_metrics] is the one of the weighted
    median, when the weights do not sum to zero. *)
Lemma get_macro_ranking_metrics_failure (ranks weights : list Q) (e : Exception) :
  ~ Qsum weights == 0 ->
  get_macro_ranking_metrics fns ranks weights = inl e ->
  weighted_median ranks weights = inl e.
Proof.
  intros Hw. unfold get_macro_ranking_metrics.
  destruct (np_average_ok ranks weights Hw) as [mean ->]. cbn [bind]. cbv zeta.
  destruct (weighted_median ranks weights) as [e'|median]; [intros [= <-]; reflexivity|].
  cbn [bind].
  match goal with
  | |- context [np_average ?xs weights] => destruct (np_average_ok xs weights Hw) as [v ->]
  end.
  discriminate.
Qed.

Lemma finalize_rank_type_failure (self : MacroRankBasedEvaluator.t) (n : Z) (side : string)
    (weights : list Q) (res : MetricResults) (rank_type : string) (e : Exception) :
  length (RankBasedEvaluator._get_ranks (MacroRankBasedEvaluator.base self) side rank_type)
  = length weights ->
  Forall (fun w => 0 < w) weights ->
  MacroRankBasedEvaluator.finalize_rank_type fns self n side weights res rank_type = inl e ->
  RankBasedEvaluator._get_ranks (MacroRankBasedEvaluator.base self) side rank_type <> []
  /\ weighted_median
       (RankBasedEvaluator._get_ranks (MacroRankBasedEvaluator.base self) side rank_type)
       weights = inl e.
Proof.
  intros Hlen Hpos. unfold MacroRankBasedEvaluator.finalize_rank_type.
  rewrite Hlen, Nat.eqb_refl. cbn [negb].
  destruct (Nat.ltb_spec (length weights) 1) as [|Hsome]; [discriminate|].
  assert (Hw : ~ Qsum weights == 0).
  { apply Qsum_positive_nonzero; [|assumption].
    destruct weights; [simpl in Hsome; lia|discriminate]. }
  match goal with |- context [foldM ?f [] ?ks] =>
    destruct (macro_hits_ok n (RankBasedEvaluator._get_ranks (MacroRankBasedEvaluator.base self)
                                 side rank_type) weights ks [] Hw) as [hits Hhits]
  end.
  rewrite Hhits. cbn [bind].
  destruct (get_macro_ranking_metrics fns _ weights) as [e'|metrics] eqn:Hm; [|discriminate].
  cbn [bind]. intros [= <-]. split.
  - intros Hnil. rewrite Hnil in Hlen. cbn in Hlen. lia.
  - apply get_macro_ranking_metrics_failure; assumption.
Qed.

Let lengths_match (base : RankBasedEvaluator.t) (keys : gmap string (list (Z * Z))) : Prop :=
  forall side rank_type,
    side ∈ [LABEL_HEAD; LABEL_TAIL] -> rank_type ∈ RANK_TYPES ->
    length (default [] (RankBasedEvaluator.ranks base !! (side, rank_type)))
    = length (default [] (keys !! side)).

(** An exception of the loop over the sides is the one of the weighted
    median of a side and a rank type that have ranks. *)
Lemma finalize_sides_failure (self : MacroRankBasedEvaluator.t) (n : Z) (sides : list string)
    (res : MetricResults) (keys : gmap string (list (Z * Z))) (e : Exception) :
  lengths_match (MacroRankBasedEvaluator.base self) keys ->
  (forall side, side ∈ sides -> side ∈ SIDES) ->
  foldM (MacroRankBasedEvaluator.finalize_side fns self n) (res, keys) sides = inl e ->
  exists side rank_type,
    side ∈ sides /\ rank_type ∈ RANK_TYPES
    /\ RankBasedEvaluator._get_ranks (MacroRankBasedEvaluator.base self) side rank_type <> []
    /\ weighted_median
         (RankBasedEvaluator._get_ranks (MacroRankBasedEvaluator.base self) side rank_type)
         (key_weights (macro_side_keys keys side)) = inl e.
Proof.
  revert res keys. induction sides as [|s0 sides IH]; intros res keys Hmatch Hsides;
    [discriminate|].
  rewrite foldM_cons. unfold MacroRankBasedEvaluator.finalize_side at 1.
  destruct (get_keys_side keys s0 (Hsides s0 ltac:(left))) as (keys1 & -> & Hkeys1).
  cbn [bind]. rewrite macro_weights_eq. cbn [bind].
  fold (macro_side_keys keys s0). fold (key_weights (macro_side_keys keys s0)).
  match goal with |- context [foldM ?f res RANK_TYPES] =>
    destruct (foldM f res RANK_TYPES) as [e'|res1] eqn:Hinner
  end.
  - cbn [bind]. intros [= <-].
    apply foldM_error in Hinner as (acc & rank_type & Hrt & Hstep).
    apply finalize_rank_type_failure in Hstep as [Hne Hmedian].
    + exists s0, rank_type. split; [left|]. auto.
    + unfold key_weights. rewrite length_map.
      apply get_ranks_length; [exact Hmatch|apply Hsides; left|exact Hrt].
    + apply macro_weights_positive.
  - cbn [bind]. intros Hfold.
    destruct (IH res1 keys1) as (side & rank_type & Hside & Hrt & Hne & Hmedian);
      [|intros s Hs; apply Hsides; now right|exact Hfold|].
    + intros s rank_type Hs Hrt. rewrite Hkeys1. apply Hmatch; assumption.
    + exists side, rank_type. split; [now right|]. split; [exact Hrt|]. split; [exact Hne|].
      replace (macro_side_keys keys side) with (macro_side_keys keys1 side); [exact Hmedian|].
      unfold macro_side_keys. rewrite !Hkeys1. reflexivity.
Qed.

End MacroProgress.

Lemma macro_metrics_mean (fns : Irrational) (ranks weights : list Q)
    (metrics : list (string * Value)) :
  get_macro_ranking_metrics fns ranks weights = inr metrics ->
  exists mean,
    np_average ranks weights = inr mean
    /\ (ARITHMETIC_MEAN_RANK, Num mean) ∈ metrics.
Proof.
  unfold get_macro_ranking_metrics.
  destruct (np_average ranks weights) as [e|mean]; [discriminate|]. cbn [bind]. cbv zeta.
  destruct (weighted_median ranks weights) as [e|median]; [discriminate|]. cbn [bind].
  match goal with |- bind ?m _ = _ -> _ => destruct m as [e|variance] end; [discriminate|].
  cbn [bind]. intros [= <-]. exists mean. split; [reflexivity|left].
Qed.

(** C5.  In the macro [finalize] every observation of a side receives the
    weight one over the number of observations of its grouping key, so the
    weights of each key sum to one.  Whenever [finalize] returns, the
    arithmetic mean rank it stores for a side and a rank type with ranks is
    the weighted mean with these weights, and this is the simple average
    over the distinct keys of the mean rank of each key.  And [finalize]
    does return on an accumulator with aligned keys and ranks and the number
    of candidates set, when the observations of each side are of at least
    three keys, so that no observation holds half of the total weight. *)
Theorem macro_finalize_equal_mass (fns : Irrational) (self : MacroRankBasedEvaluator.t)
    (side rank_type : string) :
  side ∈ SIDES -> rank_type ∈ RANK_TYPES ->
  let ranks := RankBasedEvaluator._get_ranks (MacroRankBasedEvaluator.base self) side rank_type in
  let keys := macro_side_keys (MacroRankBasedEvaluator.keys self) side in
  let weights := key_weights keys in
  ranks <> [] ->
  (MacroRankBasedEvaluator.macro_weights keys = inr weights
   /\ (forall i key,
         keys !! i = Some key ->
         weights !! i = Some (/ inject_Z (Z.of_nat (count_row key keys))))
   /\ (forall key, key ∈ keys -> Qsum (values_of_key key keys weights) == 1))
  /\ (forall res self',
        MacroRankBasedEvaluator.finalize fns self = inr (res, self') ->
        exists mean,
          np_average ranks weights = inr mean
          /\ data res !! (ARITHMETIC_MEAN_RANK, side, rank_type) = Some (Num mean)
          /\ mean == average_of_key_means keys ranks)
  /\ (aligned self ->
      RankBasedEvaluator.num_entities (MacroRankBasedEvaluator.base self) <> None ->
      (forall s, s ∈ [LABEL_HEAD; LABEL_TAIL] ->
         default [] (MacroRankBasedEvaluator.keys self !! s) = []
         \/ (3 <= length (unique_rows (default [] (MacroRankBasedEvaluator.keys self !! s))))%nat) ->
      exists res self', MacroRankBasedEvaluator.finalize fns self = inr (res, self')).
Proof.
  intros Hside Hrt ranks keys weights Hranks.
  split; [apply key_weights_equal_mass|]. split.
  - intros res self'. unfold MacroRankBasedEvaluator.finalize.
    destruct (RankBasedEvaluator.num_entities (MacroRankBasedEvaluator.base self)) as [n|];
      [|discriminate].
    destruct (foldM _ (empty_results, MacroRankBasedEvaluator.keys self) SIDES)
      as [e|[res0 keys0]] eqn:Hfold; [discriminate|].
    cbn [bind]. intros [= <- _].
    assert (Hnodup : NoDup SIDES) by (apply (bool_decide_unpack _); vm_compute; reflexivity).
    destruct (finalize_sides_spec fns self n SIDES _ _ _ _ Hnodup (fun s Hs => Hs) Hfold)
      as [_ Hpairs].
    destruct (Hpairs side rank_type Hside Hrt) as [_ Hsome].
    destruct (Hsome Hranks) as (metrics & Hlen & Hm & Hd & _).
    destruct (macro_metrics_mean fns _ _ metrics Hm) as (mean & Hmean & Hin).
    exists mean. split; [exact Hmean|]. split; [apply Hd, Hin|].
    assert (Hlen' : length ranks = length keys).
    { etransitivity; [symmetry; exact Hlen|]. unfold key_weights. apply length_map. }
    destruct (key_weights_mean keys ranks Hlen') as (mean' & Hmean' & Heq).
    { intros Hnil. rewrite Hnil in Hlen'. destruct ranks; [congruence|discriminate]. }
    pose proof (eq_trans (eq_sym Hmean) Hmean') as Hsame. injection Hsame as ->.
    exact Heq.
  - intros Haligned Hn Hkeys. unfold MacroRankBasedEvaluator.finalize.
    destruct (RankBasedEvaluator.num_entities (MacroRankBasedEvaluator.base self)) as [n|];
      [|congruence].
    destruct (foldM _ (empty_results, MacroRankBasedEvaluator.keys self) SIDES)
      as [e|[res0 keys0]] eqn:Hfold; [|cbn [bind]; eauto].
    exfalso.
    apply finalize_sides_failure in Hfold
      as (s & r & Hs & Hr & Hne & Hmedian); [|exact Haligned|auto].
    pose proof (get_ranks_length (MacroRankBasedEvaluator.base self)
                  (MacroRankBasedEvaluator.keys self) s r Haligned Hs Hr) as Hlen.
    fold (macro_side_keys (MacroRankBasedEvaluator.keys self) s) in Hlen.
    destruct (macro_weighted_median_returns
                (macro_side_keys (MacroRankBasedEvaluator.keys self) s)
                (RankBasedEvaluator._get_ranks (MacroRankBasedEvaluator.base self) s r)
                Hlen) as [v Hv]; [|rewrite Hv in Hmedian; discriminate Hmedian].
    assert (Hnonempty : macro_side_keys (MacroRankBasedEvaluator.keys self) s <> []).
    { intros Hnil. rewrite Hnil in Hlen. apply Hne.
      destruct (RankBasedEvaluator._get_ranks _ s r); [reflexivity|discriminate]. }
    pose proof (Hkeys LABEL_HEAD ltac:(left)) as Hhead.
    pose proof (Hkeys LABEL_TAIL ltac:(right; left)) as Htail.
    unfold macro_side_keys in *.
    repeat (apply elem_of_cons in Hs as [->|Hs]); [| | |inversion Hs].
    + change (String.eqb LABEL_HEAD SIDE_BOTH) with false in *. cbv iota in *.
      destruct Hhead as [Hnil|H3]; [contradiction|lia].
    + change (String.eqb LABEL_TAIL SIDE_BOTH) with false in *. cbv iota in *.
      destruct Htail as [Hnil|H3]; [contradiction|lia].
    + change (String.eqb SIDE_BOTH SIDE_BOTH) with true in *. cbv iota in *.
      destruct Hhead as [Hnil|H3].
      * destruct Htail as [Hnil'|H3].
        -- rewrite Hnil, Hnil' in Hnonempty. contradiction.
        -- pose proof (unique_rows_app_r
                         (default [] (MacroRankBasedEvaluator.keys self !! LABEL_HEAD))
                         (default [] (MacroRankBasedEvaluator.keys self !! LABEL_TAIL))). lia.
      * pose proof (unique_rows_app_l
                      (default [] (MacroRankBasedEvaluator.keys self !! LABEL_HEAD))
                      (default [] (MacroRankBasedEvaluator.keys self !! LABEL_TAIL))). lia.
Qed.

Lemma macro_finalize_equal_mass_witness :
  exists self res self' mean,
    example_skewed_run = inr self
    /\ key_weights (macro_side_keys (MacroRankBasedEvaluator.keys self) LABEL_HEAD)
       = [1 # 3; 1 # 3; 1 # 3; 1; 1]
    /\ RankBasedEvaluator._get_ranks (MacroRankBasedEvaluator.base self) LABEL_HEAD
         RANK_OPTIMISTIC = [1; 2; 3; 4; 2]
    /\ MacroRankBasedEvaluator.finalize example_fns self = inr (res, self')
    /\ data res !! (ARITHMETIC_MEAN_RANK, LABEL_HEAD, RANK_OPTIMISTIC) = Some (Num mean)
    /\ mean == 8 # 3
    /\ ~ mean == np_mean [1; 2; 3; 4; 2].
Proof.
  pose (blank := MacroRankBasedEvaluator.mk (RankBasedEvaluator.mk [] ∅ None) ∅).
  pose (self := from_ok blank example_skewed_run).
  assert (Hrun : example_skewed_run = inr self)
    by (apply is_ok_inr; vm_compute; reflexivity).
  assert (Hside : LABEL_HEAD ∈ SIDES) by (apply (bool_decide_unpack _); vm_compute; exact I).
  assert (Hrt : RANK_OPTIMISTIC ∈ RANK_TYPES)
    by (apply (bool_decide_unpack _); vm_compute; exact I).
  assert (Hranks : RankBasedEvaluator._get_ranks (MacroRankBasedEvaluator.base self)
                     LABEL_HEAD RANK_OPTIMISTIC <> [])
    by (intros H; vm_compute in H; discriminate H).
  destruct (macro_finalize_equal_mass example_fns self LABEL_HEAD RANK_OPTIMISTIC
              Hside Hrt Hranks) as (_ & Hstored & Hreturns).
  destruct Hreturns as (res & self' & Hfin).
  { intros s r Hs Hr.
    repeat (apply elem_of_cons in Hs as [->|Hs]); [| |inversion Hs];
      (repeat (apply elem_of_cons in Hr as [->|Hr]); [| | |inversion Hr]);
      vm_compute; reflexivity. }
  { vm_compute. discriminate. }
  { intros s Hs. repeat (apply elem_of_cons in Hs as [->|Hs]); [| |inversion Hs].
    - right. vm_compute. lia.
    - left. vm_compute. reflexivity. }
  destruct (Hstored res self' Hfin) as (mean & _ & Hdata & Hmean).
  exists self, res, self', mean.
  split; [exact Hrun|]. split; [vm_compute; reflexivity|]. split; [vm_compute; reflexivity|].
  split; [exact Hfin|]. split; [exact Hdata|].
  assert (Hvalue : mean == 8 # 3) by (rewrite Hmean; vm_compute; reflexivity).
  split; [exact Hvalue|].
  rewrite Hvalue. intros H. vm_compute in H. discriminate H.
Defined.
